(** * Verification of the filesystem tool server (src/filesystem/main.py)

    The development embeds the tools of [main.py] that the specification
    talks about: the format-dispatched reader [read_text_from_file], the
    delete and restore primitives, and the batch copy and move loops.

    - Python [str] values are lists of Unicode code points.
    - A tool runs in a monad that threads the state of the world (the file
      system and the lines printed on standard output) and may raise a
      Python exception.
    - The platform (POSIX flavour of [os.path], [pathlib], [open], [csv],
      [json]) is modelled concretely where a claim depends on what it
      computes.  What the interpreter and the operating system decide
      outside the state (whether standard output takes a line, whether a
      path may be changed or written, the encoding of the locale, the room
      that the recursion limit leaves) is read from the class [Platform];
      libraries whose results are opaque to the claims ([shutil],
      ElementTree, pandas, python-docx, PyYAML, float conversion) are the
      fields of the class [Libraries]. *)

From Stdlib Require Import ZArith NArith Lia DecimalString DecimalZ.
From Stdlib.Strings Require Import String Byte.
From stdpp Require Import base option list gmap.

#[local] Set Warnings "-register-all".

#[local] Open Scope N_scope.
#[local] Open Scope Z_scope.

(** ** Strings *)

(** A Python [str] is a sequence of code points. *)
Abbreviation char := N (only parsing).
Abbreviation str := (list N) (only parsing).

Module Utf8.

(** Continuation bytes are 10xxxxxx. *)
Definition is_cont (b : N) : bool := ((128 <=? b) && (b <? 192))%N.

Definition is_surrogate (c : N) : bool := ((55296 <=? c) && (c <? 57344))%N.

(** The strict decoder of the [utf-8] codec: overlong forms, surrogates
    and code points above U+10FFFF are errors ([None] stands for
    [UnicodeDecodeError]). *)
Fixpoint decode (bs : list N) : option str :=
  match bs with
  | [] => Some []
  | b0 :: r0 =>
      if (b0 <? 128)%N then cons b0 <$> decode r0
      else if ((194 <=? b0) && (b0 <? 224))%N then
        match r0 with
        | b1 :: r1 =>
            if is_cont b1
            then cons ((b0 - 192) * 64 + (b1 - 128))%N <$> decode r1
            else None
        | _ => None
        end
      else if ((224 <=? b0) && (b0 <? 240))%N then
        match r0 with
        | b1 :: b2 :: r2 =>
            let c := ((b0 - 224) * 4096 + (b1 - 128) * 64 + (b2 - 128))%N in
            if is_cont b1 && is_cont b2 && (2048 <=? c)%N && negb (is_surrogate c)
            then cons c <$> decode r2
            else None
        | _ => None
        end
      else if ((240 <=? b0) && (b0 <? 245))%N then
        match r0 with
        | b1 :: b2 :: b3 :: r3 =>
            let c := ((b0 - 240) * 262144 + (b1 - 128) * 4096
                      + (b2 - 128) * 64 + (b3 - 128))%N in
            if is_cont b1 && is_cont b2 && is_cont b3
               && (65536 <=? c)%N && (c <? 1114112)%N
            then cons c <$> decode r3
            else None
        | _ => None
        end
      else None
  end.

Definition decode_bytes (bs : list byte) : option str :=
  decode (Byte.to_N <$> bs).

End Utf8.

(** Literals: the code points of a source-text literal (this file is UTF-8). *)
Definition bytes_of (s : string) : list byte := list_byte_of_string s.
Definition py (s : string) : str := default [] (Utf8.decode_bytes (bytes_of s)).

Definition LF : char := 10%N.
Definition CR : char := 13%N.
Definition TAB : char := 9%N.
Definition SPACE : char := 32%N.
Definition DQUOTE : char := 34%N.
Definition COMMA : char := 44%N.
Definition DOT : char := 46%N.
Definition SLASH : char := 47%N.

(** [sep.join(parts)] *)
Fixpoint str_join (sep : str) (parts : list str) : str :=
  match parts with
  | [] => []
  | [p] => p
  | p :: rest => p ++ sep ++ str_join sep rest
  end.

(** [s.startswith(c)], [s.endswith(c)] for a one-character [c]. *)
Definition startswith (s : str) (c : char) : bool :=
  match s with x :: _ => (x =? c)%N | [] => false end.
Definition endswith (s : str) (c : char) : bool :=
  match last s with Some x => (x =? c)%N | None => false end.

(** [s.rfind(c)]: the highest index of [c] in [s], or -1.  [i] is the index
    of the head of [s]. *)
Fixpoint rfind_from (i : Z) (s : str) (c : char) : Z :=
  match s with
  | [] => -1
  | x :: r =>
      let j := rfind_from (i + 1) r c in
      if 0 <=? j then j else if (x =? c)%N then i else -1
  end.
Definition rfind (s : str) (c : char) : Z := rfind_from 0 s c.

(** Slices with non-negative bounds: [s[:i]], [s[i:]], [s[i:j]]. *)
Definition slice_to (s : str) (i : Z) : str := take (Z.to_nat i) s.
Definition slice_from (s : str) (i : Z) : str := drop (Z.to_nat i) s.
Definition slice (s : str) (i j : Z) : str := slice_to (slice_from s i) (j - i).

(** [s.split(c)] *)
Fixpoint split_on_aux (c : char) (cur : str) (s : str) : list str :=
  match s with
  | [] => [cur]
  | x :: r => if (x =? c)%N then cur :: split_on_aux c [] r
              else split_on_aux c (cur ++ [x]) r
  end.
Definition split_on (c : char) (s : str) : list str := split_on_aux c [] s.

(** ** Paths ([posixpath], [genericpath], [pathlib]) *)

Module os_path.

Definition sep : char := SLASH.
Definition extsep : char := DOT.

(** [genericpath._splitext]: the loop skips the leading dots of the last
    component; [n] bounds its iterations. *)
Fixpoint splitext_loop (n : nat) (p : str) (filenameIndex dotIndex : Z)
  : option (str * str) :=
  match n with
  | O => None
  | S n' =>
      if filenameIndex <? dotIndex then
        if bool_decide (slice p filenameIndex (filenameIndex + 1) ≠ [extsep])
        then Some (slice_to p dotIndex, slice_from p dotIndex)
        else splitext_loop n' p (filenameIndex + 1) dotIndex
      else None
  end.

Definition splitext (p : str) : str * str :=
  let sepIndex := rfind p sep in
  let dotIndex := rfind p extsep in
  let found :=
    if sepIndex <? dotIndex
    then splitext_loop (length p) p (sepIndex + 1) dotIndex
    else None in
  default (p, slice_to p 0) found.

(** [posixpath.basename] *)
Definition basename (p : str) : str :=
  let i := rfind p sep + 1 in
  slice_from p i.

(** [posixpath.join(a, b)] *)
Definition join (a b : str) : str :=
  if startswith b sep then b
  else if bool_decide (a = []) || endswith a sep then a ++ b
  else a ++ [sep] ++ b.

(** [posixpath.dirname] *)
Fixpoint rstrip_sep_rev (r : str) : str :=
  match r with
  | x :: r' => if (x =? sep)%N then rstrip_sep_rev r' else r
  | [] => []
  end.
Definition dirname (p : str) : str :=
  let i := rfind p sep + 1 in
  let head := slice_to p i in
  if bool_decide (head ≠ []) && bool_decide (head ≠ replicate (length head) sep)
  then reverse (rstrip_sep_rev (reverse head))
  else head.

End os_path.

Module pathlib.

(** [posixpath.splitroot]: the root is [/], or [//] for exactly two
    leading slashes. *)
Definition splitroot (p : str) : str * str :=
  if bool_decide (slice p 0 1 ≠ [SLASH]) then ([], p)
  else if bool_decide (slice p 1 2 ≠ [SLASH]) || bool_decide (slice p 2 3 = [SLASH])
  then ([SLASH], slice_from p 1)
  else (slice_to p 2, slice_from p 2).

(** [str(Path(p))]: empty and [.] components are dropped, the empty path
    is [.]. *)
Definition Path (p : str) : str :=
  let '(root, rel) := splitroot p in
  let parsed := filter (λ x, x ≠ [] ∧ x ≠ [DOT]) (split_on SLASH rel) in
  let s := root ++ str_join [SLASH] parsed in
  if bool_decide (s = []) then [DOT] else s.

End pathlib.

(** ** The world and the effects of a tool *)

(** Python exceptions, by class.  Every class below derives from
    [Exception]; [str(e)] is the message.  (Messages of platform errors
    are abbreviated; no statement of this file depends on their text.) *)
Inductive exn_class :=
| FileNotFoundError | IsADirectoryError | NotADirectoryError | PermissionError
| OSError
| UnicodeDecodeError | UnicodeEncodeError | ValueError | RecursionError
| ImportError | ModuleNotFoundError
| JSONDecodeError | csv_Error | LibraryError.

Record exn := Exn { exn_cls : exn_class; exn_str : str }.

(** [isinstance(e, OSError)] *)
Definition is_OSError (e : exn) : bool :=
  match exn_cls e with
  | FileNotFoundError | IsADirectoryError | NotADirectoryError
  | PermissionError | OSError => true
  | _ => false
  end.

(** A pure library call: it raises or it returns. *)
#[global] Instance result_fmap : FMap (sum exn) :=
  λ A B f r, match r with inl e => inl e | inr a => inr (f a) end.
#[global] Instance result_bind : MBind (sum exn) :=
  λ A B k r, match r with inl e => inl e | inr a => k a end.
#[global] Instance result_ret : MRet (sum exn) := λ A a, inr a.

(** [isinstance(e, ImportError)] *)
Definition is_ImportError (e : exn) : bool :=
  match exn_cls e with
  | ImportError | ModuleNotFoundError => true
  | _ => false
  end.

(** An entry of the file system.  Every entry belongs to the calling
    process; a file may be unreadable, a directory may refuse new or
    removed entries. *)
Inductive node :=
| File (content : list byte) (readable : bool)
| Dir (writable : bool).

(** The file system maps a path, as spelled, to its entry: the model is
    exact for worlds and arguments that use one spelling per entry (no
    links, no [..], no doubled or trailing separators).  An entry sits under
    a path that the operating system accepts as a name, so the calls that
    only look a path up find nothing under any other.  [stdout] collects
    the lines printed so far. *)
Record world := World {
  files : gmap str node;
  stdout : list str
}.

Definition M (A : Type) : Type := world → (exn + A) * world.

Definition ret {A} (a : A) : M A := λ w, (inr a, w).

Definition bind {A B} (m : M A) (k : A → M B) : M B :=
  λ w, match m w with
       | (inr a, w') => k a w'
       | (inl e, w') => (inl e, w')
       end.

Definition raise {A} (e : exn) : M A := λ w, (inl e, w).

Notation "x <- m ;; k" := (bind m (λ x, k))
  (at level 20, m at level 99, k at level 200, format "x  <-  m  ;;  '/' k").
Notation "m ;; k" := (bind m (λ _, k))
  (at level 100, k at level 200, right associativity).

(** [try: body  except Exception as e: handler(e)] *)
Definition try_except {A} (body : M A) (handler : exn → M A) : M A :=
  λ w, match body w with
       | (inl e, w') => handler e w'
       | r => r
       end.

(** [for x in xs: s = body(x, s)] *)
Fixpoint for_in {A S} (xs : list A) (body : A → S → M S) (s : S) : M S :=
  match xs with
  | [] => ret s
  | x :: rest => s' <- body x s ;; for_in rest body s'
  end.

(** What the interpreter and the operating system decide outside the state
    of the world. *)
Class Platform := {
  (** [sys.stdout.write(line)]: the exception raised when standard output
      cannot take the line (its encoding lacks a character:
      [UnicodeEncodeError]; the stream is closed or broken: [ValueError],
      [OSError]) *)
  stdout_refuses : str → option exn;
  (** the exception with which a call that changes the entry at a path
      ([os.utime], [os.open], [open] for writing, [os.unlink]) is refused
      for a reason outside the state: a path that is no name (an embedded
      NUL: [ValueError]; too long a name: [OSError]), a file system that is
      mounted read-only *)
  change_refused : str → option exn;
  (** whether the permissions of the file that exists at a path forbid the
      process to write it (no tool changes them) *)
  write_denied : str → bool;
  (** [text.encode(locale.getpreferredencoding())], which [open(p, "w")]
      applies to what is written *)
  locale_encode : str → exn + list byte;
  (** the nesting of arrays and objects that the recursion limit leaves room
      for when [json.loads] scans and when [json.dumps] encodes (the limit
      less the frames in use) *)
  json_scan_room : nat;
  json_encode_room : nat
}.

(** [print(line)]: the line is written to standard output, or the write
    raises and nothing is written. *)
Definition print `{Platform} (line : str) : M unit :=
  λ w, match stdout_refuses line with
       | Some e => (inl e, w)
       | None => (inr tt, World (files w) (stdout w ++ [line]))
       end.

Definition get_files : M (gmap str node) := λ w, (inr (files w), w).
Definition put_files (fs : gmap str node) : M unit :=
  λ w, (inr tt, World fs (stdout w)).

Definition lift {A} (r : exn + A) : M A :=
  match r with inl e => raise e | inr a => ret a end.

(** ** Platform primitives *)

Definition repr (p : str) : str := py "'" ++ p ++ py "'".

Definition ENOENT (p : str) : exn :=
  Exn FileNotFoundError (py "[Errno 2] No such file or directory: " ++ repr p).
Definition EISDIR (p : str) : exn :=
  Exn IsADirectoryError (py "[Errno 21] Is a directory: " ++ repr p).
Definition ENOTDIR (p : str) : exn :=
  Exn NotADirectoryError (py "[Errno 20] Not a directory: " ++ repr p).
Definition EACCES (p : str) : exn :=
  Exn PermissionError (py "[Errno 13] Permission denied: " ++ repr p).

(** [os.path.exists]: [os.stat] succeeds.  Directories exist too. *)
Definition os_path_exists (p : str) : M bool :=
  fs <- get_files ;;
  ret (match fs !! p with Some _ => true | None => false end).

(** [open(p, "rb").read()] *)
Definition read_bytes (p : str) : M (list byte) :=
  fs <- get_files ;;
  match fs !! p with
  | None => raise (ENOENT p)
  | Some (Dir _) => raise (EISDIR p)
  | Some (File content readable) =>
      if readable then ret content else raise (EACCES p)
  end.

(** A text file opened for reading: the bytes the handle will deliver. *)
Record TextIOWrapper := TextIO { raw : list byte }.

(** [open(p, "r", encoding="utf-8")] *)
Definition open_r (p : str) : M TextIOWrapper :=
  content <- read_bytes p ;; ret (TextIO content).

(** Universal newlines, the default of text mode: [\r\n] and [\r] are read
    as [\n]. *)
Fixpoint universal_newlines (s : str) : str :=
  match s with
  | [] => []
  | c :: r =>
      if (c =? CR)%N then
        LF :: match r with
              | d :: r' => if (d =? LF)%N then universal_newlines r'
                           else universal_newlines r
              | [] => []
              end
      else c :: universal_newlines r
  end.

(** [f.read()] *)
Definition TextIO_read (f : TextIOWrapper) : M str :=
  match Utf8.decode_bytes (raw f) with
  | Some s => ret (universal_newlines s)
  | None => raise (Exn UnicodeDecodeError (py "'utf-8' codec can't decode byte"))
  end.

(** [list(f)]: the lines of the file, each with its terminator. *)
Fixpoint splitlines_keepends (cur : str) (s : str) : list str :=
  match s with
  | [] => match cur with [] => [] | _ => [cur] end
  | c :: r =>
      if (c =? LF)%N then (cur ++ [c]) :: splitlines_keepends [] r
      else splitlines_keepends (cur ++ [c]) r
  end.

Definition TextIO_lines (f : TextIOWrapper) : M (list str) :=
  s <- TextIO_read f ;; ret (splitlines_keepends [] s).

(** The directory that holds the entry [p]; the empty [dirname] is the
    working directory. *)
Definition parent (p : str) : str :=
  let d := os_path.dirname p in
  if bool_decide (d = []) then [DOT] else d.

(** Permission to add an entry to, or remove one from, the directory of
    [p]. *)
Definition check_parent (p : str) : M unit :=
  fs <- get_files ;;
  match fs !! parent p with
  | None => raise (ENOENT p)
  | Some (File _ _) => raise (ENOTDIR p)
  | Some (Dir writable) => if writable then ret tt else raise (EACCES p)
  end.

Section changes.
Context `{Platform}.

(** What every call that changes the entry at [p] starts with. *)
Definition check_change (p : str) : M unit :=
  match change_refused p with
  | Some e => raise e
  | None => ret tt
  end.

(** [os.unlink(p)] *)
Definition os_unlink (p : str) : M unit :=
  check_change p ;;
  fs <- get_files ;;
  match fs !! p with
  | None => raise (ENOENT p)
  | Some (Dir _) => raise (EISDIR p)
  | Some (File _ _) => check_parent p ;; put_files (delete p fs)
  end.

(** [os.remove(p)]: "This function is semantically identical to
    [unlink()]" (the [os] module; both names are bound to one function). *)
Definition os_remove (p : str) : M unit := os_unlink p.

(** [os.utime(p, None)]: timestamps are not part of the state, so a
    successful call leaves the world as it is. *)
Definition os_utime (p : str) : M unit :=
  check_change p ;;
  fs <- get_files ;;
  match fs !! p with
  | None => raise (ENOENT p)
  | Some _ => ret tt
  end.

(** [os.close(os.open(p, O_CREAT | O_WRONLY, 0o666))]: the file is created
    when missing and never truncated. *)
Definition os_open_creat (p : str) : M unit :=
  check_change p ;;
  fs <- get_files ;;
  match fs !! p with
  | Some (Dir _) => raise (EISDIR p)
  | Some (File _ _) => ret tt
  | None => check_parent p ;; put_files (<[p := File [] true]> fs)
  end.

(** [Path(p).touch()] with [exist_ok=True] ([pathlib.Path.touch]): first
    try to bump the modification time; [except OSError], create the file.
    An exception of another class leaves [touch] at once. *)
Definition Path_touch (p : str) : M unit :=
  let self := pathlib.Path p in
  try_except (os_utime self)
    (λ e, if is_OSError e then os_open_creat self else raise e).

End changes.

(** ** The [csv] reader

    [csv.reader(f, delimiter=d)] reads with the [excel] dialect: the double
    quote as quote character, doubled quotes, no escape character, no skipping of
    initial spaces, not strict, minimal quoting.  The transitions are those
    of [parse_process_char] in [Modules/_csv.c]; the three states that only
    an escape character can reach are left out. *)

Module csv.

Inductive ParserState :=
| START_RECORD | START_FIELD | IN_FIELD
| IN_QUOTED_FIELD | QUOTE_IN_QUOTED_FIELD | EAT_CRNL.

#[global] Instance ParserState_eq_dec : EqDecision ParserState.
Proof. solve_decision. Defined.

Record Dialect := {
  delimiter : char;
  quotechar : char;
  doublequote : bool;
  skipinitialspace : bool;
  strict : bool
}.

Definition excel (d : char) : Dialect :=
  {| delimiter := d; quotechar := DQUOTE; doublequote := true;
     skipinitialspace := false; strict := false |}.

Record ReaderObj := {
  state : ParserState;
  fields : list str;
  field : str
}.

(** [csv.field_size_limit()] *)
Definition field_limit : N := 131072%N.

Definition Error (msg : string) : exn := Exn csv_Error (py msg).

Definition set_state (self : ReaderObj) (s : ParserState) : ReaderObj :=
  {| state := s; fields := fields self; field := field self |}.

Definition parse_save_field (self : ReaderObj) : ReaderObj :=
  {| state := state self; fields := fields self ++ [field self]; field := [] |}.

Definition parse_add_char (self : ReaderObj) (c : char) : exn + ReaderObj :=
  if (field_limit <=? N.of_nat (length (field self)))%N
  then inl (Error "field larger than field limit (131072)")
  else inr {| state := state self; fields := fields self;
              field := field self ++ [c] |}.

(** What [parse_process_char] is fed: a character of the line, or the
    end-of-line marker that follows each line. *)
Inductive input := Char (c : char) | EOL.

Definition is_newline (c : char) : bool := (c =? LF)%N || (c =? CR)%N.

Definition after_record (i : input) : ParserState :=
  match i with EOL => START_RECORD | Char _ => EAT_CRNL end.

Definition start_field (d : Dialect) (self : ReaderObj) (i : input)
  : exn + ReaderObj :=
  match i with
  | EOL => inr (set_state (parse_save_field self) START_RECORD)
  | Char c =>
      if is_newline c then inr (set_state (parse_save_field self) EAT_CRNL)
      else if (c =? quotechar d)%N then inr (set_state self IN_QUOTED_FIELD)
      else if (c =? SPACE)%N && skipinitialspace d then inr self
      else if (c =? delimiter d)%N then inr (parse_save_field self)
      else (λ s, set_state s IN_FIELD) <$> parse_add_char self c
  end.

Definition parse_process_char (d : Dialect) (self : ReaderObj) (i : input)
  : exn + ReaderObj :=
  match state self with
  | START_RECORD =>
      match i with
      | EOL => inr self
      | Char c =>
          if is_newline c then inr (set_state self EAT_CRNL)
          else start_field d (set_state self START_FIELD) i
      end
  | START_FIELD => start_field d self i
  | IN_FIELD =>
      match i with
      | EOL => inr (set_state (parse_save_field self) START_RECORD)
      | Char c =>
          if is_newline c then inr (set_state (parse_save_field self) EAT_CRNL)
          else if (c =? delimiter d)%N
          then inr (set_state (parse_save_field self) START_FIELD)
          else parse_add_char self c
      end
  | IN_QUOTED_FIELD =>
      match i with
      | EOL => inr self
      | Char c =>
          if (c =? quotechar d)%N then
            if doublequote d then inr (set_state self QUOTE_IN_QUOTED_FIELD)
            else inr (set_state self IN_FIELD)
          else parse_add_char self c
      end
  | QUOTE_IN_QUOTED_FIELD =>
      match i with
      | EOL => inr (set_state (parse_save_field self) START_RECORD)
      | Char c =>
          if (c =? quotechar d)%N
          then (λ s, set_state s IN_QUOTED_FIELD) <$> parse_add_char self c
          else if (c =? delimiter d)%N
          then inr (set_state (parse_save_field self) START_FIELD)
          else if is_newline c
          then inr (set_state (parse_save_field self) EAT_CRNL)
          else if negb (strict d)
          then (λ s, set_state s IN_FIELD) <$> parse_add_char self c
          else inl (Error "delimiter expected after quotechar")
      end
  | EAT_CRNL =>
      match i with
      | EOL => inr (set_state self START_RECORD)
      | Char c =>
          if is_newline c then inr self
          else inl (Error "new-line character seen in unquoted field")
      end
  end.

Definition parse_reset : ReaderObj :=
  {| state := START_RECORD; fields := []; field := [] |}.

(** The characters of one line, then the end-of-line marker. *)
Fixpoint parse_line (d : Dialect) (self : ReaderObj) (line : str)
  : exn + ReaderObj :=
  match line with
  | [] => parse_process_char d self EOL
  | c :: rest =>
      match parse_process_char d self (Char c) with
      | inl e => inl e
      | inr self' => parse_line d self' rest
      end
  end.

(** [list(reader)]: [Reader_iternext] consumes lines until the state is
    [START_RECORD] again and yields the fields; each call starts from
    [parse_reset].  When the lines run out inside a record, the record is
    yielded if a field is pending or a quote is open. *)
Fixpoint rows (d : Dialect) (self : ReaderObj) (lines : list str)
  : exn + list (list str) :=
  match lines with
  | [] =>
      if bool_decide (field self ≠ []) || bool_decide (state self = IN_QUOTED_FIELD)
      then if strict d then inl (Error "unexpected end of data")
           else inr [fields (parse_save_field self)]
      else inr []
  | line :: rest =>
      match parse_line d self line with
      | inl e => inl e
      | inr self' =>
          if bool_decide (state self' = START_RECORD)
          then cons (fields self') <$> rows d parse_reset rest
          else rows d self' rest
      end
  end.

(** [list(csv.reader(lines, delimiter=d))] *)
Definition reader (d : char) (lines : list str) : exn + list (list str) :=
  rows (excel d) parse_reset lines.

End csv.

(** ** The [json] package

    [json.loads] follows the scanner of [Modules/_json.c] (the one the
    package uses by default) and [json.dumps] the encoder of
    [json/encoder.py].  A float is kept as the lexeme it was read from: its
    conversion and [repr] are floating-point work, left to [Libraries].
    Both recurse on the nesting of the document and raise [RecursionError]
    when it exceeds the room that the [Platform] gives. *)

Module json.

Inductive value :=
| JNull
| JBool (b : bool)
| JInt (z : Z)
| JFloat (lexeme : str)
| JConst (name : str)
| JStr (s : str)
| JList (items : list value)
| JDict (items : list (str * value)).

Definition JSONDecodeError (msg : string) : exn := Exn JSONDecodeError (py msg).

Definition is_whitespace (c : char) : bool :=
  (c =? SPACE)%N || (c =? TAB)%N || (c =? LF)%N || (c =? CR)%N.

Fixpoint skip_whitespace (s : str) : str :=
  match s with
  | c :: r => if is_whitespace c then skip_whitespace r else s
  | [] => []
  end.

Definition is_digit (c : char) : bool := ((48 <=? c) && (c <=? 57))%N.

(** The longest prefix of digits, and what follows it. *)
Fixpoint span_digits (s : str) : str * str :=
  match s with
  | c :: r => if is_digit c
              then let '(ds, rest) := span_digits r in (c :: ds, rest)
              else ([], s)
  | [] => ([], [])
  end.

(** [prefix] read off the front of [s]. *)
Fixpoint strip_literal (prefix s : str) : option str :=
  match prefix, s with
  | [], _ => Some s
  | p :: prefix', c :: r => if (p =? c)%N then strip_literal prefix' r else None
  | _ :: _, [] => None
  end.

Definition hex_value (c : char) : option N :=
  if ((48 <=? c) && (c <=? 57))%N then Some (c - 48)%N
  else if ((97 <=? c) && (c <=? 102))%N then Some (c - 87)%N
  else if ((65 <=? c) && (c <=? 70))%N then Some (c - 55)%N
  else None.

Definition hex4 (a b c d : char) : option N :=
  x ← hex_value a; y ← hex_value b; z ← hex_value c; t ← hex_value d;
  Some (((x * 16 + y) * 16 + z) * 16 + t)%N.

Definition is_high_surrogate (c : N) : bool := ((55296 <=? c) && (c <=? 56319))%N.
Definition is_low_surrogate (c : N) : bool := ((56320 <=? c) && (c <=? 57343))%N.
Definition join_surrogates (hi lo : N) : N :=
  (65536 + (hi - 55296) * 1024 + (lo - 56320))%N.

(** The character an escape letter stands for. *)
Definition unescape (c : char) : option char :=
  if (c =? DQUOTE)%N then Some DQUOTE
  else if (c =? 92)%N then Some 92%N
  else if (c =? SLASH)%N then Some SLASH
  else if (c =? 98)%N then Some 8%N
  else if (c =? 102)%N then Some 12%N
  else if (c =? 110)%N then Some LF
  else if (c =? 114)%N then Some CR
  else if (c =? 116)%N then Some TAB
  else None.

(** [scanstring] in strict mode, from the character after the opening
    quote: the decoded string and the text after the closing quote. *)
Fixpoint scanstring (s : str) : exn + (str * str) :=
  match s with
  | [] => inl (JSONDecodeError "Unterminated string starting at")
  | c :: r =>
      if (c =? DQUOTE)%N then inr ([], r)
      else if (c =? 92)%N then
        match r with
        | [] => inl (JSONDecodeError "Unterminated string starting at")
        | e :: r1 =>
            if (e =? 117)%N then
              match r1 with
              | h1 :: h2 :: h3 :: h4 :: r2 =>
                  match hex4 h1 h2 h3 h4 with
                  | None => inl (JSONDecodeError "Invalid \uXXXX escape")
                  | Some u =>
                      let single := ('(x, rest) ← scanstring r2; inr (u :: x, rest)) in
                      match r2 with
                      | b :: v :: g1 :: g2 :: g3 :: g4 :: r3 =>
                          if is_high_surrogate u && (b =? 92)%N && (v =? 117)%N then
                            match hex4 g1 g2 g3 g4 with
                            | None => inl (JSONDecodeError "Invalid \uXXXX escape")
                            | Some u2 =>
                                if is_low_surrogate u2
                                then '(x, rest) ← scanstring r3;
                                     inr (join_surrogates u u2 :: x, rest)
                                else single
                            end
                          else single
                      | _ => single
                      end
                  end
              | _ => inl (JSONDecodeError "Invalid \uXXXX escape")
              end
            else
              match unescape e with
              | Some x => '(y, rest) ← scanstring r1; inr (x :: y, rest)
              | None => inl (JSONDecodeError "Invalid \escape")
              end
        end
      else if (c <=? 31)%N then inl (JSONDecodeError "Invalid control character at")
      else '(x, rest) ← scanstring r; inr (c :: x, rest)
  end.

(** [int(digits)]; [sys.int_max_str_digits] is 4300. *)
Definition int_of_digits (ds : str) : Z :=
  foldl (λ acc c, 10 * acc + Z.of_N (c - 48)) 0 ds.

Definition parse_int (negative : bool) (ds : str) : exn + value :=
  if (4300 <? length ds)%nat
  then inl (Exn ValueError (py "Exceeds the limit (4300 digits) for integer string conversion"))
  else inr (JInt (if negative then - int_of_digits ds else int_of_digits ds)).

(** [_match_number]: an optional minus sign; a zero, or digits that do
    not start with zero; then a fraction (a dot and digits) and an
    exponent ([e] or [E], a sign, digits), each read only when whole. *)
Definition match_number (s : str) : exn + (value * str) :=
  let '(negative, s1) :=
    match s with
    | c :: r => if (c =? 45)%N then (true, r) else (false, s)
    | [] => (false, s)
    end in
  let sign : str := if negative then [45%N] else [] in
  match s1 with
  | [] => inl (JSONDecodeError "Expecting value")
  | c :: r =>
      if negb (is_digit c) then inl (JSONDecodeError "Expecting value")
      else
        let '(int_digits, s2) :=
          if (c =? 48)%N then ([c], r) else span_digits s1 in
        let '(frac, s3) :=
          match s2 with
          | p :: d :: _ =>
              if (p =? DOT)%N && is_digit d
              then let '(ds, rest) := span_digits (drop 1 s2) in (p :: ds, rest)
              else ([], s2)
          | _ => ([], s2)
          end in
        let '(exponent, s4) :=
          match s3 with
          | e :: r3 =>
              if (e =? 101)%N || (e =? 69)%N then
                let '(esign, r4) :=
                  match r3 with
                  | g :: r' => if (g =? 45)%N || (g =? 43)%N then ([g], r') else ([], r3)
                  | [] => ([], r3)
                  end in
                let '(ds, rest) := span_digits r4 in
                match ds with
                | [] => ([], s3)
                | _ => (e :: esign ++ ds, rest)
                end
              else ([], s3)
          | [] => ([], s3)
          end in
        match frac, exponent with
        | [], [] => v ← parse_int negative int_digits; inr (v, s4)
        | _, _ => inr (JFloat (sign ++ int_digits ++ frac ++ exponent), s4)
        end
  end.

(** [d[k] = v] on a [dict], which remembers the order of first insertion. *)
Fixpoint dict_set (k : str) (v : value) (d : list (str * value))
  : list (str * value) :=
  match d with
  | [] => [(k, v)]
  | (k', v') :: rest =>
      if bool_decide (k' = k) then (k, v) :: rest
      else (k', v') :: dict_set k v rest
  end.

Definition literal (name : string) (v : value) (s : str) : option (value * str) :=
  rest ← strip_literal (py name) s; Some (v, rest).

(** The scanner enters an array or an object through
    [Py_EnterRecursiveCall], which raises when the recursion limit leaves no
    room. *)
Definition RecursionError_decoding (what : string) : exn :=
  Exn RecursionError
    (py "maximum recursion depth exceeded while decoding a JSON "
     ++ py what ++ py " from a unicode string").

(** [scan_once], with the loops of [_parse_array] and [_parse_object].
    [room] is the nesting that the recursion limit still allows: it goes
    down by one inside an array or an object.  [n] bounds the chain of
    calls and makes the definition structural; [loads] gives enough of it.
    [None] says that [n] ran out. *)
Fixpoint scan_once (n : nat) (room : nat) (s : str) : option (exn + (value * str)) :=
  match n with
  | O => None
  | S n' =>
      match s with
      | [] => Some (inl (JSONDecodeError "Expecting value"))
      | c :: r =>
          if (c =? DQUOTE)%N then
            Some ('(x, rest) ← scanstring r; inr (JStr x, rest))
          else if (c =? 123)%N then
            match room with
            | O => Some (inl (RecursionError_decoding "object"))
            | S room' =>
                match skip_whitespace r with
                | c2 :: r2 =>
                    if (c2 =? 125)%N then Some (inr (JDict [], r2))
                    else parse_object n' room' (skip_whitespace r) []
                | [] => parse_object n' room' [] []
                end
            end
          else if (c =? 91)%N then
            match room with
            | O => Some (inl (RecursionError_decoding "array"))
            | S room' =>
                match skip_whitespace r with
                | c2 :: r2 =>
                    if (c2 =? 93)%N then Some (inr (JList [], r2))
                    else parse_array n' room' (skip_whitespace r) []
                | [] => parse_array n' room' [] []
                end
            end
          else
            let named :=
              if (c =? 110)%N then literal "null" JNull s
              else if (c =? 116)%N then literal "true" (JBool true) s
              else if (c =? 102)%N then literal "false" (JBool false) s
              else if (c =? 78)%N then literal "NaN" (JConst (py "NaN")) s
              else if (c =? 73)%N then literal "Infinity" (JConst (py "Infinity")) s
              else if (c =? 45)%N then literal "-Infinity" (JConst (py "-Infinity")) s
              else None in
            match named with
            | Some found => Some (inr found)
            | None => Some (match_number s)
            end
      end
  end
with parse_array (n : nat) (room : nat) (s : str) (acc : list value)
  : option (exn + (value * str)) :=
  match n with
  | O => None
  | S n' =>
      match scan_once n' room s with
      | None => None
      | Some (inl e) => Some (inl e)
      | Some (inr (v, rest)) =>
          match skip_whitespace rest with
          | c :: r =>
              if (c =? 93)%N then Some (inr (JList (acc ++ [v]), r))
              else if (c =? COMMA)%N
              then parse_array n' room (skip_whitespace r) (acc ++ [v])
              else Some (inl (JSONDecodeError "Expecting ',' delimiter"))
          | [] => Some (inl (JSONDecodeError "Expecting ',' delimiter"))
          end
      end
  end
with parse_object (n : nat) (room : nat) (s : str) (acc : list (str * value))
  : option (exn + (value * str)) :=
  match n with
  | O => None
  | S n' =>
      match s with
      | q :: r =>
          if negb (q =? DQUOTE)%N
          then Some (inl (JSONDecodeError
                            "Expecting property name enclosed in double quotes"))
          else
            match scanstring r with
            | inl e => Some (inl e)
            | inr (key, rest) =>
                match skip_whitespace rest with
                | colon :: r1 =>
                    if negb (colon =? 58)%N
                    then Some (inl (JSONDecodeError "Expecting ':' delimiter"))
                    else
                      match scan_once n' room (skip_whitespace r1) with
                      | None => None
                      | Some (inl e) => Some (inl e)
                      | Some (inr (v, rest1)) =>
                          match skip_whitespace rest1 with
                          | c :: r2 =>
                              if (c =? 125)%N
                              then Some (inr (JDict (dict_set key v acc), r2))
                              else if (c =? COMMA)%N
                              then parse_object n' room (skip_whitespace r2)
                                     (dict_set key v acc)
                              else Some (inl (JSONDecodeError
                                                "Expecting ',' delimiter"))
                          | [] => Some (inl (JSONDecodeError "Expecting ',' delimiter"))
                          end
                      end
                | [] => Some (inl (JSONDecodeError "Expecting ':' delimiter"))
                end
            end
      | [] => Some (inl (JSONDecodeError
                          "Expecting property name enclosed in double quotes"))
      end
  end.

(** The calls that [scan_once] needs for a text: every call in a chain
    either follows a consumed character or is followed by one. *)
Definition enough (s : str) : nat := (2 * length s + 2)%nat.

(** [json.loads(s)] when the recursion limit leaves [room] levels of
    nesting.  ([scan_once_enough] below: the default is never taken.) *)
Definition loads (room : nat) (s : str) : exn + value :=
  if startswith s 65279%N
  then inl (JSONDecodeError "Unexpected UTF-8 BOM (decode using utf-8-sig)")
  else
    '(obj, rest) ← default (inl (RecursionError_decoding "value"))
                     (scan_once (enough s) room (skip_whitespace s));
    match skip_whitespace rest with
    | [] => inr obj
    | _ => inl (JSONDecodeError "Extra data")
    end.

(** *** Encoding *)

Definition hex_digit (n : N) : char := if (n <? 10)%N then (48 + n)%N else (87 + n)%N.

(** [\uXXXX], lower-case digits *)
Definition u_escape (c : N) : str :=
  [92%N; 117%N; hex_digit (c / 4096 mod 16); hex_digit (c / 256 mod 16);
   hex_digit (c / 16 mod 16); hex_digit (c mod 16)].

(** [ESCAPE_DCT]: the backslash, the quote and the control characters. *)
Definition escape_dct (c : char) : option str :=
  if (c =? 92)%N then Some [92%N; 92%N]
  else if (c =? DQUOTE)%N then Some [92%N; DQUOTE]
  else if (c =? 8)%N then Some [92%N; 98%N]
  else if (c =? 12)%N then Some [92%N; 102%N]
  else if (c =? LF)%N then Some [92%N; 110%N]
  else if (c =? CR)%N then Some [92%N; 114%N]
  else if (c =? TAB)%N then Some [92%N; 116%N]
  else if (c <? 32)%N then Some (u_escape c)
  else None.

(** [encode_basestring]: characters outside [ESCAPE_DCT] are copied. *)
Definition encode_basestring (s : str) : str :=
  [DQUOTE] ++ mjoin ((λ c, default [c] (escape_dct c)) <$> s) ++ [DQUOTE].

(** [encode_basestring_ascii]: moreover everything outside the printable
    ASCII range is escaped, astral characters as a surrogate pair. *)
Definition escape_ascii (c : char) : str :=
  match escape_dct c with
  | Some e => e
  | None =>
      if ((32 <=? c) && (c <=? 126))%N then [c]
      else if (c <? 65536)%N then u_escape c
      else let v := (c - 65536)%N in
           u_escape (55296 + v / 1024 mod 1024) ++ u_escape (56320 + v mod 1024)
  end.
Definition encode_basestring_ascii (s : str) : str :=
  [DQUOTE] ++ mjoin (escape_ascii <$> s) ++ [DQUOTE].

Definition intstr (z : Z) : str := py (NilZero.string_of_int (Z.to_int z)).

Section encoder.
Variable floatstr : str → str.
Variable indent : option nat.
Variable ensure_ascii : bool.

Definition encoder (s : str) : str :=
  if ensure_ascii then encode_basestring_ascii s else encode_basestring s.

(** The line break and margin at a nesting level; nothing without
    [indent]. *)
Definition newline_indent (level : nat) : str :=
  match indent with
  | Some k => LF :: replicate (k * level) SPACE
  | None => []
  end.

Definition item_separator : str :=
  match indent with Some _ => [COMMA] | None => [COMMA; SPACE] end.
Definition key_separator : str := [58%N; SPACE].

(** [_iterencode] at [_current_indent_level = level], chunks joined. *)
Fixpoint iterencode (level : nat) (o : value) : str :=
  match o with
  | JNull => py "null"
  | JBool true => py "true"
  | JBool false => py "false"
  | JInt z => intstr z
  | JFloat lexeme => floatstr lexeme
  | JConst name => name
  | JStr s => encoder s
  | JList [] => py "[]"
  | JList items =>
      py "[" ++ newline_indent (S level)
      ++ str_join (item_separator ++ newline_indent (S level))
           (map (iterencode (S level)) items)
      ++ newline_indent level ++ py "]"
  | JDict [] => py "{}"
  | JDict items =>
      py "{" ++ newline_indent (S level)
      ++ str_join (item_separator ++ newline_indent (S level))
           (map (λ kv, encoder (fst kv) ++ key_separator
                        ++ iterencode (S level) (snd kv)) items)
      ++ newline_indent level ++ py "}"
  end.
End encoder.

(** The generators that [_iterencode] has running at once: one for each
    array or object around the value being written, the empty ones
    included. *)
Fixpoint depth (o : value) : nat :=
  match o with
  | JList items => S (foldr (λ v d, Nat.max (depth v) d) 0%nat items)
  | JDict items => S (foldr (λ kv d, Nat.max (depth (snd kv)) d) 0%nat items)
  | _ => 0%nat
  end.

(** [json.dumps(obj, indent=indent, ensure_ascii=ensure_ascii)] when the
    recursion limit leaves [room] levels of nesting: with an [indent] the
    encoder is the recursive one of [json/encoder.py]. *)
Definition dumps (floatstr : str → str) (room : nat) (obj : value)
    (indent : option nat) (ensure_ascii : bool) : exn + str :=
  if (room <? depth obj)%nat
  then inl (Exn RecursionError
              (py "maximum recursion depth exceeded while calling a Python object"))
  else inr (iterencode floatstr indent ensure_ascii 0 obj).

End json.

(** ** Libraries taken as given

    What these calls compute is opaque to the properties below; each may
    raise.  ElementTree opens the path it is given and feeds the bytes to its
    parser; pandas and python-docx are handed the path and look at the file
    system as they see fit (python-docx also reads a package that is laid
    out as a directory). *)

Record YamlModule := {
  YamlNode : Type;
  (** [yaml.safe_load(stream)] on the text of the stream *)
  yaml_safe_load : str → exn + YamlNode;
  (** [yaml.dump(data, default_flow_style=.., allow_unicode=..)] *)
  yaml_dump : YamlNode → bool → bool → exn + str
}.

Class Libraries := {
  (** [shutil.copy2(src, dst)] and [shutil.move(src, dst)] *)
  shutil_copy2 : str → str → M unit;
  shutil_move : str → str → M unit;
  (** [float.__repr__(float(lexeme))] *)
  floatstr : str → str;
  (** [ET.parse(source).getroot()] and [ET.tostring(root, encoding="unicode")] *)
  Element : Type;
  ET_parse : list byte → exn + Element;
  ET_tostring : Element → exn + str;
  (** [pd.read_excel(io, sheet_name=None)]: the sheets by name, in workbook
      order, and [DataFrame.to_string()] *)
  DataFrame : Type;
  pd_read_excel : gmap str node → str → exn + list (str * DataFrame);
  DataFrame_to_string : DataFrame → exn + str;
  (** [Document(docx)]: the text of [doc.paragraphs], in document order *)
  docx_Document : gmap str node → str → exn + list str;
  (** PyYAML, when it is installed *)
  yaml : option YamlModule
}.

(** ** The tools of [main.py] *)

Section tools.
Context `{Platform} `{Libraries}.

Definition copy_file (src dst : str) : M bool :=
  try_except
    (shutil_copy2 src dst ;; ret true)
    (λ e, print (py "复制文件失败: " ++ exn_str e) ;; ret false).

Definition move_file (src dst : str) : M bool :=
  try_except
    (shutil_move src dst ;; ret true)
    (λ e, print (py "移动文件失败: " ++ exn_str e) ;; ret false).

Definition batch_copy_files (src_paths : list str) (dst_dir : str) : M (list bool) :=
  for_in src_paths
    (λ src results,
       let dst := os_path.join dst_dir (os_path.basename src) in
       success <- copy_file src dst ;;
       ret (results ++ [success]))
    [].

Definition batch_move_files (src_paths : list str) (dst_dir : str) : M (list bool) :=
  for_in src_paths
    (λ src results,
       let dst := os_path.join dst_dir (os_path.basename src) in
       success <- move_file src dst ;;
       ret (results ++ [success]))
    [].

Definition delete_file (file_path : str) (permanent : bool) : M bool :=
  try_except
    ((if permanent then os_unlink file_path else os_remove file_path) ;;
     ret true)
    (λ e, print (py "删除文件失败: " ++ exn_str e) ;; ret false).

Definition restore_file_from_recycle_bin (file_path : str) : M bool :=
  try_except
    (Path_touch file_path ;; ret true)
    (λ e, print (py "恢复文件失败: " ++ exn_str e) ;; ret false).

(** [json.load(f)] is [json.loads(f.read())]. *)
Definition json_load (f : TextIOWrapper) : M json.value :=
  s <- TextIO_read f ;; lift (json.loads json_scan_room s).

(** [import yaml] *)
Definition import_yaml : M YamlModule :=
  match yaml with
  | Some Y => ret Y
  | None => raise (Exn ModuleNotFoundError (py "No module named 'yaml'"))
  end.

(** [df[sheet]] *)
Definition dict_getitem {V} (d : list (str * V)) (k : str) : exn + V :=
  match list_find (λ kv, fst kv = k) d with
  | Some (_, (_, v)) => inr v
  | None => inl (Exn LibraryError (repr k))
  end.

(** The branches of [read_text_from_file], in the order of the source. *)

(** [with open(file_path, "r", encoding="utf-8") as f: return f.read()] *)
Definition read_verbatim (file_path : str) : M (option str) :=
  f <- open_r file_path ;;
  text <- TextIO_read f ;; ret (Some text).

(** [data = json.load(f)]
    [return json.dumps(data, indent=4, ensure_ascii=False)] *)
Definition read_json (file_path : str) : M (option str) :=
  f <- open_r file_path ;;
  data <- json_load f ;;
  text <- lift (json.dumps floatstr json_encode_room data (Some 4%nat) false) ;;
  ret (Some text).

(** [root = ET.parse(file_path).getroot()]
    [return ET.tostring(root, encoding="unicode")] *)
Definition read_xml (file_path : str) : M (option str) :=
  source <- read_bytes file_path ;;
  root <- lift (ET_parse source) ;;
  text <- lift (ET_tostring root) ;; ret (Some text).

(** [delimiter = "," if file_ext == ".csv" else "\t"] *)
Definition delimiter_of (file_ext : str) : char :=
  if bool_decide (file_ext = py ".csv") then COMMA else TAB.

(** ["\n".join([delimiter.join(row) for row in reader])] on the rows the
    reader yields from the lines of the file *)
Definition rejoin (delimiter : char) (lines : list str) : exn + str :=
  rows ← csv.reader delimiter lines;
  mret (str_join [LF] (map (str_join [delimiter]) rows)).

Definition read_delimited (file_path file_ext : str) : M (option str) :=
  let delimiter := delimiter_of file_ext in
  f <- open_r file_path ;;
  lines <- TextIO_lines f ;;
  text <- lift (rejoin delimiter lines) ;; ret (Some text).

(** [df = pd.read_excel(file_path, sheet_name=None)]
    [return "\n".join([df[sheet].to_string() for sheet in df])] *)
Definition read_excel (file_path : str) : M (option str) :=
  try_except
    (fs <- get_files ;;
     df <- lift (pd_read_excel fs file_path) ;;
     sheets <- lift (mapM (λ sheet, dict_getitem df sheet ≫= DataFrame_to_string)
                       (map fst df)) ;;
     ret (Some (str_join [LF] sheets)))
    (λ e, print (py "读取 Excel 文件失败: " ++ exn_str e) ;; ret None).

(** [doc = Document(file_path)]
    [return "\n".join([p.text for p in doc.paragraphs])] *)
Definition read_word (file_path : str) : M (option str) :=
  try_except
    (fs <- get_files ;;
     paragraphs <- lift (docx_Document fs file_path) ;;
     ret (Some (str_join [LF] paragraphs)))
    (λ e, print (py "读取 Word 文件失败: " ++ exn_str e) ;; ret None).

(** [import yaml], [data = yaml.safe_load(f)],
    [return yaml.dump(data, default_flow_style=False, allow_unicode=True)];
    [except ImportError] comes before [except Exception]. *)
Definition read_yaml (file_path : str) : M (option str) :=
  try_except
    (Y <- import_yaml ;;
     f <- open_r file_path ;;
     stream <- TextIO_read f ;;
     data <- lift (yaml_safe_load Y stream) ;;
     text <- lift (yaml_dump Y data false true) ;; ret (Some text))
    (λ e, if is_ImportError e
          then print (py "请安装 PyYAML 库以支持 YAML 文件: pip install pyyaml") ;;
               ret None
          else print (py "读取 YAML 文件失败: " ++ exn_str e) ;; ret None).

Definition unsupported (file_ext : str) : M (option str) :=
  print (py "不支持的文件格式: " ++ file_ext) ;; ret None.

Definition TEXT_EXTS : list str :=
  [py ".txt"; py ".log"; py ".md"; py ".ini"; py ".cfg"; py ".sql";
   py ".bat"; py ".sh"].

(** The [if]/[elif] chain on [file_ext]. *)
Definition dispatch (file_path file_ext : str) : M (option str) :=
  if bool_decide (file_ext ∈ TEXT_EXTS) then read_verbatim file_path
  else if bool_decide (file_ext = py ".json") then read_json file_path
  else if bool_decide (file_ext = py ".xml") then read_xml file_path
  else if bool_decide (file_ext ∈ [py ".csv"; py ".tsv"])
  then read_delimited file_path file_ext
  else if bool_decide (file_ext ∈ [py ".xlsx"; py ".xls"]) then read_excel file_path
  else if bool_decide (file_ext ∈ [py ".docx"; py ".doc"]) then read_word file_path
  else if bool_decide (file_ext ∈ [py ".html"; py ".htm"]) then read_verbatim file_path
  else if bool_decide (file_ext ∈ [py ".yaml"; py ".yml"]) then read_yaml file_path
  else unsupported file_ext.

(** The [try] block of [read_text_from_file]. *)
Definition read_text_body (file_path : str) : M (option str) :=
  found <- os_path_exists file_path ;;
  if negb found then
    print (py "文件不存在: " ++ file_path) ;; ret None
  else
    let file_ext := snd (os_path.splitext file_path) in
    dispatch file_path file_ext.

(** The outer handler: [print(f"读取文件失败: {e}")], [return None]. *)
Definition read_failed (e : exn) : M (option str) :=
  print (py "读取文件失败: " ++ exn_str e) ;; ret None.

Definition read_text_from_file (file_path : str) : M (option str) :=
  try_except (read_text_body file_path) read_failed.

(** *** The format classes of the specification

    The source has no such type: it names the branches of [dispatch]. *)

Inductive FormatClass :=
| PlainText | Json | Xml | DelimitedTable | Spreadsheet | Document
| Markup | Yaml | Unsupported.

Definition MAPPING_TABLE : list (str * FormatClass) :=
  [(py ".txt", PlainText); (py ".log", PlainText); (py ".md", PlainText);
   (py ".ini", PlainText); (py ".cfg", PlainText); (py ".sql", PlainText);
   (py ".bat", PlainText); (py ".sh", PlainText);
   (py ".json", Json); (py ".xml", Xml);
   (py ".csv", DelimitedTable); (py ".tsv", DelimitedTable);
   (py ".xlsx", Spreadsheet); (py ".xls", Spreadsheet);
   (py ".docx", Document); (py ".doc", Document);
   (py ".html", Markup); (py ".htm", Markup);
   (py ".yaml", Yaml); (py ".yml", Yaml)].

Definition format_class (file_ext : str) : FormatClass :=
  match list_find (λ entry, fst entry = file_ext) MAPPING_TABLE with
  | Some (_, (_, c)) => c
  | None => Unsupported
  end.

Definition decoder (c : FormatClass) (file_path file_ext : str) : M (option str) :=
  match c with
  | PlainText | Markup => read_verbatim file_path
  | Json => read_json file_path
  | Xml => read_xml file_path
  | DelimitedTable => read_delimited file_path file_ext
  | Spreadsheet => read_excel file_path
  | Document => read_word file_path
  | Yaml => read_yaml file_path
  | Unsupported => unsupported file_ext
  end.

End tools.

(** [s.lower()] on the ASCII letters. *)
Definition lower (s : str) : str :=
  (λ c, if ((65 <=? c) && (c <=? 90))%N then (c + 32)%N else c) <$> s.

(** *** The delimited-table decoder as a function of the text

    What [read_delimited] returns for a file whose bytes decode to [text]:
    the text goes through universal newlines, is cut into lines, parsed and
    rejoined. *)
Definition delimited_table (delimiter : char) (text : str) : exn + str :=
  rejoin delimiter (splitlines_keepends [] (universal_newlines text)).

(** [s] without its final line feed, if it ends with one. *)
Fixpoint chomp (s : str) : str :=
  match s with
  | [] => []
  | c :: r =>
      match r with
      | [] => if (c =? LF)%N then [] else [c]
      | _ => c :: chomp r
      end
  end.

(** Every maximal run of [s] without delimiter or line feed fits in a field
    ([n] characters of the current run have been seen). *)
Fixpoint runs_short (d : char) (n : nat) (s : str) : Prop :=
  match s with
  | [] => True
  | c :: r =>
      if (c =? d)%N || (c =? LF)%N then runs_short d 0 r
      else (N.of_nat n < csv.field_limit)%N ∧ runs_short d (S n) r
  end.

(** *** Invariants of the reader

    Outside quotes, with [t] the part of the current line consumed so far:
    the fields collected and the field under construction, joined by the
    delimiter, spell [t]. *)
Definition unquoted (d : char) (self : csv.ReaderObj) (t : str) : Prop :=
  str_join [d] (csv.fields self ++ [csv.field self]) = t
  ∧ match csv.state self with
    | csv.START_RECORD => csv.fields self = [] ∧ csv.field self = []
    | csv.START_FIELD => csv.field self = []
    | csv.IN_FIELD => True
    | _ => False
    end.

(** A field the reader has accepted: free of carriage returns (the lines it
    is fed have none) and within the field size limit. *)
Definition field_ok (f : str) : Prop :=
  (CR ∉ f) ∧ (N.of_nat (length f) ≤ csv.field_limit)%N.

Definition reader_ok (self : csv.ReaderObj) : Prop :=
  Forall field_ok (csv.fields self) ∧ field_ok (csv.field self).

(** The body of the loop that the two batch tools share, for a per-file
    tool [op] ([copy_file] or [move_file]). *)
Definition batch_step (op : str → str → M bool) (dst_dir : str)
    (src : str) (results : list bool) : M (list bool) :=
  let dst := os_path.join dst_dir (os_path.basename src) in
  success <- op src dst ;;
  ret (results ++ [success]).

(** ** A sample runtime

    Concrete platforms, libraries and worlds on which the statements below
    are exercised.  The stand-ins are deliberately small: the document
    libraries reject every file, the YAML module (when present) accepts
    every stream and dumps it unchanged, and [shutil] handles regular
    files. *)

Definition unavailable {A B} : A → exn + B :=
  λ _, inl (Exn LibraryError (py "not available")).

Definition echo_yaml : YamlModule :=
  {| YamlNode := str;
     yaml_safe_load := λ stream, inr stream;
     yaml_dump := λ data _ _, inr data |}.

(** The UTF-8 encoder, the counterpart of [Utf8.decode]: surrogates and
    values above U+10FFFF cannot be encoded. *)
Definition utf8_encode_char (c : N) : option (list N) :=
  if (c <? 128)%N then Some [c]
  else if (c <? 2048)%N then Some [(192 + c / 64)%N; (128 + c mod 64)%N]
  else if Utf8.is_surrogate c then None
  else if (c <? 65536)%N
  then Some [(224 + c / 4096)%N; (128 + c / 64 mod 64)%N; (128 + c mod 64)%N]
  else if (c <? 1114112)%N
  then Some [(240 + c / 262144)%N; (128 + c / 4096 mod 64)%N;
             (128 + c / 64 mod 64)%N; (128 + c mod 64)%N]
  else None.

Definition utf8_encode (s : str) : option (list N) :=
  mjoin <$> mapM utf8_encode_char s.

Definition utf8_encode_bytes (s : str) : option (list byte) :=
  utf8_encode s ≫= mapM Byte.of_N.

(** [text.encode("utf-8")] *)
Definition utf8_codec (s : str) : exn + list byte :=
  match utf8_encode_bytes s with
  | Some data => inr data
  | None => inl (Exn UnicodeEncodeError (py "'utf-8' codec can't encode character"))
  end.

(** A platform under a locale whose encoding is UTF-8, everything else
    as it is. *)
Definition utf8_locale `{Platform} : Platform :=
  {| stdout_refuses := stdout_refuses;
     change_refused := change_refused;
     write_denied := write_denied;
     locale_encode := utf8_codec;
     json_scan_room := json_scan_room;
     json_encode_room := json_encode_room |}.

(** A default interpreter on a POSIX system with a UTF-8 locale, for a
    process that owns every file: the recursion limit of 1000 with ten
    frames in use, a path with a NUL refused, and a standard output that
    takes every line (an encoding with an error handler that replaces what
    it cannot encode). *)
Definition sample_platform : Platform :=
  {| stdout_refuses := λ _, None;
     change_refused := λ p,
       if bool_decide (0%N ∈ p)
       then Some (Exn ValueError (py "embedded null byte")) else None;
     write_denied := λ _, false;
     locale_encode := utf8_codec;
     json_scan_room := 990;
     json_encode_room := 990 |}.

(** The same with a standard output in ASCII: a line with any other
    character is refused. *)
Definition ascii_stdout : Platform :=
  {| stdout_refuses := λ line,
       if bool_decide (Forall (λ c, (c < 128)%N) line) then None
       else Some (Exn UnicodeEncodeError
                    (py "'ascii' codec can't encode characters: ordinal not in range(128)"));
     change_refused := @change_refused sample_platform;
     write_denied := @write_denied sample_platform;
     locale_encode := utf8_codec;
     json_scan_room := 990;
     json_encode_room := 990 |}.

(** The same where the files named [locked.txt] may not be written. *)
Definition with_locked_file : Platform :=
  {| stdout_refuses := λ _, None;
     change_refused := @change_refused sample_platform;
     write_denied := λ p, bool_decide (p = py "locked.txt");
     locale_encode := utf8_codec;
     json_scan_room := 990;
     json_encode_room := 990 |}.

Section sample_libraries.
Context `{Platform}.

Definition copy_regular (src dst : str) : M unit :=
  content <- read_bytes src ;;
  fs <- get_files ;;
  let dst := match fs !! dst with
             | Some (Dir _) => os_path.join dst (os_path.basename src)
             | _ => dst
             end in
  match fs !! dst with
  | Some (Dir _) => raise (EISDIR dst)
  | Some (File _ _) => put_files (<[dst := File content true]> fs)
  | None => check_parent dst ;; put_files (<[dst := File content true]> fs)
  end.

Definition sample_runtime (y : option YamlModule) : Libraries :=
  {| shutil_copy2 := copy_regular;
     shutil_move := λ src dst, copy_regular src dst ;; os_unlink src;
     floatstr := λ lexeme, lexeme;
     Element := unit;
     ET_parse := unavailable;
     ET_tostring := unavailable;
     DataFrame := unit;
     pd_read_excel := λ _, unavailable;
     DataFrame_to_string := unavailable;
     docx_Document := λ _, unavailable;
     yaml := y |}.

End sample_libraries.

(** File contents are written with their line feeds and quotes spelled
    out. *)
Definition lf : list byte := [x0a].
Definition dq : list byte := [x22].

Definition sample_files : gmap str node :=
  list_to_map
    [(py ".", Dir true);
     (py "docs", Dir false);
     (py "notes.txt", File (bytes_of "hello") true);
     (py "NOTES.TXT", File (bytes_of "hello") true);
     (py "a.csv", File (bytes_of "1,2" ++ lf ++ bytes_of "3,4") true);
     (py "q.csv", File (dq ++ bytes_of "x,y" ++ dq ++ bytes_of ",z") true);
     (py "blank.csv", File (bytes_of "a" ++ lf ++ lf) true);
     (py "once.csv", File (bytes_of "a" ++ lf) true);
     (py "twice.csv", File (dq ++ dq ++ dq ++ bytes_of "a" ++ dq ++ dq ++ dq) true);
     (py "peeled.csv", File (dq ++ bytes_of "a" ++ dq) true);
     (py "flat.csv", File (bytes_of "x,y,z") true);
     (py "a.json", File (bytes_of "{" ++ dq ++ bytes_of "a" ++ dq ++ bytes_of ":1}") true);
     (py "bad.json", File (bytes_of "{" ++ dq ++ bytes_of "a" ++ dq ++ bytes_of ":}") true);
     (py "c.yaml", File (bytes_of "a: 1") true);
     (py "secret.txt", File (bytes_of "hidden") false);
     (py "latin1.txt", File [xe9] true);
     (py "docs.txt", Dir true)].

Definition sample_world : world := World sample_files [].

(** A [.json] text of [n] arrays, one inside the other, and the value it
    stands for. *)
Definition deep_json (n : nat) : list byte :=
  replicate n "["%byte ++ replicate n "]"%byte.

Fixpoint nested_arrays (n : nat) : json.value :=
  match n with
  | O => json.JNull
  | 1%nat => json.JList []
  | S n' => json.JList [nested_arrays n']
  end.

(** A [.csv] text of one field, [n] characters long. *)
Definition wide_field (n : N) : list byte := replicate (N.to_nat n) "a"%byte.

(** ** The writing and listing tools

    [create_file] and [save_file] write a text file, in the encoding of
    the locale; [search_files] and [get_all_files] walk a directory with
    [os.walk]. *)

(** [os.walk(top)]: the triples [(root, dirs, files)] it yields, in its
    order. *)
Class Walker := {
  os_walk : str → M (list (str * list str * list str))
}.

(** A text file opened for writing: its path, and whether the file can be
    read (a file that [open] creates can). *)
Record TextIOWriter := TextIOw { w_name : str; w_readable : bool }.

(** [open(p, "w")]: the file is created, or emptied if it exists and may
    be written. *)
Definition open_w `{Platform} (p : str) : M TextIOWriter :=
  check_change p ;;
  fs <- get_files ;;
  match fs !! p with
  | Some (Dir _) => raise (EISDIR p)
  | Some (File _ readable) =>
      if write_denied p then raise (EACCES p)
      else put_files (<[p := File [] readable]> fs) ;; ret (TextIOw p readable)
  | None =>
      check_parent p ;;
      put_files (<[p := File [] true]> fs) ;; ret (TextIOw p true)
  end.

(** [f.write(text)] on a file just opened with [open_w], and the flush when
    it is closed: the text is encoded first, so nothing is written when it
    cannot be encoded. *)
Definition TextIO_write `{Platform} (f : TextIOWriter) (text : str) : M unit :=
  data <- lift (locale_encode text) ;;
  fs <- get_files ;;
  put_files (<[w_name f := File data (w_readable f)]> fs).

(** [keyword in file] *)
Fixpoint str_contains (keyword file : str) : bool :=
  bool_decide (keyword `prefix_of` file)
  || match file with
     | [] => false
     | _ :: rest => str_contains keyword rest
     end.

Section more_tools.
Context `{Platform} `{Walker}.

Definition create_file (file_path : str) (content : str) : M bool :=
  try_except
    (f <- open_w file_path ;;
     TextIO_write f content ;;
     ret true)
    (λ e, print (py "创建文件失败: " ++ exn_str e) ;; ret false).

Definition save_file (file_path : str) (content : str) (file_format : str) : M bool :=
  try_except
    (let file_path :=
       if negb (bool_decide ((py "." ++ file_format) `suffix_of` file_path))
       then file_path ++ py "." ++ file_format
       else file_path in
     f <- open_w file_path ;;
     TextIO_write f content ;;
     ret true)
    (λ e, print (py "保存文件失败: " ++ exn_str e) ;; ret false).

Definition search_files (directory keyword : str) : M (list str) :=
  try_except
    (walk <- os_walk directory ;;
     ret (flat_map
            (λ '(root, _, files),
               map (os_path.join root)
                   (filter (λ file, str_contains keyword file = true) files))
            walk))
    (λ e, print (py "搜索文件失败: " ++ exn_str e) ;; ret []).

Definition get_all_files (folder_path : str) : M (list str) :=
  try_except
    (walk <- os_walk folder_path ;;
     for_in walk
       (λ '(root, _, files) all_files,
          for_in files
            (λ file all_files,
               let file_path := os_path.join root file in
               ret (all_files ++ [file_path]))
            all_files)
       [])
    (λ e, print (py "获取文件夹下所有文件失败: " ++ exn_str e) ;; ret []).

End more_tools.

(** A walker for the sample worlds: the entries of [top] are the paths
    whose parent it is, in the order of the map; the walk goes on below each
    directory among them, [fuel] levels deep. *)
Definition sample_entries (fs : gmap str node) (top : str) : list str * list str :=
  let entries := filter (λ kv, parent kv.1 = top ∧ kv.1 ≠ top) (map_to_list fs) in
  (omap (λ kv, match kv.2 with Dir _ => Some (os_path.basename kv.1) | _ => None end) entries,
   omap (λ kv, match kv.2 with File _ _ => Some (os_path.basename kv.1) | _ => None end) entries).

Fixpoint sample_walk (fuel : nat) (fs : gmap str node) (top : str)
  : list (str * list str * list str) :=
  match fuel with
  | O => []
  | S n =>
      let '(dirs, files) := sample_entries fs top in
      (top, dirs, files) :: flat_map (λ d, sample_walk n fs (os_path.join top d)) dirs
  end.

Definition sample_walker : Walker :=
  {| os_walk := λ top,
       fs <- get_files ;;
       match fs !! top with
       | Some (Dir _) => ret (sample_walk 8 fs top)
       | _ => ret []
       end |}.

(** ** What a computation prints *)

(** A computation that neither writes nor prints. *)
Definition quiet {A} (m : M A) : Prop := ∀ w, (m w).2 = w.

(** A quiet computation that returns some text or raises. *)
Definition clean (m : M (option str)) : Prop :=
  ∀ w, (m w).2 = w ∧ (m w).1 ≠ inr None.

(** A computation that prints nothing when it returns a text or raises, and
    exactly one line when it returns [None]. *)
Definition diagnosed (m : M (option str)) : Prop :=
  ∀ w, match m w with
       | (inr (Some _), w') => w' = w
       | (inr None, w') => ∃ line, w' = World (files w) (stdout w ++ [line])
       | (inl _, w') => w' = w
       end.

(** * Properties *)

(** ** Reasoning about effects *)

(** A computation that leaves the file system as it found it. *)
Definition read_only {A} (m : M A) : Prop := ∀ w, files (m w).2 = files w.

(** A computation that returns, whatever the world. *)
Definition returns {A} (m : M A) : Prop := ∀ w, ∃ a w', m w = (inr a, w').

Create HintDb effects discriminated.

Lemma read_only_ret {A} (a : A) : read_only (ret a).
Proof. by intros w. Qed.

Lemma read_only_raise {A} (e : exn) : read_only (raise (A := A) e).
Proof. by intros w. Qed.

Lemma read_only_lift {A} (r : exn + A) : read_only (lift r).
Proof. by destruct r; intros w. Qed.

Lemma read_only_print `{Platform} (line : str) : read_only (print line).
Proof. intros w. unfold print. by destruct (stdout_refuses line). Qed.

Lemma read_only_get_files : read_only get_files.
Proof. by intros w. Qed.

Lemma read_only_bind {A B} (m : M A) (k : A → M B) :
  read_only m → (∀ a, read_only (k a)) → read_only (bind m k).
Proof.
  intros Hm Hk w. unfold bind. specialize (Hm w).
  destruct (m w) as [[e|a] w1]; simpl in *; [done|].
  by rewrite Hk.
Qed.

Lemma read_only_try_except {A} (body : M A) (handler : exn → M A) :
  read_only body → (∀ e, read_only (handler e)) →
  read_only (try_except body handler).
Proof.
  intros Hb Hh w. unfold try_except. specialize (Hb w).
  destruct (body w) as [[e|a] w1]; simpl in *; [|done].
  by rewrite Hh.
Qed.

Lemma read_only_if {A} (b : bool) (m1 m2 : M A) :
  read_only m1 → read_only m2 → read_only (if b then m1 else m2).
Proof. by destruct b. Qed.

#[export] Hint Resolve read_only_ret read_only_raise read_only_lift
  read_only_print read_only_get_files read_only_if : effects.
#[export] Hint Extern 2 (read_only (bind _ _)) =>
  apply read_only_bind; [|intros ?] : effects.
#[export] Hint Extern 2 (read_only (try_except _ _)) =>
  apply read_only_try_except; [|intros ?] : effects.

Lemma read_only_exists (p : str) : read_only (os_path_exists p).
Proof. unfold os_path_exists. auto with effects. Qed.

Lemma read_only_read_bytes (p : str) : read_only (read_bytes p).
Proof.
  unfold read_bytes. apply read_only_bind; [auto with effects|].
  intros fs. destruct (fs !! p) as [[c []|?]|]; auto with effects.
Qed.

Lemma read_only_open_r (p : str) : read_only (open_r p).
Proof.
  unfold open_r. apply read_only_bind; [apply read_only_read_bytes|].
  auto with effects.
Qed.

Lemma read_only_TextIO_read (f : TextIOWrapper) : read_only (TextIO_read f).
Proof. unfold TextIO_read. destruct (Utf8.decode_bytes _); auto with effects. Qed.

Lemma read_only_TextIO_lines (f : TextIOWrapper) : read_only (TextIO_lines f).
Proof.
  unfold TextIO_lines. apply read_only_bind; [apply read_only_TextIO_read|].
  auto with effects.
Qed.

#[export] Hint Resolve read_only_exists read_only_read_bytes read_only_open_r
  read_only_TextIO_read read_only_TextIO_lines : effects.

Lemma try_except_returns {A} (body : M A) (handler : exn → M A) :
  (∀ e, returns (handler e)) → returns (try_except body handler).
Proof.
  intros Hh w. unfold try_except.
  destruct (body w) as [[e|a] w1]; [apply Hh|eauto].
Qed.

(** ** Printing

    [print] appends its line when standard output takes it, and raises what
    the stream raised otherwise.  A handler that prints a diagnostic and
    returns a value therefore returns only if its line is taken. *)

Lemma print_taken `{Platform} (line : str) (w : world) :
  stdout_refuses line = None →
  print line w = (inr tt, World (files w) (stdout w ++ [line])).
Proof. intros Hline. unfold print. by rewrite Hline. Qed.

Lemma print_refused `{Platform} (line : str) (e : exn) (w : world) :
  stdout_refuses line = Some e → print line w = (inl e, w).
Proof. intros Hline. unfold print. by rewrite Hline. Qed.

(** What a handler [print(line); return v] comes to. *)
Lemma print_then_ret `{Platform} {A} (line : str) (v : A) (w : world) :
  (print line ;; ret v) w
  = match stdout_refuses line with
    | None => (inr v, World (files w) (stdout w ++ [line]))
    | Some e => (inl e, w)
    end.
Proof. unfold bind, print, ret. by destruct (stdout_refuses line). Qed.

Lemma print_then_ret_returns `{Platform} {A} (line : str) (v : A) :
  stdout_refuses line = None → returns (print line ;; ret v).
Proof. intros Hline w. rewrite print_then_ret, Hline. by eexists _, _. Qed.

Section reader_effects.
Context `{Platform} `{Libraries}.

Lemma read_only_dispatch (file_path file_ext : str) :
  read_only (dispatch file_path file_ext).
Proof.
  unfold dispatch, read_verbatim, read_json, json_load, read_xml,
    read_delimited, read_excel, read_word, read_yaml, import_yaml,
    unsupported.
  repeat (apply read_only_if); auto 12 with effects.
  - apply read_only_try_except; [|intros e; destruct (is_ImportError e)];
      auto 12 with effects.
    apply read_only_bind; [destruct yaml|]; auto 12 with effects.
Qed.

Lemma read_only_read_text_body (file_path : str) :
  read_only (read_text_body file_path).
Proof.
  unfold read_text_body.
  apply read_only_bind; [auto with effects|].
  intros found. apply read_only_if; [auto with effects|].
  apply read_only_dispatch.
Qed.

Lemma read_only_read_text_from_file (file_path : str) :
  read_only (read_text_from_file file_path).
Proof.
  unfold read_text_from_file, read_failed.
  apply read_only_try_except; [apply read_only_read_text_body|].
  auto with effects.
Qed.

(** The outer handler returns [None] after its line, or raises what the
    print raised. *)
Lemma read_failed_run (e : exn) (w : world) :
  read_failed e w
  = match stdout_refuses (py "读取文件失败: " ++ exn_str e) with
    | None => (inr None,
               World (files w) (stdout w ++ [py "读取文件失败: " ++ exn_str e]))
    | Some e' => (inl e', w)
    end.
Proof. apply print_then_ret. Qed.

(** It never returns a text. *)
Lemma read_failed_no_text (e : exn) (w w' : world) (out : str) :
  read_failed e w ≠ (inr (Some out), w').
Proof. rewrite read_failed_run. by destruct (stdout_refuses _). Qed.

End reader_effects.

(** ** Dispatch on the extension *)

(** Closed tests on extensions are evaluated; the branches are left alone. *)
Ltac eval_closed t :=
  let v := eval vm_compute in t in
  replace t with v by (vm_compute; reflexivity).

(** An extension that differs from every element of a list is not in it. *)
Ltac not_listed :=
  let Hin := fresh "Hin" in
  intros Hin;
  repeat (apply elem_of_cons in Hin as [->|Hin]; [done|]);
  by apply elem_of_nil in Hin.

Ltac case_ext ext lit :=
  destruct (decide (ext = py lit)) as [->|?];
  [ unfold dispatch;
    repeat match goal with
           | |- context [bool_decide ?P] => eval_closed (bool_decide P)
           end;
    eval_closed (format_class (py lit)); reflexivity
  | ].

Section dispatch_facts.
Context `{Platform} `{Libraries}.

Lemma table_classes_supported :
  Forall (λ entry : str * FormatClass, entry.2 ≠ Unsupported) MAPPING_TABLE.
Proof. unfold MAPPING_TABLE. repeat constructor; discriminate. Qed.

Lemma format_class_unsupported (file_ext : str) :
  format_class file_ext = Unsupported ↔ file_ext ∉ MAPPING_TABLE.*1.
Proof.
  unfold format_class.
  destruct (list_find _ MAPPING_TABLE) as [[i [e c]]|] eqn:Hfind.
  - apply list_find_Some in Hfind as (Hlook & Heq & _). simpl in Heq. subst e.
    split.
    + intros ->. by eapply (Forall_lookup_1 _ _ _ _ table_classes_supported) in Hlook.
    + intros Hnot. exfalso. apply Hnot.
      apply list_elem_of_fmap. exists (file_ext, c). split; [done|].
      by eapply list_elem_of_lookup_2.
  - apply list_find_None in Hfind. split; [|done]. intros _ Hin.
    apply list_elem_of_fmap in Hin as ([e c] & -> & Hin).
    by eapply (proj1 (Forall_forall _ _) Hfind) in Hin.
Qed.

Lemma dispatch_by_class (file_path file_ext : str) :
  dispatch file_path file_ext
  = decoder (format_class file_ext) file_path file_ext.
Proof.
  case_ext file_ext ".txt"%string. case_ext file_ext ".log"%string.
  case_ext file_ext ".md"%string. case_ext file_ext ".ini"%string.
  case_ext file_ext ".cfg"%string. case_ext file_ext ".sql"%string.
  case_ext file_ext ".bat"%string. case_ext file_ext ".sh"%string.
  case_ext file_ext ".json"%string. case_ext file_ext ".xml"%string.
  case_ext file_ext ".csv"%string. case_ext file_ext ".tsv"%string.
  case_ext file_ext ".xlsx"%string. case_ext file_ext ".xls"%string.
  case_ext file_ext ".docx"%string. case_ext file_ext ".doc"%string.
  case_ext file_ext ".html"%string. case_ext file_ext ".htm"%string.
  case_ext file_ext ".yaml"%string. case_ext file_ext ".yml"%string.
  assert (file_ext ∉ MAPPING_TABLE.*1) as Hnot by (simpl; not_listed).
  rewrite (proj2 (format_class_unsupported file_ext) Hnot). simpl.
  unfold dispatch, TEXT_EXTS.
  rewrite !bool_decide_eq_false_2 by (done || not_listed). done.
Qed.

(** An existing path goes to the decoder of its extension. *)
Lemma read_text_from_file_existing (file_path : str) (w : world) :
  is_Some (files w !! file_path) →
  let file_ext := (os_path.splitext file_path).2 in
  read_text_from_file file_path w
  = try_except (decoder (format_class file_ext) file_path file_ext) read_failed w.
Proof.
  intros [n Hn]. simpl.
  unfold read_text_from_file, try_except, read_text_body, bind, os_path_exists,
    get_files, ret. simpl. rewrite Hn. simpl. by rewrite dispatch_by_class.
Qed.

End dispatch_facts.

(** ** What the reader returns, and when it raises *)

(** C1 (amended): [read_text_from_file] reads without changing the file
    system and hands on what its [try] block returns.  What the block raises
    (from the existence check, the read, the decoding or a parser) goes to
    the outer handler, which prints one line and returns [None]; the call
    raises only when standard output refuses that line, and then with the
    exception of the print.  So it returns for every path as soon as
    standard output takes the lines of the outer handler. *)
Theorem read_text_from_file_raises_only_from_print `{Platform} `{Libraries}
    (file_path : str) (w : world) :
  files (read_text_from_file file_path w).2 = files w
  ∧ (∀ (result : option str) (w1 : world),
      read_text_body file_path w = (inr result, w1) →
      read_text_from_file file_path w = (inr result, w1))
  ∧ (∀ (e : exn) (w1 : world),
      read_text_body file_path w = (inl e, w1) →
      let line := py "读取文件失败: " ++ exn_str e in
      match stdout_refuses line with
      | None =>
          read_text_from_file file_path w
          = (inr None, World (files w) (stdout w1 ++ [line]))
      | Some e' => read_text_from_file file_path w = (inl e', w1)
      end)
  ∧ ((∀ e, stdout_refuses (py "读取文件失败: " ++ exn_str e) = None) →
     ∃ (result : option str) (w' : world),
       read_text_from_file file_path w = (inr result, w')).
Proof.
  split; [apply read_only_read_text_from_file|].
  split; [|split].
  - intros result w1 Hbody. unfold read_text_from_file, try_except.
    by rewrite Hbody.
  - intros e w1 Hbody line.
    pose proof (read_only_read_text_body file_path w) as Hro.
    rewrite Hbody in Hro. simpl in Hro.
    unfold read_text_from_file, try_except. rewrite Hbody, read_failed_run.
    fold line. destruct (stdout_refuses line); [done|]. by rewrite Hro.
  - intros Houter. unfold read_text_from_file.
    apply try_except_returns. intros e.
    apply print_then_ret_returns, Houter.
Qed.

(** C1 (as stated) fails: on a standard output in ASCII the not-found line
    of a missing path cannot be printed, the outer handler's line cannot
    either, and the [UnicodeEncodeError] of that second print leaves
    [read_text_from_file]. *)
Lemma read_text_from_file_can_raise :
  files sample_world !! py "nope.txt" = None
  ∧ @read_text_from_file ascii_stdout (@sample_runtime ascii_stdout None)
      (py "nope.txt") sample_world
    = (inl (Exn UnicodeEncodeError
              (py "'ascii' codec can't encode characters: ordinal not in range(128)")),
       sample_world).
Proof. by vm_compute. Qed.

(** Each phase can fail, and each failure comes back as [None] when the
    lines are taken. *)
Example read_failures_are_absences :
  let read p :=
    (@read_text_from_file sample_platform (@sample_runtime sample_platform None)
       p sample_world).1 in
  read (py "secret.txt") = inr None ∧ read (py "latin1.txt") = inr None
  ∧ read (py "bad.json") = inr None ∧ read (py "docs.txt") = inr None
  ∧ read (py "notes.txt") = inr (Some (py "hello")).
Proof. vm_compute. done. Qed.

(** C2 (amended): on a path at which nothing exists, neither a file nor a
    directory, whatever its extension, [read_text_from_file] prints the
    not-found line naming the path and returns [None], when standard output
    takes that line; when it does not, the exception of the print goes to
    the outer handler like any other. *)
Theorem read_text_from_file_not_found `{Platform} `{Libraries}
    (file_path : str) (w : world) :
  files w !! file_path = None →
  let line := py "文件不存在: " ++ file_path in
  read_text_from_file file_path w
  = match stdout_refuses line with
    | None => (inr None, World (files w) (stdout w ++ [line]))
    | Some e => read_failed e w
    end.
Proof.
  intros Hnone line.
  assert (read_text_body file_path w = (print line ;; ret None) w) as Hbody.
  { unfold read_text_body, bind, os_path_exists, get_files, ret. simpl.
    by rewrite Hnone. }
  unfold read_text_from_file, try_except. rewrite Hbody, print_then_ret.
  by destruct (stdout_refuses line).
Qed.

Lemma read_text_from_file_not_found_witness :
  files sample_world !! py "nope.xlsx" = None
  ∧ @read_text_from_file sample_platform (@sample_runtime sample_platform None)
      (py "nope.xlsx") sample_world
    = (inr None, World sample_files [py "文件不存在: " ++ py "nope.xlsx"]).
Proof.
  assert (files sample_world !! py "nope.xlsx" = None) as Hnone by (by vm_compute).
  split; [exact Hnone|].
  exact (@read_text_from_file_not_found sample_platform
           (@sample_runtime sample_platform None) (py "nope.xlsx") sample_world Hnone).
Defined.

(** C2 (as stated) fails: [docs.txt] does not resolve to a file, it is a
    directory; the existence check passes, the branch of [.txt] fails to open
    it, and the cause reported is that it is a directory, not that it was
    not found. *)
Lemma directory_is_not_reported_missing :
  files sample_world !! py "docs.txt" = Some (Dir true)
  ∧ @read_text_from_file sample_platform (@sample_runtime sample_platform None)
      (py "docs.txt") sample_world
    = (inr None,
       World sample_files
         [py "读取文件失败: [Errno 21] Is a directory: 'docs.txt'"])
  ∧ py "读取文件失败: [Errno 21] Is a directory: 'docs.txt'"
    ≠ py "文件不存在: " ++ py "docs.txt".
Proof. split; [by vm_compute|]. split; [by vm_compute|]. by vm_compute. Qed.

(** ** Reading an existing file *)

Lemma read_bytes_file (p : str) (w : world) (content : list byte) :
  files w !! p = Some (File content true) → read_bytes p w = (inr content, w).
Proof. intros Hfile. unfold read_bytes, bind, get_files. simpl. by rewrite Hfile. Qed.

Lemma open_r_file (p : str) (w : world) (content : list byte) :
  files w !! p = Some (File content true) → open_r p w = (inr (TextIO content), w).
Proof. intros Hfile. unfold open_r, bind. by rewrite (read_bytes_file _ _ _ Hfile). Qed.

Lemma TextIO_read_text (content : list byte) (text : str) (w : world) :
  Utf8.decode_bytes content = Some text →
  TextIO_read (TextIO content) w = (inr (universal_newlines text), w).
Proof. intros Hdec. unfold TextIO_read. simpl. by rewrite Hdec. Qed.

Lemma TextIO_read_undecodable (content : list byte) (w : world) :
  Utf8.decode_bytes content = None →
  ∃ e, TextIO_read (TextIO content) w = (inl e, w).
Proof. intros Hdec. unfold TextIO_read. simpl. rewrite Hdec. by eexists. Qed.
(** ** The branch of an existing path

    The statements of this section are for a standard output that takes
    every line: each of them follows a branch through a print. *)

Section branch_of_the_extension.
Context `{Platform}.
Hypothesis stdout_open : ∀ line, stdout_refuses line = None.

(** C3 (amended): the branch taken for an existing path is a function of the
    extension as [os.path.splitext] returns it, letter case preserved, through
    the fixed table; an extension is unsupported exactly when the table does
    not list it; and an existing path with an unlisted extension yields
    [None] and the diagnostic citing that extension, whatever the entry
    holds. *)
Theorem format_dispatch_by_extension `{Libraries} (file_path : str) (w : world) :
  is_Some (files w !! file_path) →
  let file_ext := (os_path.splitext file_path).2 in
  read_text_from_file file_path w
  = try_except (decoder (format_class file_ext) file_path file_ext) read_failed w
  ∧ (format_class file_ext = Unsupported ↔ file_ext ∉ MAPPING_TABLE.*1)
  ∧ (file_ext ∉ MAPPING_TABLE.*1 →
     read_text_from_file file_path w
     = (inr None, World (files w) (stdout w ++ [py "不支持的文件格式: " ++ file_ext]))).
Proof.
  intros Hsome file_ext.
  pose proof (read_text_from_file_existing file_path w Hsome) as Hrun.
  simpl in Hrun. fold file_ext in Hrun.
  split; [exact Hrun|]. split; [apply format_class_unsupported|].
  intros Hnot. rewrite Hrun.
  rewrite (proj2 (format_class_unsupported file_ext) Hnot). simpl.
  unfold try_except, unsupported. by rewrite print_then_ret, stdout_open.
Qed.

End branch_of_the_extension.

Lemma format_dispatch_by_extension_witness :
  is_Some (files sample_world !! py "NOTES.TXT")
  ∧ @read_text_from_file sample_platform (@sample_runtime sample_platform None)
      (py "NOTES.TXT") sample_world
    = (inr None, World sample_files [py "不支持的文件格式: " ++ py ".TXT"]).
Proof.
  assert (is_Some (files sample_world !! py "NOTES.TXT")) as Hsome
    by (vm_compute; eauto).
  split; [exact Hsome|].
  destruct (@format_dispatch_by_extension sample_platform (λ _, eq_refl)
              (@sample_runtime sample_platform None)
              (py "NOTES.TXT") sample_world Hsome) as (_ & _ & Hunlisted).
  rewrite Hunlisted; [by vm_compute|].
  vm_compute. intros Hin. repeat (apply elem_of_cons in Hin as [Heq|Hin]; [discriminate Heq|]).
  by apply elem_of_nil in Hin.
Defined.

(** C3 (as stated) fails: [NOTES.TXT] and [notes.txt] hold the same bytes
    and their extensions differ only in letter case, yet the first is
    unsupported and the second is read as plain text. *)
Lemma extension_case_is_not_folded :
  let read p :=
    @read_text_from_file sample_platform (@sample_runtime sample_platform None)
      p sample_world in
  let ext p := (os_path.splitext p).2 in
  lower (ext (py "NOTES.TXT")) = lower (ext (py "notes.txt"))
  ∧ files sample_world !! py "NOTES.TXT" = files sample_world !! py "notes.txt"
  ∧ format_class (ext (py "NOTES.TXT")) = Unsupported
  ∧ format_class (ext (py "notes.txt")) = PlainText
  ∧ read (py "NOTES.TXT")
    = (inr None, World sample_files [py "不支持的文件格式: " ++ py ".TXT"])
  ∧ read (py "notes.txt") = (inr (Some (py "hello")), sample_world).
Proof. by vm_compute. Qed.

(** ** JSON files *)

Lemma escape_dct_plain (c : char) :
  (32 ≤ c)%N → c ≠ DQUOTE → c ≠ 92%N → json.escape_dct c = None.
Proof.
  intros Hge Hq Hb. unfold json.escape_dct, DQUOTE, LF, CR, TAB in *.
  repeat match goal with
         | |- context [(?a =? ?b)%N] => destruct (N.eqb_spec a b); [lia|]
         | |- context [(?a <? ?b)%N] => destruct (N.ltb_spec a b); [lia|]
         end.
  done.
Qed.

Lemma encode_basestring_plain (s : str) :
  Forall (λ c, (32 ≤ c)%N ∧ c ≠ DQUOTE ∧ c ≠ 92%N) s →
  json.encode_basestring s = [DQUOTE] ++ s ++ [DQUOTE].
Proof.
  intros Hs. unfold json.encode_basestring. do 2 f_equal.
  induction Hs as [|c s (? & ? & ?) _ IH]; [done|].
  rewrite fmap_cons. simpl. rewrite escape_dct_plain by done. simpl.
  by rewrite IH.
Qed.

(** *** The recursion limit *)

(** Opening brackets beyond the room that is left: the scanner raises
    before it looks at what follows them. *)
Lemma scan_once_too_deep (room : nat) :
  ∀ (n fuel : nat) (rest : str),
    (room < n)%nat → (2 * room + 1 ≤ fuel)%nat →
    json.scan_once fuel room (replicate n 91%N ++ rest)
    = Some (inl (json.RecursionError_decoding "array")).
Proof.
  induction room as [|room IH]; intros n fuel rest Hn Hfuel.
  - destruct fuel as [|fuel]; [lia|]. destruct n as [|n]; [lia|]. done.
  - destruct fuel as [|[|fuel]]; [lia..|].
    destruct n as [|[|n]]; [lia..|].
    specialize (IH (S n) fuel rest).
    change (replicate (S (S n)) 91%N ++ rest)
      with (91%N :: (replicate (S n) 91%N ++ rest)).
    cbn [json.scan_once]. change (91 =? DQUOTE)%N with false.
    change (91 =? 123)%N with false. change (91 =? 91)%N with true. cbv iota.
    change (json.skip_whitespace (replicate (S n) 91%N ++ rest))
      with (replicate (S n) 91%N ++ rest).
    change (replicate (S n) 91%N ++ rest)
      with (91%N :: (replicate n 91%N ++ rest)) at 1.
    cbv iota. change (91 =? 93)%N with false. cbv iota.
    cbn [json.parse_array]. rewrite IH by lia. done.
Qed.

Lemma loads_too_deep (room n : nat) (rest : str) :
  (room < n)%nat →
  json.loads room (replicate n 91%N ++ rest)
  = inl (json.RecursionError_decoding "array").
Proof.
  intros Hn. destruct n as [|n]; [lia|]. unfold json.loads.
  change (replicate (S n) 91%N ++ rest) with (91%N :: (replicate n 91%N ++ rest)).
  change (startswith (91%N :: _) 65279%N) with false. cbv iota.
  change (json.skip_whitespace (91%N :: (replicate n 91%N ++ rest)))
    with (91%N :: (replicate n 91%N ++ rest)).
  change (91%N :: (replicate n 91%N ++ rest)) with (replicate (S n) 91%N ++ rest).
  rewrite scan_once_too_deep; [done|lia|].
  unfold json.enough. rewrite length_app, length_replicate. lia.
Qed.

Section json_files.
Context `{Platform} `{Libraries}.

Lemma read_json_runs (file_path : str) (w : world) (content : list byte) (text : str) :
  (os_path.splitext file_path).2 = py ".json" →
  files w !! file_path = Some (File content true) →
  Utf8.decode_bytes content = Some text →
  read_text_from_file file_path w
  = match json.loads json_scan_room (universal_newlines text) with
    | inr data =>
        match json.dumps floatstr json_encode_room data (Some 4%nat) false with
        | inr out => (inr (Some out), w)
        | inl e => read_failed e w
        end
    | inl e => read_failed e w
    end.
Proof.
  intros Hext Hfile Hdec.
  rewrite read_text_from_file_existing by eauto. simpl. rewrite Hext.
  change (format_class (py ".json")) with Json. simpl.
  unfold try_except, read_json, json_load, bind.
  rewrite (open_r_file _ _ _ Hfile), (TextIO_read_text _ _ _ Hdec).
  destruct (json.loads _ _) as [e|data]; simpl; [done|].
  by destruct (json.dumps _ _ _ _ _).
Qed.

Lemma read_json_undecodable (file_path : str) (w : world) (content : list byte) :
  (os_path.splitext file_path).2 = py ".json" →
  files w !! file_path = Some (File content true) →
  Utf8.decode_bytes content = None →
  ∃ e, read_text_from_file file_path w = read_failed e w.
Proof.
  intros Hext Hfile Hdec.
  rewrite read_text_from_file_existing by eauto. simpl.
  rewrite Hext. change (format_class (py ".json")) with Json. simpl.
  unfold try_except, read_json, json_load, bind.
  rewrite (open_r_file _ _ _ Hfile).
  destruct (TextIO_read_undecodable content w Hdec) as [e ->]. by exists e.
Qed.

End json_files.
(** C4 (amended): a readable [.json] file whose text parses, within the
    nesting that the recursion limit leaves room for, is returned as
    [json.dumps(value, indent=4, ensure_ascii=False)], which is the indented
    text as long as the value is nested no deeper than the encoder has room
    for.  A text that does not parse, or that opens more arrays than there
    is room for ([RecursionError]), a value too deep for the encoder, and a
    file that does not decode go to the outer handler: [None], once its
    line is printed.  Strings are written with every character outside the
    control range, the quote and the backslash kept as it is (so nothing
    non-ASCII is escaped); and the file holding the seven bytes of the
    example is returned as the three indented lines. *)
Theorem read_json_reserializes `{Platform} `{Libraries}
    (file_path : str) (w : world) (content : list byte) :
  (os_path.splitext file_path).2 = py ".json" →
  files w !! file_path = Some (File content true) →
  (∀ text data out,
      Utf8.decode_bytes content = Some text →
      json.loads json_scan_room (universal_newlines text) = inr data →
      json.dumps floatstr json_encode_room data (Some 4%nat) false = inr out →
      read_text_from_file file_path w = (inr (Some out), w))
  ∧ (∀ data,
      (json.depth data ≤ json_encode_room)%nat →
      json.dumps floatstr json_encode_room data (Some 4%nat) false
      = inr (json.iterencode floatstr (Some 4%nat) false 0 data))
  ∧ (∀ text e,
      Utf8.decode_bytes content = Some text →
      json.loads json_scan_room (universal_newlines text) = inl e
      ∨ (∃ data, json.loads json_scan_room (universal_newlines text) = inr data
                 ∧ json.dumps floatstr json_encode_room data (Some 4%nat) false
                   = inl e) →
      stdout_refuses (py "读取文件失败: " ++ exn_str e) = None →
      read_text_from_file file_path w
      = (inr None, World (files w) (stdout w ++ [py "读取文件失败: " ++ exn_str e])))
  ∧ (∀ (n : nat) (rest : str),
      (json_scan_room < n)%nat →
      json.loads json_scan_room (replicate n 91%N ++ rest)
      = inl (json.RecursionError_decoding "array"))
  ∧ (Utf8.decode_bytes content = None →
      ∃ e, read_text_from_file file_path w = read_failed e w)
  ∧ (∀ s, Forall (λ c, (32 ≤ c)%N ∧ c ≠ DQUOTE ∧ c ≠ 92%N) s →
      json.encoder false s = [DQUOTE] ++ s ++ [DQUOTE])
  ∧ (content = bytes_of "{" ++ dq ++ bytes_of "a" ++ dq ++ bytes_of ":1}" →
      (1 ≤ json_scan_room)%nat → (1 ≤ json_encode_room)%nat →
      read_text_from_file file_path w
      = (inr (Some (py "{" ++ [LF] ++
                    py "    " ++ [DQUOTE] ++ py "a" ++ [DQUOTE] ++ py ": 1" ++ [LF] ++
                    py "}")), w)).
Proof.
  intros Hext Hfile. repeat split.
  - intros text data out Hdec Hload Hdump.
    by rewrite (read_json_runs _ _ _ _ Hext Hfile Hdec), Hload, Hdump.
  - intros data Hdepth. unfold json.dumps.
    destruct (Nat.ltb_spec json_encode_room (json.depth data)); [lia|done].
  - intros text e Hdec Hfail Hline.
    rewrite (read_json_runs _ _ _ _ Hext Hfile Hdec).
    destruct Hfail as [->|(data & -> & ->)]; by rewrite read_failed_run, Hline.
  - intros n rest Hn. by apply loads_too_deep.
  - intros Hdec. by apply (read_json_undecodable _ _ content).
  - intros s Hs. by apply encode_basestring_plain.
  - intros -> Hscan Hencode.
    rewrite (read_json_runs _ _ _ (py "{" ++ [DQUOTE] ++ py "a" ++ [DQUOTE] ++ py ":1}")
               Hext Hfile) by (by vm_compute).
    destruct json_scan_room as [|room]; [lia|].
    assert (json.loads (S room)
              (universal_newlines (py "{" ++ [DQUOTE] ++ py "a" ++ [DQUOTE] ++ py ":1}"))
            = inr (json.JDict [(py "a", json.JInt 1)])) as -> by (by vm_compute).
    unfold json.dumps. change (json.depth _) with 1%nat.
    destruct (Nat.ltb_spec json_encode_room 1); [lia|]. by vm_compute.
Qed.

Lemma read_json_reserializes_witness :
  @read_text_from_file sample_platform (@sample_runtime sample_platform None)
    (py "a.json") sample_world
  = (inr (Some (py "{" ++ [LF] ++
                py "    " ++ [DQUOTE] ++ py "a" ++ [DQUOTE] ++ py ": 1" ++ [LF] ++
                py "}")), sample_world).
Proof.
  refine (proj2 (proj2 (proj2 (proj2 (proj2 (proj2
    (@read_json_reserializes sample_platform (@sample_runtime sample_platform None)
       (py "a.json") sample_world
       (bytes_of "{" ++ dq ++ bytes_of "a" ++ dq ++ bytes_of ":1}") _ _)))))) _ _ _);
    try (by vm_compute); simpl; lia.
Defined.

(** C4 (as stated) fails: a thousand arrays, one inside the other, are a
    JSON value, but the scanner of an interpreter with the default recursion
    limit gives up on the way in; the file comes back as [None]. *)
Lemma deep_json_is_absent :
  let text := replicate 1000 91%N ++ replicate 1000 93%N in
  let w := World (<[py "deep.json" := File (deep_json 1000) true]> sample_files) [] in
  Utf8.decode_bytes (deep_json 1000) = Some text
  ∧ json.loads 1000 text = inr (nested_arrays 1000)
  ∧ @read_text_from_file sample_platform (@sample_runtime sample_platform None)
      (py "deep.json") w
    = (inr None,
       World (files w)
         [py "读取文件失败: maximum recursion depth exceeded while decoding a JSON array from a unicode string"]).
Proof. split; [by vm_compute|]. split; by vm_compute. Qed.
(** ** The scanner never runs out of calls *)

Lemma skip_whitespace_length (s : str) :
  (length (json.skip_whitespace s) ≤ length s)%nat.
Proof.
  induction s as [|c r IH]; simpl; [done|].
  destruct (json.is_whitespace c); simpl; lia.
Qed.

Lemma span_digits_length (s : str) :
  (length (json.span_digits s).2 ≤ length s)%nat.
Proof.
  induction s as [|c r IH]; simpl; [done|].
  destruct (json.is_digit c); [|simpl; lia].
  destruct (json.span_digits r); simpl in *; lia.
Qed.

Lemma span_digits_digit (c : char) (r : str) :
  json.is_digit c = true →
  (length (json.span_digits (c :: r)).2 ≤ length r)%nat.
Proof.
  intros Hc. simpl. rewrite Hc. pose proof (span_digits_length r) as Hr.
  by destruct (json.span_digits r).
Qed.

Lemma strip_literal_length (prefix s rest : str) :
  json.strip_literal prefix s = Some rest →
  (length rest + length prefix = length s)%nat.
Proof.
  revert s. induction prefix as [|p prefix IH]; intros s; simpl.
  - intros [= ->]. lia.
  - destruct s as [|c r]; [done|]. destruct (p =? c)%N; [|done].
    intros Hr%IH. simpl. lia.
Qed.

Lemma literal_length (name : string) (v : json.value) (s : str)
    (found : json.value * str) :
  json.literal name v s = Some found →
  (length found.2 + length (py name) = length s)%nat.
Proof.
  unfold json.literal.
  destruct (json.strip_literal (py name) s) as [rest|] eqn:Hrest; [|done].
  intros [= <-]. by apply strip_literal_length.
Qed.

Lemma literal_shorter (name : string) (v : json.value) (s : str)
    (found : json.value * str) :
  json.literal name v s = Some found →
  (0 <? length (py name))%nat = true →
  (length found.2 < length s)%nat.
Proof. intros Hfound%literal_length Hname%Nat.ltb_lt. lia. Qed.

Lemma match_number_length (s : str) (v : json.value) (rest : str) :
  json.match_number s = inr (v, rest) → (length rest < length s)%nat.
Proof.
  unfold json.match_number.
  assert (∀ (negative : bool) (s1 : str),
            (length s1 ≤ length s)%nat →
            match s1 with
            | [] => True
            | c :: r =>
                json.is_digit c = true →
                ∀ int_digits s2 frac s3 exponent s4,
                  (if (c =? 48)%N then ([c], r) else json.span_digits s1)
                  = (int_digits, s2) →
                  match s2 with
                  | p :: d :: _ =>
                      if (p =? DOT)%N && json.is_digit d
                      then let '(ds, rest) := json.span_digits (drop 1 s2) in
                           (p :: ds, rest)
                      else ([], s2)
                  | _ => ([], s2)
                  end = (frac, s3) →
                  match s3 with
                  | e :: r3 =>
                      if (e =? 101)%N || (e =? 69)%N then
                        let '(esign, r4) :=
                          match r3 with
                          | g :: r' =>
                              if (g =? 45)%N || (g =? 43)%N then ([g], r')
                              else ([], r3)
                          | [] => ([], r3)
                          end in
                        let '(ds, rest) := json.span_digits r4 in
                        match ds with
                        | [] => ([], s3)
                        | _ => (e :: esign ++ ds, rest)
                        end
                      else ([], s3)
                  | [] => ([], s3)
                  end = (exponent, s4) →
                  (length s4 < length s)%nat
            end) as Htail.
  { intros negative [|c r] Hs1; [done|]. intros Hc int_digits s2 frac s3 exponent s4.
    intros H2 H3 H4. simpl in Hs1.
    assert (length s2 ≤ length r)%nat as Hs2.
    { destruct (c =? 48)%N; [by injection H2 as <- <-|].
      pose proof (span_digits_digit c r Hc) as Hr. by rewrite H2 in Hr. }
    assert (length s3 ≤ length s2)%nat as Hs3.
    { revert H3. destruct s2 as [|p [|d t]]; try (by intros [= <- <-]).
      destruct (_ && _); [|by intros [= <- <-]].
      pose proof (span_digits_length (drop 1 (p :: d :: t))) as Hr.
      destruct (json.span_digits (drop 1 (p :: d :: t))) as [ds rest0].
      intros [= <- <-]. simpl in *. lia. }
    assert (length s4 ≤ length s3)%nat as Hs4.
    { revert H4. destruct s3 as [|e r3]; [by intros [= <- <-]|].
      destruct (_ || _); [|by intros [= <- <-]].
      assert (length (match r3 with
                      | g :: r' =>
                          if (g =? 45)%N || (g =? 43)%N then ([g], r') else ([], r3)
                      | [] => ([], r3)
                      end).2 ≤ length r3)%nat as Hsign.
      { destruct r3 as [|g r']; [done|]. destruct (_ || _); simpl; lia. }
      destruct (match r3 with [] => _ | _ => _ end) as [esign r4].
      simpl in Hsign.
      pose proof (span_digits_length r4) as Hr.
      destruct (json.span_digits r4) as [[|d ds] rest0]; cbv iota beta;
        intros [= <- <-]; simpl in *; lia. }
    lia. }
  destruct s as [|c0 r0]; [done|].
  destruct (c0 =? 45)%N.
  - destruct r0 as [|c r]; [done|].
    destruct (json.is_digit c) eqn:Hc; [|done]. simpl negb. cbv iota.
    destruct (if (c =? 48)%N then _ else _) as [int_digits s2] eqn:H2.
    destruct (match s2 with [] => _ | _ => _ end) as [frac s3] eqn:H3.
    destruct (match s3 with [] => _ | _ => _ end) as [exponent s4] eqn:H4.
    pose proof (Htail true (c :: r) ltac:(simpl; lia) Hc _ _ _ _ _ _ H2 H3 H4).
    destruct frac, exponent; try (by intros [= <- <-]).
    destruct (json.parse_int _ _); [done|]. by intros [= <- <-].
  - cbv iota beta.
    destruct (json.is_digit c0) eqn:Hc; [|done]. simpl negb. cbv iota.
    destruct (if (c0 =? 48)%N then _ else _) as [int_digits s2] eqn:H2.
    destruct (match s2 with [] => _ | _ => _ end) as [frac s3] eqn:H3.
    destruct (match s3 with [] => _ | _ => _ end) as [exponent s4] eqn:H4.
    pose proof (Htail false (c0 :: r0) ltac:(simpl; lia) Hc _ _ _ _ _ _ H2 H3 H4).
    destruct frac, exponent; try (by intros [= <- <-]).
    destruct (json.parse_int _ _); [done|]. by intros [= <- <-].
Qed.

Lemma scanstring_length :
  ∀ (n : nat) (s x rest : str),
    (length s ≤ n)%nat →
    json.scanstring s = inr (x, rest) → (length rest < length s)%nat.
Proof.
  induction n as [|n IH]; intros s x rest Hn.
  { destruct s; [done|simpl in Hn; lia]. }
  assert (∀ (t : str) (f : str → str),
            (length t < length s)%nat →
            (json.scanstring t ≫= λ '(y, rest'), inr (f y, rest')) = inr (x, rest) →
            (length rest < length s)%nat) as Hrec.
  { intros t f Ht. destruct (json.scanstring t) as [e|[y rest']] eqn:Hs; [done|].
    intros [= <- <-]. apply IH in Hs; lia. }
  destruct s as [|c r]; [done|]. simpl in Hn. cbn [json.scanstring].
  destruct (c =? DQUOTE)%N; [intros [= <- <-]; simpl; lia|].
  destruct (c =? 92)%N.
  - destruct r as [|e r1]; [done|].
    destruct (e =? 117)%N.
    + destruct r1 as [|h1 [|h2 [|h3 [|h4 r2]]]]; try done.
      destruct (json.hex4 h1 h2 h3 h4) as [u|]; [|done]. cbv zeta.
      assert ((json.scanstring r2 ≫= λ '(y, rest'), inr (u :: y, rest'))
              = inr (x, rest) → (length rest < length (c :: e :: h1 :: h2 :: h3 :: h4 :: r2))%nat)
        as Hsingle.
      { apply (Hrec r2 (cons u)). simpl. lia. }
      destruct r2 as [|b [|v [|g1 [|g2 [|g3 [|g4 r3]]]]]]; try exact Hsingle.
      destruct (_ && _); [|exact Hsingle].
      destruct (json.hex4 g1 g2 g3 g4) as [u2|]; [|done].
      destruct (json.is_low_surrogate u2); [|exact Hsingle].
      apply (Hrec r3 (cons (json.join_surrogates u u2))). simpl. lia.
    + destruct (json.unescape e) as [y|]; [|done].
      apply (Hrec r1 (cons y)). simpl. lia.
  - destruct (c <=? 31)%N; [done|]. apply (Hrec r (cons c)). simpl. lia.
Qed.

(** With [2 * length s + 1] calls for a value and one more for the rest of
    an array or an object, no call finds [n] at zero; and what is left of
    the text after a value is shorter than the text. *)
Lemma scanner_calls (n : nat) :
  (∀ room s, (2 * length s + 1 ≤ n)%nat →
     ∃ r, json.scan_once n room s = Some r
          ∧ ∀ v rest, r = inr (v, rest) → (length rest < length s)%nat)
  ∧ (∀ room s acc, (2 * length s + 2 ≤ n)%nat →
     ∃ r, json.parse_array n room s acc = Some r
          ∧ ∀ v rest, r = inr (v, rest) → (length rest < length s)%nat)
  ∧ (∀ room s acc, (2 * length s + 2 ≤ n)%nat →
     ∃ r, json.parse_object n room s acc = Some r
          ∧ ∀ v rest, r = inr (v, rest) → (length rest < length s)%nat).
Proof.
  induction n as [|n (IHscan & IHarr & IHobj)].
  { split; [|split]; intros; lia. }
  split; [|split].
  - intros room [|c r] Hn; cbn [json.scan_once].
    { eexists. split; [done|]. by intros. }
    simpl in Hn. pose proof (skip_whitespace_length r) as Hws.
    destruct (c =? DQUOTE)%N.
    { eexists. split; [done|]. intros v rest.
      destruct (json.scanstring r) as [e|[x rest']] eqn:Hs; [done|].
      intros [= <- <-]. apply (scanstring_length _ _ _ _ (le_n _)) in Hs.
      simpl. lia. }
    destruct (c =? 123)%N.
    { destruct room as [|room']; [eexists; split; [done|]; by intros|].
      destruct (json.skip_whitespace r) as [|c2 r2].
      - destruct (IHobj room' [] []) as (res & -> & Hres); [simpl; lia|].
        eexists. split; [done|]. intros v rest Hv%Hres. simpl in Hv. lia.
      - destruct (c2 =? 125)%N.
        + eexists. split; [done|]. intros v rest [= <- <-]. simpl in *. lia.
        + destruct (IHobj room' (c2 :: r2) []) as (res & -> & Hres);
            [simpl in *; lia|].
          eexists. split; [done|]. intros v rest Hv%Hres. simpl in *. lia. }
    destruct (c =? 91)%N.
    { destruct room as [|room']; [eexists; split; [done|]; by intros|].
      destruct (json.skip_whitespace r) as [|c2 r2].
      - destruct (IHarr room' [] []) as (res & -> & Hres); [simpl; lia|].
        eexists. split; [done|]. intros v rest Hv%Hres. simpl in Hv. lia.
      - destruct (c2 =? 93)%N.
        + eexists. split; [done|]. intros v rest [= <- <-]. simpl in *. lia.
        + destruct (IHarr room' (c2 :: r2) []) as (res & -> & Hres);
            [simpl in *; lia|].
          eexists. split; [done|]. intros v rest Hv%Hres. simpl in *. lia. }
    cbv zeta.
    destruct (if (c =? 110)%N then _ else _) as [found|] eqn:Hnamed.
    + eexists. split; [done|]. intros v rest [= ->].
      repeat match type of Hnamed with
             | (if ?b then _ else _) = _ => destruct b
             end;
        try discriminate Hnamed;
        (apply literal_shorter in Hnamed; [|by vm_compute]); simpl in *; lia.
    + eexists. split; [done|]. by intros v rest Hv%match_number_length.
  - intros room s acc Hn. cbn [json.parse_array].
    destruct (IHscan room s) as (res & -> & Hres); [lia|].
    destruct res as [e|[v rest]]; [eexists; split; [done|]; by intros|].
    pose proof (Hres v rest eq_refl) as Hrest.
    pose proof (skip_whitespace_length rest) as Hws.
    destruct (json.skip_whitespace rest) as [|c r];
      [eexists; split; [done|]; by intros|].
    destruct (c =? 93)%N.
    { eexists. split; [done|]. intros v' rest' [= <- <-]. simpl in *. lia. }
    destruct (c =? COMMA)%N; [|eexists; split; [done|]; by intros].
    pose proof (skip_whitespace_length r) as Hws'.
    destruct (IHarr room (json.skip_whitespace r) (acc ++ [v]))
      as (res & -> & Hres'); [simpl in *; lia|].
    eexists. split; [done|]. intros v' rest' Hv%Hres'. simpl in *. lia.
  - intros room s acc Hn. cbn [json.parse_object].
    destruct s as [|q r]; [eexists; split; [done|]; by intros|].
    simpl in Hn.
    destruct (negb (q =? DQUOTE)%N); [eexists; split; [done|]; by intros|].
    destruct (json.scanstring r) as [e|[key rest]] eqn:Hkey;
      [eexists; split; [done|]; by intros|].
    apply (scanstring_length _ _ _ _ (le_n _)) in Hkey.
    pose proof (skip_whitespace_length rest) as Hws.
    destruct (json.skip_whitespace rest) as [|colon r1];
      [eexists; split; [done|]; by intros|].
    destruct (negb (colon =? 58)%N); [eexists; split; [done|]; by intros|].
    pose proof (skip_whitespace_length r1) as Hws1.
    destruct (IHscan room (json.skip_whitespace r1)) as (res & -> & Hres);
      [simpl in *; lia|].
    destruct res as [e|[v rest1]]; [eexists; split; [done|]; by intros|].
    pose proof (Hres v rest1 eq_refl) as Hrest1.
    pose proof (skip_whitespace_length rest1) as Hws2.
    destruct (json.skip_whitespace rest1) as [|c r2];
      [eexists; split; [done|]; by intros|].
    destruct (c =? 125)%N.
    { eexists. split; [done|]. intros v' rest' [= <- <-]. simpl in *. lia. }
    destruct (c =? COMMA)%N; [|eexists; split; [done|]; by intros].
    pose proof (skip_whitespace_length r2) as Hws3.
    destruct (IHobj room (json.skip_whitespace r2) (json.dict_set key v acc))
      as (res & -> & Hres'); [simpl in *; lia|].
    eexists. split; [done|]. intros v' rest' Hv%Hres'. simpl in *. lia.
Qed.

(** [json.loads] gives the scanner calls enough: the scan comes to a
    result. *)
Lemma scan_once_enough (room : nat) (s : str) :
  is_Some (json.scan_once (json.enough s) room (json.skip_whitespace s)).
Proof.
  pose proof (skip_whitespace_length s) as Hws.
  destruct (proj1 (scanner_calls (json.enough s)) room (json.skip_whitespace s))
    as (res & -> & _); [unfold json.enough; lia|].
  by eexists.
Qed.
(** ** Delimited tables *)

Section delimited_files.
Context `{Platform} `{Libraries}.

Lemma read_delimited_runs (file_path : str) (w : world) (content : list byte) (text : str) :
  (os_path.splitext file_path).2 ∈ [py ".csv"; py ".tsv"] →
  files w !! file_path = Some (File content true) →
  Utf8.decode_bytes content = Some text →
  read_text_from_file file_path w
  = match rejoin (delimiter_of (os_path.splitext file_path).2)
            (splitlines_keepends [] (universal_newlines text)) with
    | inr out => (inr (Some out), w)
    | inl e => read_failed e w
    end.
Proof.
  intros Hext Hfile Hdec.
  rewrite read_text_from_file_existing by eauto. simpl.
  assert (format_class (os_path.splitext file_path).2 = DelimitedTable) as ->.
  { apply elem_of_cons in Hext as [->|Hext]; [done|].
    apply elem_of_cons in Hext as [->|Hext]; [done|].
    by apply elem_of_nil in Hext. }
  simpl. unfold try_except, read_delimited, TextIO_lines, bind.
  rewrite (open_r_file _ _ _ Hfile), (TextIO_read_text _ _ _ Hdec). simpl.
  by destruct (rejoin _ _).
Qed.

End delimited_files.

(** *** The field size limit *)

Lemma delimiter_of_cases (file_ext : str) :
  delimiter_of file_ext = COMMA ∨ delimiter_of file_ext = TAB.
Proof. unfold delimiter_of. case_bool_decide; [by left|by right]. Qed.

(** A run of the letter [a] that goes on a field: the reader gives up at the
    character that would make the field longer than the limit. *)
Lemma parse_line_wide (d : char) (m : nat) :
  d = COMMA ∨ d = TAB →
  ∀ self : csv.ReaderObj,
    csv.state self = csv.IN_FIELD →
    (N.of_nat (length (csv.field self)) ≤ csv.field_limit)%N →
    (csv.field_limit < N.of_nat (length (csv.field self) + m))%N →
    csv.parse_line (csv.excel d) self (replicate m 97%N)
    = inl (csv.Error "field larger than field limit (131072)").
Proof.
  intros Hd. induction m as [|m IH]; intros self Hstate Hle Hlen; [lia|].
  simpl. unfold csv.parse_process_char. rewrite Hstate.
  change (csv.is_newline 97) with false. cbv iota.
  assert ((97 =? csv.delimiter (csv.excel d))%N = false) as ->
    by (by destruct Hd as [-> | ->]).
  unfold csv.parse_add_char.
  destruct (N.leb_spec csv.field_limit (N.of_nat (length (csv.field self))))
    as [Hfull|Hroom]; [done|].
  apply IH; simpl; [done|..]; rewrite length_app; simpl; lia.
Qed.

Lemma reader_wide (d : char) (n : nat) :
  d = COMMA ∨ d = TAB →
  (csv.field_limit < N.of_nat n)%N →
  csv.reader d [replicate n 97%N]
  = inl (csv.Error "field larger than field limit (131072)").
Proof.
  intros Hd Hn. destruct n as [|n]; [done|].
  unfold csv.reader. cbn [csv.rows replicate csv.parse_line].
  unfold csv.parse_process_char at 1. cbn [csv.state csv.parse_reset].
  change (csv.is_newline 97) with false. cbv iota.
  unfold csv.start_field. change (csv.is_newline 97) with false. cbv iota.
  assert ((97 =? csv.delimiter (csv.excel d))%N = false) as ->
    by (by destruct Hd as [-> | ->]).
  change (97 =? csv.quotechar (csv.excel d))%N with false.
  change ((97 =? SPACE)%N && csv.skipinitialspace (csv.excel d)) with false.
  cbv iota. unfold csv.parse_add_char at 1. simpl.
  rewrite parse_line_wide; [done|done|done|..]; simpl; unfold csv.field_limit in *; lia.
Qed.

Lemma decode_bytes_letters (n : nat) :
  Utf8.decode_bytes (replicate n "a"%byte) = Some (replicate n 97%N).
Proof.
  unfold Utf8.decode_bytes. induction n as [|n IH]; [done|].
  simpl replicate. rewrite fmap_cons. change (Byte.to_N "a") with 97%N.
  cbn [Utf8.decode]. change (97 <? 128)%N with true. cbv iota. by rewrite IH.
Qed.

Lemma universal_newlines_letters (n : nat) :
  universal_newlines (replicate n 97%N) = replicate n 97%N.
Proof. induction n as [|n IH]; [done|]. simpl. by rewrite IH. Qed.

Lemma splitlines_letters (n : nat) (cur : str) :
  splitlines_keepends cur (replicate (S n) 97%N) = [cur ++ replicate (S n) 97%N].
Proof.
  revert cur. induction n as [|n IH]; intros cur; [by destruct cur|].
  change (replicate (S (S n)) 97%N) with (97%N :: replicate (S n) 97%N).
  cbn [splitlines_keepends]. change (97 =? LF)%N with false. cbv iota.
  rewrite IH. by rewrite <- app_assoc.
Qed.

(** C5 (amended): a readable [.csv] (comma) or [.tsv] (tab) file of UTF-8
    text that the reader parses into rows is returned as those rows, the
    fields of a row joined by the delimiter and the rows by line feeds; a
    text that the reader rejects, as it does a field longer than its limit
    of 131072 characters, goes to the outer handler and comes back as [None]
    once the line is printed.  The file [1,2\n3,4] is read as the rows
    [1; 2] and [3; 4] and returned as [1,2\n3,4]; a quoted field keeps its
    delimiter. *)
Theorem read_delimited_rejoins `{Platform} `{Libraries}
    (file_path : str) (w : world) (content : list byte) (text : str) :
  (os_path.splitext file_path).2 ∈ [py ".csv"; py ".tsv"] →
  files w !! file_path = Some (File content true) →
  Utf8.decode_bytes content = Some text →
  let file_ext := (os_path.splitext file_path).2 in
  let lines := splitlines_keepends [] (universal_newlines text) in
  (delimiter_of (py ".csv") = COMMA ∧ delimiter_of (py ".tsv") = TAB)
  ∧ (∀ rows,
      csv.reader (delimiter_of file_ext) lines = inr rows →
      read_text_from_file file_path w
      = (inr (Some (str_join [LF] (map (str_join [delimiter_of file_ext]) rows))), w))
  ∧ (∀ e,
      csv.reader (delimiter_of file_ext) lines = inl e →
      stdout_refuses (py "读取文件失败: " ++ exn_str e) = None →
      read_text_from_file file_path w
      = (inr None, World (files w) (stdout w ++ [py "读取文件失败: " ++ exn_str e])))
  ∧ (∀ n : nat,
      (csv.field_limit < N.of_nat n)%N → text = replicate n 97%N →
      csv.reader (delimiter_of file_ext) lines
      = inl (csv.Error "field larger than field limit (131072)"))
  ∧ (file_ext = py ".csv" →
     content = bytes_of "1,2" ++ lf ++ bytes_of "3,4" →
     csv.reader COMMA lines = inr [[py "1"; py "2"]; [py "3"; py "4"]]
     ∧ read_text_from_file file_path w
       = (inr (Some (py "1,2" ++ [LF] ++ py "3,4")), w))
  ∧ (file_ext = py ".csv" →
     content = dq ++ bytes_of "x,y" ++ dq ++ bytes_of ",z" →
     csv.reader COMMA lines = inr [[py "x,y"; py "z"]]
     ∧ read_text_from_file file_path w = (inr (Some (py "x,y,z")), w)).
Proof.
  intros Hext Hfile Hdec file_ext lines.
  pose proof (read_delimited_runs _ _ _ _ Hext Hfile Hdec) as Hrun.
  fold file_ext lines in Hrun. unfold rejoin in Hrun.
  split; [by vm_compute|]. split; [|split; [|split; [|split]]].
  - intros rows Hrows. rewrite Hrun, Hrows. done.
  - intros e He Hline. rewrite Hrun, He. simpl. by rewrite read_failed_run, Hline.
  - intros n Hn ->. subst lines. rewrite universal_newlines_letters.
    destruct n as [|n]; [done|]. rewrite splitlines_letters, app_nil_l.
    apply reader_wide; [apply delimiter_of_cases|done].
  - intros Hcsv ->. rewrite Hrun, Hcsv. subst lines.
    assert (text = py "1,2" ++ [LF] ++ py "3,4") as ->
      by (vm_compute in Hdec; injection Hdec as <-; by vm_compute).
    by vm_compute.
  - intros Hcsv ->. rewrite Hrun, Hcsv. subst lines.
    assert (text = [DQUOTE] ++ py "x,y" ++ [DQUOTE] ++ py ",z") as ->
      by (vm_compute in Hdec; injection Hdec as <-; by vm_compute).
    by vm_compute.
Qed.

Lemma read_delimited_rejoins_witness :
  @read_text_from_file sample_platform (@sample_runtime sample_platform None)
    (py "a.csv") sample_world
  = (inr (Some (py "1,2" ++ [LF] ++ py "3,4")), sample_world).
Proof.
  assert ((os_path.splitext (py "a.csv")).2 ∈ [py ".csv"; py ".tsv"]) as Hext
    by (vm_compute; constructor).
  refine (proj2 (proj1 (proj2 (proj2 (proj2 (proj2
    (@read_delimited_rejoins sample_platform (@sample_runtime sample_platform None)
       (py "a.csv") sample_world
       (bytes_of "1,2" ++ lf ++ bytes_of "3,4") (py "1,2" ++ [LF] ++ py "3,4")
       Hext _ _))))) _ _)); by vm_compute.
Defined.

(** C5 (as stated) fails: a [.csv] file of one field of 131073 letters is
    well formed, yet the reader refuses the field and the file comes back as
    [None]. *)
Lemma wide_field_is_absent :
  let w := World (<[py "wide.csv" := File (wide_field 131073) true]> sample_files) [] in
  Utf8.decode_bytes (wide_field 131073) = Some (replicate (N.to_nat 131073) 97%N)
  ∧ @read_text_from_file sample_platform (@sample_runtime sample_platform None)
      (py "wide.csv") w
    = (inr None,
       World (files w) [py "读取文件失败: field larger than field limit (131072)"]).
Proof.
  intros w. split; [apply decode_bytes_letters|].
  assert ((os_path.splitext (py "wide.csv")).2 ∈ [py ".csv"; py ".tsv"]) as Hext
    by (vm_compute; constructor).
  rewrite (@read_delimited_runs sample_platform (@sample_runtime sample_platform None)
             (py "wide.csv") w (wide_field 131073) (replicate (N.to_nat 131073) 97%N)
             Hext);
    [|apply lookup_insert_eq|apply decode_bytes_letters].
  rewrite universal_newlines_letters.
  destruct (N.to_nat 131073) as [|n] eqn:Hn; [lia|].
  rewrite splitlines_letters, app_nil_l. unfold rejoin.
  rewrite reader_wide; [done|apply delimiter_of_cases|].
  rewrite <- Hn. unfold csv.field_limit. lia.
Qed.
(** ** YAML files

    The statements of this section are for a standard output that takes
    every line. *)

Section yaml_files.
Context `{Platform}.
Hypothesis stdout_open : ∀ line, stdout_refuses line = None.

Lemma read_yaml_returns `{Libraries} (file_path : str) : returns (read_yaml file_path).
Proof.
  apply try_except_returns. intros e.
  destruct (is_ImportError e); apply print_then_ret_returns, stdout_open.
Qed.

Lemma read_yaml_runs `{Libraries} (file_path : str) (w : world) :
  (os_path.splitext file_path).2 ∈ [py ".yaml"; py ".yml"] →
  is_Some (files w !! file_path) →
  read_text_from_file file_path w = read_yaml file_path w.
Proof.
  intros Hext Hsome.
  rewrite read_text_from_file_existing by done. simpl.
  assert (format_class (os_path.splitext file_path).2 = Yaml) as ->.
  { apply elem_of_cons in Hext as [->|Hext]; [done|].
    apply elem_of_cons in Hext as [->|Hext]; [done|].
    by apply elem_of_nil in Hext. }
  simpl. unfold try_except at 1.
  by destruct (read_yaml_returns file_path w) as (r & w' & ->).
Qed.

(** C7: for an existing [.yaml] or [.yml] path, when PyYAML cannot be
    imported the reader returns [None] and prints the line that names the
    library and how to install it; when it can, a readable file is parsed
    with [yaml.safe_load] and returned as
    [yaml.dump(data, default_flow_style=False, allow_unicode=True)], and a
    failure of the parser gives [None]. *)
Theorem read_yaml_capability `{Libraries} (file_path : str) (w : world) :
  (os_path.splitext file_path).2 ∈ [py ".yaml"; py ".yml"] →
  is_Some (files w !! file_path) →
  (yaml = None →
   read_text_from_file file_path w
   = (inr None,
      World (files w)
        (stdout w ++ [py "请安装 PyYAML 库以支持 YAML 文件: pip install pyyaml"])))
  ∧ (∀ Y content text,
      yaml = Some Y →
      files w !! file_path = Some (File content true) →
      Utf8.decode_bytes content = Some text →
      match yaml_safe_load Y (universal_newlines text) with
      | inr data =>
          match yaml_dump Y data false true with
          | inr out => read_text_from_file file_path w = (inr (Some out), w)
          | inl _ => (read_text_from_file file_path w).1 = inr None
          end
      | inl _ => (read_text_from_file file_path w).1 = inr None
      end).
Proof.
  intros Hext Hsome. rewrite (read_yaml_runs _ _ Hext Hsome). split.
  - intros Hnone. unfold read_yaml, try_except, import_yaml, bind at 1.
    rewrite Hnone. simpl. by rewrite print_then_ret, stdout_open.
  - intros Y content text HY Hfile Hdec.
    unfold read_yaml, try_except, import_yaml, bind. rewrite HY. simpl.
    rewrite (open_r_file _ _ _ Hfile), (TextIO_read_text _ _ _ Hdec).
    destruct (yaml_safe_load Y _) as [e|data]; simpl.
    + destruct (is_ImportError e); unfold print; by rewrite stdout_open.
    + destruct (yaml_dump Y data false true) as [e|out]; simpl; [|done].
      destruct (is_ImportError e); unfold print; by rewrite stdout_open.
Qed.

End yaml_files.

Lemma read_yaml_capability_witness :
  @read_text_from_file sample_platform (@sample_runtime sample_platform None)
    (py "c.yaml") sample_world
  = (inr None,
     World sample_files [py "请安装 PyYAML 库以支持 YAML 文件: pip install pyyaml"])
  ∧ @read_text_from_file sample_platform (@sample_runtime sample_platform (Some echo_yaml))
      (py "c.yaml") sample_world
    = (inr (Some (py "a: 1")), sample_world).
Proof.
  assert ((os_path.splitext (py "c.yaml")).2 ∈ [py ".yaml"; py ".yml"]) as Hext
    by (vm_compute; constructor).
  assert (is_Some (files sample_world !! py "c.yaml")) as Hsome
    by (vm_compute; eauto).
  split.
  - by apply (proj1 (@read_yaml_capability sample_platform (λ _, eq_refl)
                       (@sample_runtime sample_platform None)
                       (py "c.yaml") sample_world Hext Hsome)).
  - apply (proj2 (@read_yaml_capability sample_platform (λ _, eq_refl)
                    (@sample_runtime sample_platform (Some echo_yaml))
                    (py "c.yaml") sample_world Hext Hsome)
             echo_yaml (bytes_of "a: 1") (py "a: 1")); by vm_compute.
Defined.

(** ** Delete and restore *)

Section delete_and_restore.
Context `{Platform}.

(** What [os.unlink] comes to. *)
Lemma os_unlink_run (p : str) (w : world) :
  os_unlink p w
  = match change_refused p with
    | Some e => (inl e, w)
    | None =>
        match files w !! p with
        | None => (inl (ENOENT p), w)
        | Some (Dir _) => (inl (EISDIR p), w)
        | Some (File _ _) =>
            match files w !! parent p with
            | Some (Dir true) => (inr tt, World (delete p (files w)) (stdout w))
            | Some (Dir false) => (inl (EACCES p), w)
            | Some (File _ _) => (inl (ENOTDIR p), w)
            | None => (inl (ENOENT p), w)
            end
        end
    end.
Proof.
  unfold os_unlink, check_change, check_parent, bind, get_files, put_files,
    ret, raise.
  destruct (change_refused p); [done|]. simpl.
  destruct (files w !! p) as [[c r|d]|]; simpl; try done.
  by destruct (files w !! parent p) as [[c' r'|[]]|].
Qed.

(** What [Path.touch] comes to, for the spelling [pathlib] gives the
    path. *)
Lemma Path_touch_run (file_path : str) (w : world) :
  let p := pathlib.Path file_path in
  Path_touch file_path w
  = match change_refused p with
    | Some e => (inl e, w)
    | None =>
        match files w !! p with
        | Some _ => (inr tt, w)
        | None =>
            match files w !! parent p with
            | Some (Dir true) =>
                (inr tt, World (<[p := File [] true]> (files w)) (stdout w))
            | Some (Dir false) => (inl (EACCES p), w)
            | Some (File _ _) => (inl (ENOTDIR p), w)
            | None => (inl (ENOENT p), w)
            end
        end
    end.
Proof.
  intros p.
  unfold Path_touch, try_except, os_utime, os_open_creat, check_change,
    check_parent, bind, get_files, put_files, ret, raise. fold p.
  destruct (change_refused p) as [e|] eqn:Hchange; simpl.
  - by destruct (is_OSError e).
  - destruct (files w !! p) as [n|] eqn:Hp; simpl; [done|].
    rewrite ?Hp. by destruct (files w !! parent p) as [[c' r'|[]]|].
Qed.

(** A handler that prints and returns [False] never returns [True], and
    leaves the file system alone. *)
Lemma failure_line_run (line : str) (w : world) (flag : bool) (w' : world) :
  (print line ;; ret false) w = (inr flag, w') →
  flag = false ∧ w' = World (files w) (stdout w ++ [line]).
Proof.
  rewrite print_then_ret. destruct (stdout_refuses line); [done|].
  by intros [= <- <-].
Qed.

Lemma failure_line_raises (line : str) (w : world) (e : exn) (w' : world) :
  (print line ;; ret false) w = (inl e, w') →
  w' = w ∧ stdout_refuses line = Some e.
Proof.
  rewrite print_then_ret. destruct (stdout_refuses line); [|done].
  by intros [= <- <-].
Qed.

Lemma delete_file_same (file_path : str) (permanent : bool) (w : world) :
  delete_file file_path permanent w = delete_file file_path true w.
Proof. by destruct permanent. Qed.

(** What [delete_file] comes to. *)
Lemma delete_file_run (file_path : str) (permanent : bool) (w : world) :
  delete_file file_path permanent w
  = match os_unlink file_path w with
    | (inr _, w') => (inr true, w')
    | (inl e, w') => (print (py "删除文件失败: " ++ exn_str e) ;; ret false) w'
    end.
Proof.
  rewrite delete_file_same. unfold delete_file, try_except, bind at 1.
  by destruct (os_unlink file_path w) as [[e|[]] w'].
Qed.

Lemma delete_file_success (p : str) (permanent : bool) (w w1 : world) :
  delete_file p permanent w = (inr true, w1) →
  (∃ c r, files w !! p = Some (File c r))
  ∧ files w !! parent p = Some (Dir true)
  ∧ change_refused p = None
  ∧ w1 = World (delete p (files w)) (stdout w).
Proof.
  rewrite delete_file_run, os_unlink_run.
  destruct (change_refused p);
    [by intros [[=] _]%failure_line_run|].
  destruct (files w !! p) as [[c r|d]|];
    [|by intros [[=] _]%failure_line_run..].
  destruct (files w !! parent p) as [[c' r'|[]]|];
    try (by intros [[=] _]%failure_line_run).
  intros [= <-]. eauto 6.
Qed.

Lemma delete_file_succeeds (p : str) (permanent : bool) (w : world) (c : list byte)
    (r : bool) :
  files w !! p = Some (File c r) →
  files w !! parent p = Some (Dir true) →
  change_refused p = None →
  delete_file p permanent w = (inr true, World (delete p (files w)) (stdout w)).
Proof.
  intros Hfile Hparent Hchange.
  by rewrite delete_file_run, os_unlink_run, Hchange, Hfile, Hparent.
Qed.

(** A call of [os.unlink] that raises has changed nothing. *)
Lemma os_unlink_raises (p : str) (w : world) (e : exn) (w' : world) :
  os_unlink p w = (inl e, w') → w' = w.
Proof.
  rewrite os_unlink_run.
  destruct (change_refused p); [by intros [= _ <-]|].
  destruct (files w !! p) as [[c r|d]|]; try (by intros [= _ <-]).
  destruct (files w !! parent p) as [[c' r'|[]]|]; by intros [= _ <-].
Qed.

End delete_and_restore.

(** C9: [delete_file] does the same with [permanent=True] and with
    [permanent=False], in every world.  Either way it unlinks: when the path
    holds a file in a directory that accepts changes, and the platform does
    not refuse the path, the call returns [True] and the resulting file
    system is the former one less that entry, so nothing is staged anywhere;
    it returns [True] in no other case; when it returns [False] it has
    printed a line and changed no entry; and it raises only what the print
    of that line raised. *)
Theorem delete_file_ignores_permanent `{Platform} (file_path : str) (w : world) :
  delete_file file_path true w = delete_file file_path false w
  ∧ (∀ permanent c r,
      files w !! file_path = Some (File c r) →
      files w !! parent file_path = Some (Dir true) →
      change_refused file_path = None →
      delete_file file_path permanent w
      = (inr true, World (delete file_path (files w)) (stdout w)))
  ∧ (∀ permanent w',
      delete_file file_path permanent w = (inr true, w') →
      (∃ c r, files w !! file_path = Some (File c r))
      ∧ files w !! parent file_path = Some (Dir true)
      ∧ change_refused file_path = None
      ∧ files w' = delete file_path (files w) ∧ stdout w' = stdout w)
  ∧ (∀ permanent w',
      delete_file file_path permanent w = (inr false, w') →
      files w' = files w ∧ ∃ line, stdout w' = stdout w ++ [line])
  ∧ (∀ permanent e w',
      delete_file file_path permanent w = (inl e, w') →
      w' = w ∧ ∃ line, stdout_refuses line = Some e).
Proof.
  split; [by rewrite (delete_file_same _ false)|].
  split; [intros permanent c r; apply delete_file_succeeds|].
  split; [|split].
  - intros permanent w' Hrun.
    destruct (delete_file_success _ _ _ _ Hrun) as (Hfile & Hparent & Hchange & ->).
    done.
  - intros permanent w'. rewrite delete_file_run.
    destruct (os_unlink file_path w) as [[e|[]] w1] eqn:Hunlink; [|done].
    apply os_unlink_raises in Hunlink as ->.
    intros [_ ->]%failure_line_run. simpl. eauto.
  - intros permanent e w'. rewrite delete_file_run.
    destruct (os_unlink file_path w) as [[e0|[]] w1] eqn:Hunlink; [|done].
    apply os_unlink_raises in Hunlink as ->.
    intros [-> Hline]%failure_line_raises. eauto.
Qed.

Example delete_file_on_sample :
  let gone := World (delete (py "notes.txt") sample_files) [] in
  @delete_file sample_platform (py "notes.txt") true sample_world = (inr true, gone)
  ∧ @delete_file sample_platform (py "notes.txt") false sample_world = (inr true, gone)
  ∧ (@delete_file sample_platform (py "nope.txt") false sample_world).1 = inr false
  ∧ (@delete_file sample_platform (py "docs.txt") true sample_world).1 = inr false.
Proof. by vm_compute. Qed.

Section restore.
Context `{Platform}.

(** What [restore_file_from_recycle_bin] comes to. *)
Lemma restore_run (file_path : str) (w : world) :
  restore_file_from_recycle_bin file_path w
  = match Path_touch file_path w with
    | (inr _, w') => (inr true, w')
    | (inl e, w') => (print (py "恢复文件失败: " ++ exn_str e) ;; ret false) w'
    end.
Proof.
  unfold restore_file_from_recycle_bin, try_except, bind at 1.
  by destruct (Path_touch file_path w) as [[e|[]] w'].
Qed.

(** C8 (amended): when [restore_file_from_recycle_bin] returns [True], an
    entry exists at the path as [pathlib] spells it; it is a new, empty file
    if nothing was there before, and otherwise the file system is as it was:
    an existing file keeps its content, a directory stays a directory.
    Nothing is printed and nothing is recovered. *)
Theorem restore_touches (file_path : str) (w w' : world) :
  restore_file_from_recycle_bin file_path w = (inr true, w') →
  let p := pathlib.Path file_path in
  is_Some (files w' !! p)
  ∧ (files w !! p = None → files w' = <[p := File [] true]> (files w))
  ∧ (is_Some (files w !! p) → files w' = files w)
  ∧ stdout w' = stdout w.
Proof.
  intros Hrun p. revert Hrun.
  rewrite restore_run, Path_touch_run. fold p.
  destruct (change_refused p); [by intros [[=] _]%failure_line_run|].
  destruct (files w !! p) as [n|] eqn:Hp.
  - intros [= <-]. rewrite Hp. by eauto.
  - destruct (files w !! parent p) as [[c r|[]]|];
      try (by intros [[=] _]%failure_line_run).
    intros [= <-]. simpl. rewrite lookup_insert_eq.
    split; [by eauto|]. split; [done|]. split; [by intros [? [=]]|done].
Qed.

End restore.

Lemma restore_touches_witness :
  @restore_file_from_recycle_bin sample_platform (py "./new.txt") sample_world
  = (inr true, World (<[py "new.txt" := File [] true]> sample_files) [])
  ∧ files (World (<[py "new.txt" := File [] true]> sample_files) []) !! py "new.txt"
    = Some (File [] true).
Proof.
  assert (@restore_file_from_recycle_bin sample_platform (py "./new.txt") sample_world
          = (inr true, World (<[py "new.txt" := File [] true]> sample_files) []))
    as Hrun by (by vm_compute).
  split; [exact Hrun|].
  destruct (@restore_touches sample_platform _ _ _ Hrun) as (_ & Hnew & _).
  rewrite Hnew by (by vm_compute). by vm_compute.
Defined.

(** C8 (as stated) fails: restoring [notes.txt], which holds five bytes,
    and [docs], a directory, succeeds and leaves both as they were; neither
    is an empty file afterwards. *)
Lemma restore_keeps_what_exists :
  @restore_file_from_recycle_bin sample_platform (py "notes.txt") sample_world
  = (inr true, sample_world)
  ∧ files sample_world !! py "notes.txt" = Some (File (bytes_of "hello") true)
  ∧ length (bytes_of "hello") = 5%nat
  ∧ @restore_file_from_recycle_bin sample_platform (py "docs") sample_world
    = (inr true, sample_world)
  ∧ files sample_world !! py "docs" = Some (Dir false).
Proof. by vm_compute. Qed.
(** ** Batch copy and move *)

Section batches.
Context `{Platform} `{Libraries}.

(** What [copy_file] and [move_file] come to. *)
Lemma copy_file_run (src dst : str) (w : world) :
  copy_file src dst w
  = match shutil_copy2 src dst w with
    | (inr _, w') => (inr true, w')
    | (inl e, w') => (print (py "复制文件失败: " ++ exn_str e) ;; ret false) w'
    end.
Proof.
  unfold copy_file, try_except, bind at 1.
  by destruct (shutil_copy2 src dst w) as [[e|[]] w'].
Qed.

Lemma move_file_run (src dst : str) (w : world) :
  move_file src dst w
  = match shutil_move src dst w with
    | (inr _, w') => (inr true, w')
    | (inl e, w') => (print (py "移动文件失败: " ++ exn_str e) ;; ret false) w'
    end.
Proof.
  unfold move_file, try_except, bind at 1.
  by destruct (shutil_move src dst w) as [[e|[]] w'].
Qed.

Lemma copy_file_returns (src dst : str) :
  (∀ line, stdout_refuses line = None) → returns (copy_file src dst).
Proof.
  intros Hopen. apply try_except_returns. intros e.
  apply print_then_ret_returns, Hopen.
Qed.

Lemma move_file_returns (src dst : str) :
  (∀ line, stdout_refuses line = None) → returns (move_file src dst).
Proof.
  intros Hopen. apply try_except_returns. intros e.
  apply print_then_ret_returns, Hopen.
Qed.

(** A per-file tool raises only what the print of its handler raised. *)
Lemma copy_file_raises (src dst : str) (w : world) (e : exn) (w' : world) :
  copy_file src dst w = (inl e, w') → ∃ line, stdout_refuses line = Some e.
Proof.
  rewrite copy_file_run. destruct (shutil_copy2 src dst w) as [[e0|[]] w1]; [|done].
  intros [_ Hline]%failure_line_raises. eauto.
Qed.

Lemma move_file_raises (src dst : str) (w : world) (e : exn) (w' : world) :
  move_file src dst w = (inl e, w') → ∃ line, stdout_refuses line = Some e.
Proof.
  rewrite move_file_run. destruct (shutil_move src dst w) as [[e0|[]] w1]; [|done].
  intros [_ Hline]%failure_line_raises. eauto.
Qed.

Lemma batch_step_run (op : str → str → M bool) (dst_dir src : str)
    (acc : list bool) (w : world) :
  batch_step op dst_dir src acc w
  = match op src (os_path.join dst_dir (os_path.basename src)) w with
    | (inr success, w') => (inr (acc ++ [success]), w')
    | (inl e, w') => (inl e, w')
    end.
Proof.
  unfold batch_step, bind.
  by destruct (op src (os_path.join dst_dir (os_path.basename src)) w) as [[e|b] w'].
Qed.

(** The loop that the two batch tools share: when it returns, it returns one
    flag per source, each the flag of the per-file tool in the world that
    the sources before have left; when it raises, the per-file tool raised
    at some source, after the sources before it had been handled. *)
Lemma batch_loop_outcome (op : str → str → M bool) (dst_dir : str) :
  ∀ (src_paths : list str) (acc : list bool) (w : world),
    match for_in src_paths (batch_step op dst_dir) acc w with
    | (inr out, w') =>
        ∃ results,
          out = acc ++ results ∧ length results = length src_paths
          ∧ ∀ i src, src_paths !! i = Some src →
              ∃ wi success wi',
                for_in (take i src_paths) (batch_step op dst_dir) acc w
                = (inr (acc ++ take i results), wi)
                ∧ op src (os_path.join dst_dir (os_path.basename src)) wi
                  = (inr success, wi')
                ∧ results !! i = Some success
    | (inl e, w') =>
        ∃ i src flags wi,
          src_paths !! i = Some src
          ∧ for_in (take i src_paths) (batch_step op dst_dir) acc w
            = (inr (acc ++ flags), wi)
          ∧ length flags = i
          ∧ op src (os_path.join dst_dir (os_path.basename src)) wi = (inl e, w')
    end.
Proof.
  induction src_paths as [|s rest IH]; intros acc w.
  - simpl. exists []. rewrite app_nil_r. repeat split. by intros i src.
  - cbn [for_in]. unfold bind at 1. rewrite batch_step_run.
    destruct (op s (os_path.join dst_dir (os_path.basename s)) w)
      as [[e|b] w1] eqn:Hs.
    + exists 0%nat, s, [], w. rewrite app_nil_r. by repeat split.
    + specialize (IH (acc ++ [b]) w1).
      destruct (for_in rest (batch_step op dst_dir) (acc ++ [b]) w1)
        as [[e|out] w'].
      * destruct IH as (i & src & flags & wi & Hsrc & Hpre & Hlen & Hop).
        exists (S i), src, (b :: flags), wi. split; [done|]. split; [|split].
        -- cbn [take for_in]. unfold bind at 1. rewrite batch_step_run, Hs, Hpre.
           by rewrite <- app_assoc.
        -- simpl. by rewrite Hlen.
        -- done.
      * destruct IH as (rs & -> & Hlen & Hith).
        exists (b :: rs). split; [by rewrite <- app_assoc|].
        split; [simpl; by rewrite Hlen|].
        intros [|i] src Hsrc.
        -- injection Hsrc as <-. exists w, b, w1. rewrite app_nil_r.
           by repeat split.
        -- destruct (Hith i src Hsrc) as (wi & success & wi' & Hpre & Hop_i & Hres).
           exists wi, success, wi'. split; [|by split].
           cbn [take for_in]. unfold bind at 1. rewrite batch_step_run, Hs, Hpre.
           by rewrite <- app_assoc.
Qed.

Lemma batch_loop_returns (op : str → str → M bool) (dst_dir : str) :
  (∀ src dst, returns (op src dst)) →
  ∀ (src_paths : list str) (acc : list bool), returns (for_in src_paths (batch_step op dst_dir) acc).
Proof.
  intros Hop src_paths.
  induction src_paths as [|s rest IH]; intros acc w; [by eexists _, _|].
  cbn [for_in]. unfold bind at 1. rewrite batch_step_run.
  destruct (Hop s (os_path.join dst_dir (os_path.basename s)) w) as (b & w1 & ->).
  apply IH.
Qed.

End batches.

(** C10 (amended): whenever [batch_copy_files] (or [batch_move_files])
    returns, it returns one flag per source path, in the order of the input:
    the flag at index [i] is what [copy_file] (or [move_file]) returns for
    the source at [i] and the destination directory joined with its base
    name, run in the world that the sources before it have left.  It returns
    for every input when standard output takes every line; when it raises,
    the per-file tool raised at some source, which it does only with what
    the print of its failure line raised, and no list comes back. *)
Theorem batch_results_match_sources `{Platform} `{Libraries}
    (src_paths : list str) (dst_dir : str) (w : world) :
  (∀ results w',
      batch_copy_files src_paths dst_dir w = (inr results, w') →
      length results = length src_paths
      ∧ ∀ i src, src_paths !! i = Some src →
          ∃ wi success wi',
            batch_copy_files (take i src_paths) dst_dir w = (inr (take i results), wi)
            ∧ copy_file src (os_path.join dst_dir (os_path.basename src)) wi
              = (inr success, wi')
            ∧ results !! i = Some success)
  ∧ (∀ results w',
      batch_move_files src_paths dst_dir w = (inr results, w') →
      length results = length src_paths
      ∧ ∀ i src, src_paths !! i = Some src →
          ∃ wi success wi',
            batch_move_files (take i src_paths) dst_dir w = (inr (take i results), wi)
            ∧ move_file src (os_path.join dst_dir (os_path.basename src)) wi
              = (inr success, wi')
            ∧ results !! i = Some success)
  ∧ ((∀ line, stdout_refuses line = None) →
     (∃ results w', batch_copy_files src_paths dst_dir w = (inr results, w'))
     ∧ (∃ results w', batch_move_files src_paths dst_dir w = (inr results, w')))
  ∧ (∀ e w',
      batch_copy_files src_paths dst_dir w = (inl e, w') →
      (∃ line, stdout_refuses line = Some e)
      ∧ ∃ i src flags wi,
          src_paths !! i = Some src
          ∧ batch_copy_files (take i src_paths) dst_dir w = (inr flags, wi)
          ∧ copy_file src (os_path.join dst_dir (os_path.basename src)) wi
            = (inl e, w'))
  ∧ (∀ e w',
      batch_move_files src_paths dst_dir w = (inl e, w') →
      (∃ line, stdout_refuses line = Some e)
      ∧ ∃ i src flags wi,
          src_paths !! i = Some src
          ∧ batch_move_files (take i src_paths) dst_dir w = (inr flags, wi)
          ∧ move_file src (os_path.join dst_dir (os_path.basename src)) wi
            = (inl e, w')).
Proof.
  pose proof (batch_loop_outcome copy_file dst_dir src_paths [] w) as Hcopy.
  pose proof (batch_loop_outcome move_file dst_dir src_paths [] w) as Hmove.
  fold (batch_step copy_file dst_dir) in Hcopy.
  fold (batch_step move_file dst_dir) in Hmove.
  unfold batch_copy_files, batch_move_files.
  fold (batch_step copy_file dst_dir). fold (batch_step move_file dst_dir).
  split; [|split; [|split; [|split]]].
  - intros results w' Hrun. rewrite Hrun in Hcopy.
    destruct Hcopy as (rs & -> & Hlen & Hith). done.
  - intros results w' Hrun. rewrite Hrun in Hmove.
    destruct Hmove as (rs & -> & Hlen & Hith). done.
  - intros Hopen. split.
    + apply (batch_loop_returns copy_file dst_dir); intros src dst;
        by apply copy_file_returns.
    + apply (batch_loop_returns move_file dst_dir); intros src dst;
        by apply move_file_returns.
  - intros e w' Hrun. rewrite Hrun in Hcopy.
    destruct Hcopy as (i & src & flags & wi & Hsrc & Hpre & _ & Hop).
    split; [by eapply copy_file_raises|]. by exists i, src, flags, wi.
  - intros e w' Hrun. rewrite Hrun in Hmove.
    destruct Hmove as (i & src & flags & wi & Hsrc & Hpre & _ & Hop).
    split; [by eapply move_file_raises|]. by exists i, src, flags, wi.
Qed.

(** C10 (as stated) fails: on a standard output in ASCII the failure line of
    the missing second source cannot be printed; the exception of the print
    leaves [copy_file] and then the batch, after the first source has been
    copied, and no list is returned. *)
Lemma batch_can_raise :
  let srcs := [py "a.csv"; py "missing"; py "notes.txt"] in
  ∃ w',
    @batch_copy_files ascii_stdout (@sample_runtime ascii_stdout None)
      srcs (py "docs.txt") sample_world
    = (inl (Exn UnicodeEncodeError
              (py "'ascii' codec can't encode characters: ordinal not in range(128)")),
       w')
    ∧ files w' !! py "docs.txt/a.csv"
      = Some (File (bytes_of "1,2" ++ lf ++ bytes_of "3,4") true)
    ∧ files w' !! py "docs.txt/notes.txt" = None.
Proof. eexists. split; [by vm_compute|]. split; by vm_compute. Qed.

Example batch_copy_on_sample :
  (@batch_copy_files sample_platform (@sample_runtime sample_platform None)
     [py "a.csv"; py "missing"; py "notes.txt"] (py "docs.txt") sample_world).1
  = inr [true; false; true]
  ∧ files (@batch_copy_files sample_platform (@sample_runtime sample_platform None)
             [py "a.csv"; py "missing"; py "notes.txt"] (py "docs.txt") sample_world).2
    !! py "docs.txt/notes.txt" = Some (File (bytes_of "hello") true)
  ∧ (@batch_move_files sample_platform (@sample_runtime sample_platform None)
       [py "notes.txt"; py "notes.txt"] (py "docs.txt") sample_world).1
    = inr [true; false].
Proof. by vm_compute. Qed.
(** ** Canonicalization of delimited tables *)

(** *** Joining and chomping *)

Lemma str_join_cons (sep x : str) (l : list str) :
  l ≠ [] → str_join sep (x :: l) = x ++ sep ++ str_join sep l.
Proof. by destruct l. Qed.

Lemma str_join_snoc (sep x : str) (l : list str) :
  l ≠ [] → str_join sep (l ++ [x]) = str_join sep l ++ sep ++ x.
Proof.
  induction l as [|y l IH]; [done|]. intros _.
  destruct l as [|z l]; [done|].
  change ((y :: z :: l) ++ [x]) with (y :: ((z :: l) ++ [x])).
  rewrite str_join_cons by (simpl; discriminate).
  rewrite IH by done. rewrite (str_join_cons sep y (z :: l)) by done.
  by rewrite <- !app_assoc.
Qed.

Lemma chomp_cons (c : char) (r : str) : r ≠ [] → chomp (c :: r) = c :: chomp r.
Proof. by destruct r. Qed.

Lemma chomp_app (a b : str) : b ≠ [] → chomp (a ++ b) = a ++ chomp b.
Proof.
  intros Hb. induction a as [|c a IH]; [done|].
  simpl app. rewrite chomp_cons by (by destruct a, b). by rewrite IH.
Qed.

Lemma chomp_line (body : str) : chomp (body ++ [LF]) = body.
Proof. rewrite chomp_app by done. simpl. by rewrite app_nil_r. Qed.

Lemma chomp_id (s : str) : last s ≠ Some LF → chomp s = s.
Proof.
  induction s as [|c s IH]; [done|]. intros Hlast.
  destruct s as [|c' s].
  - simpl. destruct (N.eqb_spec c LF) as [->|]; [by destruct Hlast|done].
  - rewrite chomp_cons by done. by rewrite IH.
Qed.

Lemma chomp_no_LF (s : str) : LF ∉ s → chomp s = s.
Proof.
  intros Hs. apply chomp_id. intros Hlast.
  apply Hs. by apply last_Some_elem_of.
Qed.

(** *** Text without quotes: the reader splits at delimiters and line feeds *)

Section plain_text.
Variable d : char.
Hypothesis d_not_quote : d ≠ DQUOTE.
Hypothesis d_not_LF : d ≠ LF.
Hypothesis d_not_CR : d ≠ CR.

Lemma unquoted_reset : unquoted d csv.parse_reset [].
Proof. by split. Qed.

Lemma unquoted_char (self : csv.ReaderObj) (t : str) (c : char) (r : str) :
  unquoted d self t →
  c ≠ DQUOTE → c ≠ CR → c ≠ LF →
  runs_short d (length (csv.field self)) (c :: r) →
  ∃ self',
    csv.parse_process_char (csv.excel d) self (csv.Char c) = inr self'
    ∧ unquoted d self' (t ++ [c])
    ∧ runs_short d (length (csv.field self')) r.
Proof.
  intros [Ht Hst] Hq Hcr Hlf Hruns. simpl in Hruns.
  assert (csv.is_newline c = false) as Hnl.
  { unfold csv.is_newline. by destruct (N.eqb_spec c LF), (N.eqb_spec c CR). }
  assert ((c =? LF)%N = false) as Hlf' by (by apply N.eqb_neq).
  assert ((c =? DQUOTE)%N = false) as Hq' by (by apply N.eqb_neq).
  rewrite Hlf', orb_false_r in Hruns.
  destruct self as [st fs f]. simpl in *.
  unfold csv.parse_process_char, csv.start_field, csv.parse_add_char,
    csv.parse_save_field, csv.set_state. simpl.
  rewrite Hnl, Hq', !andb_false_r. simpl.
  destruct (N.eqb_spec c d) as [->|Hd].
  - (* the delimiter closes the field *)
    destruct st; try done; simpl in *.
    + destruct Hst as [-> ->]. eexists. split; [done|]. subst t. by repeat split.
    + subst f. eexists. split; [done|].
      split; [|done]. split; [|done]. simpl.
      rewrite str_join_snoc by (by destruct fs).
      by rewrite Ht, app_nil_r.
    + eexists. split; [done|].
      split; [|done]. split; [|done]. simpl.
      rewrite str_join_snoc by (by destruct fs).
      by rewrite Ht, app_nil_r.
  - (* an ordinary character extends the field *)
    destruct Hruns as [Hlen Hruns].
    assert ((csv.field_limit <=? N.of_nat (length f))%N = false) as Hfit
      by (apply N.leb_gt; lia).
    destruct st; try done; simpl in *; rewrite ?Hfit; simpl.
    + destruct Hst as [-> ->]. eexists. split; [done|]. subst t. by repeat split.
    + subst f. eexists. split; [done|]. simpl.
      split; [|done]. split; [|done]. simpl.
      destruct fs as [|f0 fs]; [by subst t|].
      rewrite !str_join_snoc in * by done. rewrite <- Ht.
      by rewrite <- !app_assoc.
    + eexists. split; [done|]. simpl. rewrite length_app. simpl.
      split; [|by replace (length f + 1)%nat with (S (length f)) by lia].
      split; [|done].
      destruct fs as [|f0 fs]; [by subst t|].
      rewrite !str_join_snoc in * by done. rewrite <- Ht.
      by rewrite <- !app_assoc.
Qed.

Lemma unquoted_body (body tail rest : str) (self : csv.ReaderObj) (t : str) :
  unquoted d self t →
  DQUOTE ∉ body → CR ∉ body → LF ∉ body →
  runs_short d (length (csv.field self)) (body ++ rest) →
  ∃ self',
    unquoted d self' (t ++ body)
    ∧ runs_short d (length (csv.field self')) rest
    ∧ csv.parse_line (csv.excel d) self (body ++ tail)
      = csv.parse_line (csv.excel d) self' tail.
Proof.
  revert self t. induction body as [|c body IH]; intros self t Hun Hq Hcr Hlf Hruns.
  - exists self. by rewrite app_nil_r.
  - apply not_elem_of_cons in Hq as [Hq Hq'], Hcr as [Hcr Hcr'], Hlf as [Hlf Hlf'].
    destruct (unquoted_char self t c (body ++ rest) Hun) as (self1 & Hstep & Hun1 & Hruns1);
      [done..|].
    destruct (IH self1 (t ++ [c]) Hun1 Hq' Hcr' Hlf' Hruns1) as (self' & Hun' & Hruns' & Hline).
    exists self'. rewrite <- app_assoc in Hun'. split; [done|]. split; [done|].
    simpl. by rewrite Hstep.
Qed.

Lemma unquoted_end_LF (self : csv.ReaderObj) (t : str) :
  unquoted d self t →
  ∃ self',
    csv.parse_line (csv.excel d) self [LF] = inr self'
    ∧ csv.state self' = csv.START_RECORD
    ∧ str_join [d] (csv.fields self') = t.
Proof.
  intros [Ht Hst]. destruct self as [st fs f]. simpl in *.
  destruct st; try done; simpl in *.
  - destruct Hst as [-> ->]. eexists. split; [done|]. by subst t.
  - eexists. split; [done|]. done.
  - eexists. split; [done|]. done.
Qed.

Lemma unquoted_end (self : csv.ReaderObj) (t : str) :
  unquoted d self t →
  ∃ self',
    csv.parse_line (csv.excel d) self [] = inr self'
    ∧ csv.state self' = csv.START_RECORD
    ∧ str_join [d] (csv.fields self') = t.
Proof.
  intros [Ht Hst]. destruct self as [st fs f]. simpl in *.
  destruct st; try done; simpl in *.
  - destruct Hst as [-> ->]. eexists. split; [done|]. by subst t.
  - eexists. split; [done|]. done.
  - eexists. split; [done|]. done.
Qed.

Lemma rows_plain (s cur : str) :
  DQUOTE ∉ cur ++ s → CR ∉ cur ++ s → LF ∉ cur →
  runs_short d 0 (cur ++ s) →
  ∃ rs,
    csv.rows (csv.excel d) csv.parse_reset (splitlines_keepends cur s) = inr rs
    ∧ map (str_join [d]) rs = map chomp (splitlines_keepends cur s).
Proof.
  revert cur. induction s as [|c r IH]; intros cur Hq Hcr Hlf Hruns.
  - rewrite app_nil_r in *. simpl. destruct cur as [|c0 cur0] eqn:Hcur.
    { exists []. by split. }
    rewrite <- Hcur in *. clear Hcur c0 cur0.
    destruct (unquoted_body cur [] [] csv.parse_reset [] unquoted_reset Hq Hcr Hlf)
      as (self1 & Hun1 & _ & Hline); [by rewrite app_nil_r|].
    destruct (unquoted_end self1 _ Hun1) as (self' & Hend & Hst & Hjoin).
    rewrite app_nil_r in Hline. simpl in Hjoin.
    exists [csv.fields self']. unfold csv.rows.
    rewrite Hline, Hend, Hst. simpl. split; [done|].
    by rewrite Hjoin, chomp_no_LF.
  - simpl. destruct (N.eqb_spec c LF) as [->|Hc].
    + destruct (unquoted_body cur [LF] (LF :: r) csv.parse_reset [] unquoted_reset)
        as (self1 & Hun1 & Hruns1 & Hline);
        [by intros ?; apply Hq, elem_of_app; left
        |by intros ?; apply Hcr, elem_of_app; left|done..|].
      destruct (unquoted_end_LF self1 _ Hun1) as (self' & Hend & Hst & Hjoin).
      simpl in Hruns1, Hjoin. rewrite ?N.eqb_refl, orb_true_r in Hruns1.
      destruct (IH []) as (rs & Hrows & Hmap); [..|done|].
      { intros ?. apply Hq, elem_of_app. right. by right. }
      { intros ?. apply Hcr, elem_of_app. right. by right. }
      { apply not_elem_of_nil. }
      exists (csv.fields self' :: rs). cbn [csv.rows].
      rewrite Hline, Hend, Hst. simpl. rewrite Hrows. simpl. split; [done|].
      by rewrite Hjoin, chomp_line, Hmap.
    + apply IH.
      * by rewrite <- app_assoc.
      * by rewrite <- app_assoc.
      * intros Hin. apply elem_of_app in Hin as [Hin|Hin]; [done|].
        by apply list_elem_of_singleton in Hin.
      * by rewrite <- app_assoc.
Qed.

End plain_text.

(** *** Lines and newlines *)

Lemma splitlines_nonempty (s cur : str) :
  cur ++ s ≠ [] → splitlines_keepends cur s ≠ [].
Proof.
  revert cur. induction s as [|c r IH]; intros cur Hne.
  - rewrite app_nil_r in Hne. by destruct cur.
  - simpl. destruct (c =? LF)%N; [done|].
    apply IH. by destruct cur.
Qed.

Lemma splitlines_chomp (s cur : str) :
  LF ∉ cur →
  str_join [LF] (map chomp (splitlines_keepends cur s)) = chomp (cur ++ s).
Proof.
  revert cur. induction s as [|c r IH]; intros cur Hlf.
  - rewrite app_nil_r. simpl. destruct cur as [|c0 cur0] eqn:Hcur; [done|].
    rewrite <- Hcur in *. simpl. by rewrite chomp_no_LF.
  - simpl. destruct (N.eqb_spec c LF) as [->|Hc].
    + simpl map. rewrite chomp_line. destruct r as [|c' r'].
      * simpl. by rewrite chomp_line.
      * rewrite str_join_cons
          by (intros Hnil; apply map_eq_nil in Hnil; revert Hnil;
              by apply splitlines_nonempty).
        rewrite (IH []) by apply not_elem_of_nil. simpl app at 2.
        rewrite (chomp_app cur (LF :: c' :: r')) by done.
        by rewrite (chomp_cons LF (c' :: r')).
    + rewrite IH; [by rewrite <- app_assoc|].
      intros Hin. apply elem_of_app in Hin as [Hin|Hin]; [done|].
      by apply list_elem_of_singleton in Hin.
Qed.

Lemma universal_newlines_cons (c : char) (r : str) :
  universal_newlines (c :: r)
  = if (c =? CR)%N then
      LF :: match r with
            | d :: r' => if (d =? LF)%N then universal_newlines r'
                         else universal_newlines r
            | [] => []
            end
    else c :: universal_newlines r.
Proof. done. Qed.

(** Universal newlines leave no carriage return, and leave a text without
    carriage returns as it is. *)
Lemma universal_newlines_no_CR (s : str) : CR ∉ universal_newlines s.
Proof.
  assert (∀ n s, (length s < n)%nat → CR ∉ universal_newlines s) as Hall;
    [|apply (Hall (S (length s))); lia].
  clear s. intros n. induction n as [|n IH]; intros s Hlen; [lia|].
  destruct s as [|c r]; [apply not_elem_of_nil|].
  rewrite universal_newlines_cons. simpl in Hlen.
  destruct (N.eqb_spec c CR) as [->|Hc].
  - apply not_elem_of_cons. split; [done|].
    destruct r as [|c' r']; [apply not_elem_of_nil|]. simpl in Hlen.
    destruct (c' =? LF)%N; apply IH; simpl; lia.
  - apply not_elem_of_cons. split; [done|]. apply IH. lia.
Qed.

Lemma universal_newlines_id (s : str) : CR ∉ s → universal_newlines s = s.
Proof.
  induction s as [|c r IH]; [done|]. intros Hcr.
  apply not_elem_of_cons in Hcr as [Hc Hr]. rewrite universal_newlines_cons.
  destruct (N.eqb_spec c CR); [done|]. by rewrite IH.
Qed.

Lemma universal_newlines_elem (c : char) (s : str) :
  c ∈ universal_newlines s → c = LF ∨ c ∈ s.
Proof.
  assert (∀ n s, (length s < n)%nat → c ∈ universal_newlines s → c = LF ∨ c ∈ s)
    as Hall; [|apply (Hall (S (length s))); lia].
  clear s. intros n. induction n as [|n IH]; intros s Hlen; [lia|].
  destruct s as [|x r]; [by intros ?%elem_of_nil|].
  rewrite universal_newlines_cons. simpl in Hlen.
  destruct (N.eqb_spec x CR) as [->|Hx].
  - intros [->|Hin]%elem_of_cons; [by left|].
    destruct r as [|x' r']; [by apply elem_of_nil in Hin|]. simpl in Hlen.
    destruct (x' =? LF)%N.
    + destruct (IH r' ltac:(lia) Hin) as [?|?]; [by left|].
      right. by do 2 right.
    + destruct (IH (x' :: r') ltac:(simpl; lia) Hin) as [?|?]; [by left|].
      right. by right.
  - intros [->|Hin]%elem_of_cons; [right; by left|].
    destruct (IH r ltac:(lia) Hin) as [?|?]; [by left|]. right. by right.
Qed.

(** *** What any pass produces *)

Lemma field_ok_nil : field_ok [].
Proof. split; [apply not_elem_of_nil|]. simpl. unfold csv.field_limit. lia. Qed.

Lemma reader_ok_reset : reader_ok csv.parse_reset.
Proof. split; [constructor|apply field_ok_nil]. Qed.

Lemma set_state_ok (self : csv.ReaderObj) (s : csv.ParserState) :
  reader_ok self → reader_ok (csv.set_state self s).
Proof. by intros []. Qed.

Lemma save_field_ok (self : csv.ReaderObj) :
  reader_ok self → reader_ok (csv.parse_save_field self).
Proof.
  intros [Hfs Hf]. split; [|apply field_ok_nil]. simpl.
  apply Forall_app. split; [done|]. by constructor.
Qed.

Lemma add_char_ok (self self' : csv.ReaderObj) (c : char) :
  reader_ok self → c ≠ CR →
  csv.parse_add_char self c = inr self' → reader_ok self'.
Proof.
  intros [Hfs [Hcr Hlen]] Hc. unfold csv.parse_add_char.
  destruct (N.leb_spec csv.field_limit (N.of_nat (length (csv.field self))));
    [done|].
  intros [= <-]. split; [done|]. simpl. split.
  - intros [?|Hin]%elem_of_app; [done|].
    by apply list_elem_of_singleton in Hin.
  - rewrite length_app. simpl. lia.
Qed.

Lemma add_char_then_ok (self self' : csv.ReaderObj) (c : char) (s : csv.ParserState) :
  reader_ok self → c ≠ CR →
  (λ r, csv.set_state r s) <$> csv.parse_add_char self c = inr self' →
  reader_ok self'.
Proof.
  intros Hok Hc. destruct (csv.parse_add_char self c) as [e|r] eqn:Hadd; [done|].
  intros [= <-]. apply set_state_ok. by eapply add_char_ok.
Qed.

#[local] Hint Resolve set_state_ok save_field_ok add_char_ok add_char_then_ok
  reader_ok_reset : core.

Lemma process_char_ok (dl : csv.Dialect) (self self' : csv.ReaderObj) (i : csv.input) :
  reader_ok self →
  match i with csv.Char c => c ≠ CR | csv.EOL => True end →
  csv.parse_process_char dl self i = inr self' →
  reader_ok self'.
Proof.
  intros Hok Hc.
  unfold csv.parse_process_char, csv.start_field.
  destruct (csv.state self), i as [c|].
  all: repeat match goal with
              | |- context [if ?b then _ else _] => destruct b
              end.
  all: try (intros [= <-];
            first [ by apply set_state_ok, save_field_ok
                  | by apply set_state_ok
                  | by apply save_field_ok
                  | exact Hok ]).
  all: intros Hstep;
    first [ discriminate Hstep
          | eapply add_char_ok; [| |exact Hstep]; auto using set_state_ok
          | eapply add_char_then_ok; [| |exact Hstep]; auto using set_state_ok ].
Qed.

Lemma parse_line_ok (dl : csv.Dialect) (line : str) (self self' : csv.ReaderObj) :
  reader_ok self → CR ∉ line →
  csv.parse_line dl self line = inr self' → reader_ok self'.
Proof.
  revert self. induction line as [|c line IH]; intros self Hok Hcr; simpl.
  - by apply process_char_ok.
  - apply not_elem_of_cons in Hcr as [Hc Hcr].
    destruct (csv.parse_process_char dl self (csv.Char c)) as [e|self1] eqn:Hstep;
      [done|].
    apply IH; [|done]. by eapply (process_char_ok _ _ _ (csv.Char c)).
Qed.

Lemma rows_ok (dl : csv.Dialect) (lines : list str) (self : csv.ReaderObj)
    (rs : list (list str)) :
  reader_ok self → Forall (λ line, CR ∉ line) lines →
  csv.rows dl self lines = inr rs → Forall (Forall field_ok) rs.
Proof.
  revert self rs. induction lines as [|line lines IH]; intros self rs Hok Hcr; simpl.
  - repeat case_match; intros [= <-]; repeat constructor.
    by apply (save_field_ok self).
  - apply Forall_cons in Hcr as [Hline Hcr].
    destruct (csv.parse_line dl self line) as [e|self'] eqn:Hparse; [done|].
    pose proof (parse_line_ok _ _ _ _ Hok Hline Hparse) as Hok'.
    case_bool_decide.
    + destruct (csv.rows dl csv.parse_reset lines) as [e|rs'] eqn:Hrest;
        simpl; [done|].
      intros [= <-]. constructor; [apply Hok'|].
      exact (IH csv.parse_reset rs' reader_ok_reset Hcr Hrest).
    + by apply IH.
Qed.

Lemma splitlines_elem (s cur line : str) (c : char) :
  line ∈ splitlines_keepends cur s → c ∈ line → c ∈ cur ++ s.
Proof.
  revert cur. induction s as [|x r IH]; intros cur; simpl.
  - rewrite app_nil_r. destruct cur; [by intros ?%elem_of_nil|].
    by intros ->%list_elem_of_singleton.
  - destruct (x =? LF)%N.
    + intros [->|Hin]%elem_of_cons Hc.
      * apply elem_of_app in Hc as [?|Hc]; apply elem_of_app; [by left|right].
        apply list_elem_of_singleton in Hc as ->. by left.
      * apply elem_of_app. right. right. by apply (IH []).
    + intros Hin Hc.
      replace (cur ++ x :: r) with ((cur ++ [x]) ++ r) by (by rewrite <- app_assoc).
      by apply IH.
Qed.

Lemma str_join_elem (sep : str) (parts : list str) (c : char) :
  c ∈ str_join sep parts → c ∈ sep ∨ ∃ p, p ∈ parts ∧ c ∈ p.
Proof.
  induction parts as [|p parts IH]; [by intros ?%elem_of_nil|].
  destruct parts as [|q parts].
  - intros Hc. right. exists p. split; [by left|done].
  - rewrite str_join_cons by done.
    intros [Hc|[Hc|Hc]%elem_of_app]%elem_of_app.
    + right. exists p. split; [by left|done].
    + by left.
    + destruct (IH Hc) as [?|(p' & ? & ?)]; [by left|].
      right. exists p'. split; [by right|done].
Qed.

(** The runs of a rejoined table lie inside the fields it was joined
    from. *)
Lemma runs_short_field (d : char) (f rest : str) (n : nat) :
  (N.of_nat (n + length f) ≤ csv.field_limit)%N →
  match rest with
  | [] => True
  | sep :: rest' => (sep = d ∨ sep = LF) ∧ runs_short d 0 rest'
  end →
  runs_short d n (f ++ rest).
Proof.
  revert n. induction f as [|c f IH]; intros n Hlen Hrest; simpl.
  - destruct rest as [|sep rest']; [done|]. simpl.
    destruct Hrest as [[->| ->] Hrest]; by rewrite N.eqb_refl, ?orb_true_r.
  - simpl in Hlen. destruct ((c =? d)%N || (c =? LF)%N).
    + apply IH; [lia|done].
    + split; [lia|]. apply IH; [lia|done].
Qed.

Lemma runs_short_row (d : char) (row : list str) (rest : str) :
  Forall field_ok row →
  match rest with
  | [] => True
  | sep :: rest' => (sep = d ∨ sep = LF) ∧ runs_short d 0 rest'
  end →
  runs_short d 0 (str_join [d] row ++ rest).
Proof.
  intros Hrow Hrest. induction Hrow as [|f row [_ Hf] Hrow IH].
  - simpl. destruct rest as [|sep rest']; [done|]. simpl.
    destruct Hrest as [[->| ->] Hrest]; by rewrite N.eqb_refl, ?orb_true_r.
  - destruct row as [|f' row'].
    + by apply runs_short_field.
    + rewrite str_join_cons by done. rewrite <- !app_assoc.
      apply runs_short_field; [done|]. simpl. split; [by left|done].
Qed.

Lemma runs_short_rows (d : char) (rs : list (list str)) :
  Forall (Forall field_ok) rs →
  runs_short d 0 (str_join [LF] (map (str_join [d]) rs)).
Proof.
  intros Hrs. induction Hrs as [|row rs Hrow Hrs IH]; [done|].
  destruct rs as [|row' rs'].
  - simpl. rewrite <- (app_nil_r (str_join [d] row)). by apply runs_short_row.
  - simpl map in *. rewrite str_join_cons by done.
    apply runs_short_row; [done|]. split; [by right|done].
Qed.

(** One pass over any text: the output has no carriage return and its runs
    fit in a field. *)
Lemma delimited_table_output (d : char) (text out : str) :
  d ≠ CR →
  delimited_table d text = inr out →
  (CR ∉ out) ∧ runs_short d 0 out.
Proof.
  intros Hd. unfold delimited_table, rejoin, csv.reader.
  destruct (csv.rows _ _ _) as [e|rs] eqn:Hrows; [done|].
  intros [= <-].
  assert (Forall (Forall field_ok) rs) as Hrs.
  { eapply rows_ok; [apply reader_ok_reset| |exact Hrows].
    apply Forall_forall. intros line Hline Hcr.
    apply (universal_newlines_no_CR text).
    by apply (splitlines_elem _ [] line). }
  split; [|by apply runs_short_rows].
  intros [Hsep|(p & Hp & Hc)]%str_join_elem.
  { by apply list_elem_of_singleton in Hsep. }
  apply list_elem_of_fmap in Hp as (row & -> & Hrow).
  apply str_join_elem in Hc as [Hsep|(f & Hf & Hc)].
  { by apply list_elem_of_singleton in Hsep. }
  pose proof (proj1 (Forall_forall _ _) Hrs row Hrow) as Hok.
  by destruct (proj1 (Forall_forall _ _) Hok f Hf).
Qed.

(** One pass over a text without quotes and carriage returns removes the
    final line feed, and nothing else. *)
Lemma delimited_table_plain (d : char) (s : str) :
  d ≠ DQUOTE → d ≠ LF → d ≠ CR →
  DQUOTE ∉ s → CR ∉ s → runs_short d 0 s →
  delimited_table d s = inr (chomp s).
Proof.
  intros Hdq Hdl Hdc Hq Hcr Hruns. unfold delimited_table, rejoin, csv.reader.
  rewrite universal_newlines_id by done.
  destruct (rows_plain d Hdq Hdl Hdc s []) as (rs & -> & Hmap);
    [done|done|apply not_elem_of_nil|done|].
  simpl. unfold mret, result_ret. f_equal.
  change (map (str_join [d]) rs) with (map (str_join [d]) rs).
  rewrite Hmap. by apply (splitlines_chomp s []), not_elem_of_nil.
Qed.

Lemma delimited_table_fixed_point (d : char) (text out : str) :
  d = COMMA ∨ d = TAB →
  delimited_table d text = inr out →
  DQUOTE ∉ out → last out ≠ Some LF →
  delimited_table d out = inr out.
Proof.
  intros Hd Hfirst Hq Hlast.
  assert (d ≠ DQUOTE ∧ d ≠ LF ∧ d ≠ CR) as (Hdq & Hdl & Hdc)
    by (by destruct Hd as [-> | ->]).
  destruct (delimited_table_output d text out Hdc Hfirst) as [Hcr Hruns].
  rewrite delimited_table_plain by done. by rewrite chomp_id.
Qed.

(** ** More on delimited tables *)

Lemma universal_newlines_idem (s : str) :
  universal_newlines (universal_newlines s) = universal_newlines s.
Proof. apply universal_newlines_id, universal_newlines_no_CR. Qed.

Lemma delimited_table_newlines (d : char) (text : str) :
  delimited_table d (universal_newlines text) = delimited_table d text.
Proof. unfold delimited_table. by rewrite universal_newlines_idem. Qed.

Lemma runs_short_prefix (d : char) (a b : str) (n : nat) :
  runs_short d n (a ++ b) → runs_short d n a.
Proof.
  revert n. induction a as [|c a IH]; intros n; [done|]. simpl.
  destruct ((c =? d)%N || (c =? LF)%N); [apply IH|].
  intros [? ?]. split; [done|]. by apply IH.
Qed.

Section delimited_refeed.
Context `{Platform} `{Libraries}.

Lemma read_delimited_table (file_path : str) (w : world) (content : list byte) (text : str) :
  (os_path.splitext file_path).2 ∈ [py ".csv"; py ".tsv"] →
  files w !! file_path = Some (File content true) →
  Utf8.decode_bytes content = Some text →
  read_text_from_file file_path w
  = match delimited_table (delimiter_of (os_path.splitext file_path).2) text with
    | inr out => (inr (Some out), w)
    | inl e => read_failed e w
    end.
Proof. apply read_delimited_runs. Qed.

Lemma read_delimited_inv (file_path : str) (w w' : world) (content : list byte) (out : str) :
  (os_path.splitext file_path).2 ∈ [py ".csv"; py ".tsv"] →
  files w !! file_path = Some (File content true) →
  read_text_from_file file_path w = (inr (Some out), w') →
  ∃ text,
    Utf8.decode_bytes content = Some text
    ∧ delimited_table (delimiter_of (os_path.splitext file_path).2) text = inr out.
Proof.
  intros Hext Hfile Hrun.
  destruct (Utf8.decode_bytes content) as [text|] eqn:Hdec.
  - exists text. split; [done|].
    rewrite (read_delimited_table _ _ _ _ Hext Hfile Hdec) in Hrun.
    destruct (delimited_table _ text) as [e|out'];
      [by apply read_failed_no_text in Hrun|].
    by injection Hrun as -> _.
  - exfalso. revert Hrun.
    rewrite read_text_from_file_existing by eauto. simpl.
    assert (format_class (os_path.splitext file_path).2 = DelimitedTable) as ->.
    { apply elem_of_cons in Hext as [->|Hext]; [done|].
      apply elem_of_cons in Hext as [->|Hext]; [done|].
      by apply elem_of_nil in Hext. }
    simpl. unfold try_except, read_delimited, TextIO_lines, bind.
    rewrite (open_r_file _ _ _ Hfile).
    destruct (TextIO_read_undecodable content w Hdec) as [e ->].
    apply read_failed_no_text.
Qed.

End delimited_refeed.

Section refeeding.
Context `{Platform}.

(** X1: what [read_text_from_file] returns for a [.csv] or [.tsv] file is a
    fixed point of the same decoder as soon as it holds no double quote and
    does not end with a line feed: written to a file of the same extension
    and read again, it comes back unchanged. *)
Theorem delimited_output_refeeds `{Libraries}
    (w w1 : world) (p p' : str) (content content' : list byte) (out : str) :
  (os_path.splitext p).2 ∈ [py ".csv"; py ".tsv"] →
  (os_path.splitext p').2 = (os_path.splitext p).2 →
  files w !! p = Some (File content true) →
  files w !! p' = Some (File content' true) →
  read_text_from_file p w = (inr (Some out), w1) →
  Utf8.decode_bytes content' = Some out →
  DQUOTE ∉ out → last out ≠ Some LF →
  read_text_from_file p' w = (inr (Some out), w).
Proof.
  intros Hext Hext' Hfile Hfile' Hrun Hdec' Hq Hlast.
  destruct (read_delimited_inv _ _ _ _ _ Hext Hfile Hrun) as (text & Hdec & Hfirst).
  rewrite <- Hext' in Hext.
  rewrite (read_delimited_table _ _ _ _ Hext Hfile' Hdec'), Hext'.
  by rewrite (delimited_table_fixed_point _ text out (delimiter_of_cases _) Hfirst).
Qed.

End refeeding.

Lemma delimited_output_refeeds_witness :
  @read_text_from_file sample_platform (@sample_runtime sample_platform None) (py "q.csv") sample_world
  = (inr (Some (py "x,y,z")), sample_world)
  ∧ @read_text_from_file sample_platform (@sample_runtime sample_platform None) (py "flat.csv") sample_world
    = (inr (Some (py "x,y,z")), sample_world).
Proof.
  assert (@read_text_from_file sample_platform (@sample_runtime sample_platform None) (py "q.csv") sample_world
          = (inr (Some (py "x,y,z")), sample_world)) as Hfirst by (by vm_compute).
  split; [exact Hfirst|].
  apply (@delimited_output_refeeds sample_platform (@sample_runtime sample_platform None) sample_world sample_world
           (py "q.csv") (py "flat.csv")
           (dq ++ bytes_of "x,y" ++ dq ++ bytes_of ",z") (bytes_of "x,y,z") (py "x,y,z"));
    try (by vm_compute); try exact Hfirst.
  - vm_compute. constructor.
  - vm_compute. intros Hin.
    repeat (apply elem_of_cons in Hin as [Heq|Hin]; [discriminate Heq|]).
    by apply elem_of_nil in Hin.
Defined.

Section plain_tables.
Context `{Platform}.

(** X2: on a [.csv] or [.tsv] file without double quotes, whose runs
    between delimiters and line breaks fit the field size limit, the reader
    changes nothing but the line ends: it returns the text with [\r\n] and
    [\r] read as [\n] and without its final line feed, if it has one. *)
Theorem delimited_plain_text_is_kept `{Libraries}
    (file_path : str) (w : world) (content : list byte) (text : str) :
  (os_path.splitext file_path).2 ∈ [py ".csv"; py ".tsv"] →
  files w !! file_path = Some (File content true) →
  Utf8.decode_bytes content = Some text →
  DQUOTE ∉ text →
  runs_short (delimiter_of (os_path.splitext file_path).2) 0 (universal_newlines text) →
  read_text_from_file file_path w
  = (inr (Some (chomp (universal_newlines text))), w).
Proof.
  intros Hext Hfile Hdec Hq Hruns.
  rewrite (read_delimited_table _ _ _ _ Hext Hfile Hdec).
  rewrite <- delimited_table_newlines.
  set (d := delimiter_of _) in *.
  assert (d = COMMA ∨ d = TAB) as Hd by apply delimiter_of_cases.
  clearbody d.
  assert (d ≠ DQUOTE ∧ d ≠ LF ∧ d ≠ CR) as (Hdq & Hdl & Hdc)
    by (by destruct Hd as [-> | ->]).
  rewrite delimited_table_plain; try done.
  - intros [?|?]%universal_newlines_elem; done.
  - apply universal_newlines_no_CR.
Qed.

End plain_tables.

Lemma delimited_plain_text_is_kept_witness :
  @read_text_from_file sample_platform (@sample_runtime sample_platform None) (py "blank.csv") sample_world
  = (inr (Some (py "a" ++ [LF])), sample_world).
Proof.
  apply (@delimited_plain_text_is_kept sample_platform (@sample_runtime sample_platform None) (py "blank.csv")
           sample_world (bytes_of "a" ++ lf ++ lf) (py "a" ++ [LF; LF]));
    try (by vm_compute).
  - vm_compute. constructor.
  - vm_compute. intros Hin.
    repeat (apply elem_of_cons in Hin as [Heq|Hin]; [discriminate Heq|]).
    by apply elem_of_nil in Hin.
Defined.

(** X3: the pass is not idempotent.  On any text without quotes and
    carriage returns that ends in two line feeds, a second pass removes one
    more line feed than the first. *)
Theorem delimited_second_pass_differs (d : char) (s0 : str) :
  d = COMMA ∨ d = TAB →
  DQUOTE ∉ s0 → CR ∉ s0 → runs_short d 0 s0 →
  delimited_table d (s0 ++ [LF; LF]) = inr (s0 ++ [LF])
  ∧ delimited_table d (s0 ++ [LF]) = inr s0
  ∧ s0 ++ [LF] ≠ s0.
Proof.
  intros Hd Hq Hcr Hruns.
  assert (d ≠ DQUOTE ∧ d ≠ LF ∧ d ≠ CR) as (Hdq & Hdl & Hdc)
    by (by destruct Hd as [-> | ->]).
  assert (∀ tail, Forall (λ c, c = LF) tail →
            (DQUOTE ∉ s0 ++ tail) ∧ (CR ∉ s0 ++ tail) ∧ runs_short d 0 (s0 ++ tail))
    as Hplain.
  { intros tail Htail. repeat split.
    - intros [?|Hin]%elem_of_app; [done|].
      apply (proj1 (Forall_forall _ _) Htail) in Hin. discriminate Hin.
    - intros [?|Hin]%elem_of_app; [done|].
      apply (proj1 (Forall_forall _ _) Htail) in Hin. discriminate Hin.
    - rewrite <- (app_nil_r s0) in Hruns.
      clear Hq Hcr. revert Hruns. generalize 0%nat.
      induction s0 as [|c s IH]; intros n Hruns.
      + simpl. clear Hruns. revert n.
        induction Htail as [|c tail -> _ IHt]; intros n; [done|].
        simpl. rewrite orb_true_r. apply IHt.
      + simpl in *. destruct ((c =? d)%N || (c =? LF)%N); [by apply IH|].
        destruct Hruns. split; [done|]. by apply IH. }
  split; [|split].
  - destruct (Hplain [LF; LF]) as (? & ? & ?); [by repeat constructor|].
    rewrite delimited_table_plain by done. f_equal.
    by rewrite (chomp_app s0 [LF; LF]).
  - destruct (Hplain [LF]) as (? & ? & ?); [by repeat constructor|].
    rewrite delimited_table_plain by done. f_equal. apply chomp_line.
  - intros Heq. apply (f_equal length) in Heq. rewrite length_app in Heq.
    simpl in Heq. lia.
Qed.

Lemma delimited_second_pass_differs_witness :
  delimited_table COMMA (py "a,b" ++ [LF; LF]) = inr (py "a,b" ++ [LF])
  ∧ delimited_table COMMA (py "a,b" ++ [LF]) = inr (py "a,b").
Proof.
  destruct (delimited_second_pass_differs COMMA (py "a,b")) as (H1 & H2 & _).
  - by left.
  - vm_compute. intros Hin.
    repeat (apply elem_of_cons in Hin as [Heq|Hin]; [discriminate Heq|]).
    by apply elem_of_nil in Hin.
  - vm_compute. intros Hin.
    repeat (apply elem_of_cons in Hin as [Heq|Hin]; [discriminate Heq|]).
    by apply elem_of_nil in Hin.
  - by vm_compute.
  - by split.
Defined.

(** ** More on the reader *)

Section reader_more.
Context `{Platform} `{Libraries}.

Lemma format_class_verbatim (file_ext : str) :
  file_ext ∈ TEXT_EXTS ++ [py ".html"; py ".htm"] →
  decoder (format_class file_ext) = λ file_path _, read_verbatim file_path.
Proof.
  intros Hext. unfold TEXT_EXTS in Hext. simpl in Hext.
  repeat (apply elem_of_cons in Hext as [->|Hext]; [done|]).
  by apply elem_of_nil in Hext.
Qed.

Lemma read_verbatim_text (file_path : str) (w : world) (content : list byte)
    (text : str) :
  (os_path.splitext file_path).2 ∈ TEXT_EXTS ++ [py ".html"; py ".htm"] →
  files w !! file_path = Some (File content true) →
  Utf8.decode_bytes content = Some text →
  read_text_from_file file_path w = (inr (Some (universal_newlines text)), w).
Proof.
  intros Hext Hfile Hdec.
  rewrite read_text_from_file_existing by eauto. simpl.
  rewrite (format_class_verbatim _ Hext).
  unfold try_except, read_verbatim, bind. rewrite (open_r_file _ _ _ Hfile).
  by rewrite (TextIO_read_text _ _ _ Hdec).
Qed.

End reader_more.

(** For a standard output that takes every line: the failure of the
    decoding is reported through a print. *)
Section verbatim_files.
Context `{Platform}.
Hypothesis stdout_open : ∀ line, stdout_refuses line = None.

(** X4: a readable file with a plain-text or markup extension is returned as
    its UTF-8 text with [\r\n] and [\r] read as [\n], and exactly as it is
    when it holds no carriage return; nothing is printed.  Bytes that are
    not UTF-8 give [None], standard output taking the line that says so. *)
Theorem read_text_verbatim `{Libraries}
    (file_path : str) (w : world) (content : list byte) :
  (os_path.splitext file_path).2 ∈ TEXT_EXTS ++ [py ".html"; py ".htm"] →
  files w !! file_path = Some (File content true) →
  (∀ text, Utf8.decode_bytes content = Some text →
     read_text_from_file file_path w = (inr (Some (universal_newlines text)), w)
     ∧ (CR ∉ text → read_text_from_file file_path w = (inr (Some text), w)))
  ∧ (Utf8.decode_bytes content = None →
     (read_text_from_file file_path w).1 = inr None).
Proof.
  intros Hext Hfile.
  rewrite read_text_from_file_existing by eauto. simpl.
  rewrite (format_class_verbatim _ Hext).
  unfold try_except, read_verbatim, bind. rewrite (open_r_file _ _ _ Hfile).
  split.
  - intros text Hdec. rewrite (TextIO_read_text _ _ _ Hdec). split; [done|].
    intros Hcr. by rewrite universal_newlines_id.
  - intros Hdec. destruct (TextIO_read_undecodable content w Hdec) as [e ->].
    by rewrite read_failed_run, stdout_open.
Qed.

End verbatim_files.

Lemma read_text_verbatim_witness :
  @read_text_from_file sample_platform (@sample_runtime sample_platform None) (py "notes.txt") sample_world
  = (inr (Some (py "hello")), sample_world).
Proof.
  assert ((os_path.splitext (py "notes.txt")).2 ∈ TEXT_EXTS ++ [py ".html"; py ".htm"])
    as Hext by (vm_compute; constructor).
  destruct (@read_text_verbatim sample_platform (λ _, eq_refl)
              (@sample_runtime sample_platform None) (py "notes.txt") sample_world
              (bytes_of "hello") Hext) as [Hok _]; [by vm_compute|].
  destruct (Hok (py "hello")) as [_ Hsame]; [by vm_compute|].
  apply Hsame. vm_compute. intros Hin.
  repeat (apply elem_of_cons in Hin as [Heq|Hin]; [discriminate Heq|]).
  by apply elem_of_nil in Hin.
Defined.

Lemma quiet_ret {A} (a : A) : quiet (ret a).
Proof. by intros w. Qed.

Lemma quiet_raise {A} (e : exn) : quiet (raise (A := A) e).
Proof. by intros w. Qed.

Lemma quiet_lift {A} (r : exn + A) : quiet (lift r).
Proof. by destruct r; intros w. Qed.

Lemma quiet_get_files : quiet get_files.
Proof. by intros w. Qed.

Lemma quiet_bind {A B} (m : M A) (k : A → M B) :
  quiet m → (∀ a, quiet (k a)) → quiet (bind m k).
Proof.
  intros Hm Hk w. unfold bind. specialize (Hm w).
  destruct (m w) as [[e|a] w1]; simpl in *; subst; [done|]. apply Hk.
Qed.

Lemma quiet_exists (p : str) : quiet (os_path_exists p).
Proof. by intros w. Qed.

Lemma quiet_read_bytes (p : str) : quiet (read_bytes p).
Proof.
  intros w. unfold read_bytes, bind, get_files. simpl.
  by destruct (files w !! p) as [[c []|?]|].
Qed.

Lemma quiet_open_r (p : str) : quiet (open_r p).
Proof. apply quiet_bind; [apply quiet_read_bytes|]. intros a. apply quiet_ret. Qed.

Lemma quiet_TextIO_read (f : TextIOWrapper) : quiet (TextIO_read f).
Proof. intros w. unfold TextIO_read. by destruct (Utf8.decode_bytes _). Qed.

Lemma quiet_TextIO_lines (f : TextIOWrapper) : quiet (TextIO_lines f).
Proof. apply quiet_bind; [apply quiet_TextIO_read|]. intros a. apply quiet_ret. Qed.

Lemma clean_ret_Some (text : str) : clean (ret (Some text)).
Proof. by intros w. Qed.

Lemma clean_bind {A} (m : M A) (k : A → M (option str)) :
  quiet m → (∀ a, clean (k a)) → clean (bind m k).
Proof.
  intros Hm Hk w. unfold bind. specialize (Hm w).
  destruct (m w) as [[e|a] w1]; simpl in *; subst; [done|]. apply Hk.
Qed.

Lemma diagnosed_clean (m : M (option str)) : clean m → diagnosed m.
Proof.
  intros Hm w. destruct (Hm w) as [Hw Hr].
  destruct (m w) as [[e|[text|]] w']; simpl in *; done.
Qed.

Lemma diagnosed_print `{Platform} (line : str) : diagnosed (print line ;; ret None).
Proof.
  intros w. rewrite print_then_ret.
  destruct (stdout_refuses line); [done|by exists line].
Qed.

Lemma diagnosed_try_except (body : M (option str)) (handler : exn → M (option str)) :
  diagnosed body → (∀ e, diagnosed (handler e)) →
  diagnosed (try_except body handler).
Proof.
  intros Hbody Hh w. unfold try_except. specialize (Hbody w).
  destruct (body w) as [[e|r] w']; [|done]. subst w'. apply Hh.
Qed.

Lemma diagnosed_bind {A} (m : M A) (k : A → M (option str)) :
  quiet m → (∀ a, diagnosed (k a)) → diagnosed (bind m k).
Proof.
  intros Hm Hk w. unfold bind. specialize (Hm w).
  destruct (m w) as [[e|a] w1]; simpl in *; subst; [done|]. apply Hk.
Qed.

Lemma diagnosed_if (b : bool) (m1 m2 : M (option str)) :
  diagnosed m1 → diagnosed m2 → diagnosed (if b then m1 else m2).
Proof. by destruct b. Qed.

Create HintDb quiet discriminated.
#[export] Hint Resolve quiet_ret quiet_raise quiet_lift quiet_get_files
  quiet_exists quiet_read_bytes quiet_open_r quiet_TextIO_read
  quiet_TextIO_lines clean_ret_Some diagnosed_print diagnosed_if : quiet.
#[export] Hint Extern 2 (quiet (bind _ _)) =>
  apply quiet_bind; [|intros ?] : quiet.
#[export] Hint Extern 2 (clean (bind _ _)) =>
  apply clean_bind; [|intros ?] : quiet.
#[export] Hint Extern 3 (diagnosed (try_except _ _)) =>
  apply diagnosed_try_except; [apply diagnosed_clean|intros ?] : quiet.

Section reader_diagnostics.
Context `{Platform} `{Libraries}.

Lemma diagnosed_dispatch (file_path file_ext : str) :
  diagnosed (dispatch file_path file_ext).
Proof.
  unfold dispatch, read_verbatim, read_json, json_load, read_xml,
    read_delimited, read_excel, read_word, read_yaml, unsupported.
  repeat apply diagnosed_if.
  all: lazymatch goal with
       | |- diagnosed (try_except _ _) =>
           apply diagnosed_try_except; [apply diagnosed_clean|intros e]
       | |- diagnosed (bind (print _) _) => apply diagnosed_print
       | |- _ => apply diagnosed_clean
       end.
  all: try (by auto 12 with quiet).
  all: try (by destruct (is_ImportError e); auto with quiet).
  apply clean_bind; [|auto 12 with quiet].
  unfold import_yaml. destruct yaml; auto with quiet.
Qed.

Lemma diagnosed_read_text_body (file_path : str) :
  diagnosed (read_text_body file_path).
Proof.
  unfold read_text_body. apply diagnosed_bind; [apply quiet_exists|].
  intros found. destruct (negb found).
  - apply diagnosed_print.
  - apply diagnosed_dispatch.
Qed.

End reader_diagnostics.

(** X5: every call of [read_text_from_file] leaves the file system as it
    is.  When it returns a text it has printed nothing, when it returns
    [None] it has printed exactly one line, and when it raises it has
    printed nothing and the exception is the one that standard output
    raised for the line of the outer handler. *)
Theorem read_text_from_file_diagnoses `{Platform} `{Libraries}
    (file_path : str) (w : world) :
  match read_text_from_file file_path w with
  | (inr (Some _), w') => w' = w
  | (inr None, w') => ∃ line, w' = World (files w) (stdout w ++ [line])
  | (inl e, w') =>
      w' = w ∧ ∃ e0, stdout_refuses (py "读取文件失败: " ++ exn_str e0) = Some e
  end.
Proof.
  pose proof (diagnosed_read_text_body file_path w) as Hbody.
  unfold read_text_from_file, try_except.
  destruct (read_text_body file_path w) as [[e0|[text|]] w']; [|done..].
  subst w'. rewrite read_failed_run.
  destruct (stdout_refuses _) as [e|] eqn:Hline; [|by eexists].
  split; [done|]. by exists e0.
Qed.

Lemma read_bytes_refused (p : str) (w : world) (entry : node) :
  files w !! p = Some entry →
  match entry with Dir _ => True | File _ readable => readable = false end →
  ∃ e, read_bytes p w = (inl e, w).
Proof.
  intros Hentry Hno. unfold read_bytes, bind, get_files. simpl. rewrite Hentry.
  destruct entry as [c r|d]; [subst r|]; by eexists.
Qed.

(** The extensions that are handed to pandas and python-docx. *)
Lemma format_class_library (file_ext : str) :
  format_class file_ext ∈ [Spreadsheet; Document] →
  file_ext ∈ [py ".xlsx"; py ".xls"; py ".docx"; py ".doc"].
Proof.
  unfold format_class.
  destruct (list_find _ MAPPING_TABLE) as [[i [e c]]|] eqn:Hfind.
  - apply list_find_Some in Hfind as (Hlook & Heq & _). simpl in Heq. subst e.
    apply list_elem_of_lookup_2 in Hlook. intros Hc.
    unfold MAPPING_TABLE in Hlook.
    repeat (apply elem_of_cons in Hlook as [Heq|Hlook];
            [injection Heq as -> ->;
             first [ by repeat (apply elem_of_cons in Hc as [Hc|Hc]; [discriminate Hc|]);
                        apply elem_of_nil in Hc
                   | set_solver ]|]).
    by apply elem_of_nil in Hlook.
  - intros Hc.
    repeat (apply elem_of_cons in Hc as [Hc|Hc]; [discriminate Hc|]).
    by apply elem_of_nil in Hc.
Qed.

Section refused_entries.
Context `{Platform} `{Libraries}.

(** A decoder that opens the file itself raises or prints its own line when
    the entry cannot be read: it returns no text. *)
Lemma decoder_refused (file_path file_ext : str) (w : world) (e : exn) :
  read_bytes file_path w = (inl e, w) →
  format_class file_ext ∉ [Spreadsheet; Document] →
  ∀ out w', decoder (format_class file_ext) file_path file_ext w
            ≠ (inr (Some out), w').
Proof.
  intros He Hc out w'.
  destruct (format_class file_ext); cbn [decoder];
    try (exfalso; apply Hc; set_solver);
    unfold try_except, read_verbatim, read_json, read_xml, read_delimited,
      read_yaml, import_yaml, unsupported, open_r, try_except, bind;
    rewrite ?He; try done.
  - destruct yaml; cbn beta iota delta [ret raise]; rewrite ?He; cbn beta iota;
      match goal with
      | |- context [is_ImportError ?x] =>
          destruct (is_ImportError x); unfold print;
          by destruct (stdout_refuses _)
      end.
  - unfold print. by destruct (stdout_refuses _).
Qed.

End refused_entries.

(** X6: an entry that is a directory, or a file the process may not read,
    gives [None] for every extension that [read_text_from_file] opens
    itself (all but those handed to pandas and python-docx) and whatever the
    other libraries do, as long as standard output takes the line of the
    outer handler. *)
Theorem read_text_from_file_refused `{Platform} `{Libraries}
    (file_path : str) (w : world) (entry : node) :
  files w !! file_path = Some entry →
  match entry with Dir _ => True | File _ readable => readable = false end →
  (os_path.splitext file_path).2 ∉ [py ".xlsx"; py ".xls"; py ".docx"; py ".doc"] →
  (∀ e, stdout_refuses (py "读取文件失败: " ++ exn_str e) = None) →
  (read_text_from_file file_path w).1 = inr None.
Proof.
  intros Hentry Hno Hext Houter.
  destruct (read_bytes_refused _ _ _ Hentry Hno) as [e He].
  rewrite read_text_from_file_existing by eauto. simpl.
  pose proof (decoder_refused file_path (os_path.splitext file_path).2 w e He) as Hdec.
  unfold try_except.
  destruct (decoder _ _ _ w) as [[e'|[out|]] w'] eqn:Hrun.
  - by rewrite read_failed_run, Houter.
  - exfalso. eapply Hdec; [|done]. intros Hc. by apply Hext, format_class_library.
  - done.
Qed.

Lemma read_text_from_file_refused_witness :
  (@read_text_from_file sample_platform (@sample_runtime sample_platform None)
     (py "docs.txt") sample_world).1 = inr None
  ∧ (@read_text_from_file sample_platform
       (@sample_runtime sample_platform (Some echo_yaml))
       (py "secret.txt") sample_world).1 = inr None.
Proof.
  split.
  - apply (@read_text_from_file_refused sample_platform
             (@sample_runtime sample_platform None) (py "docs.txt")
             sample_world (Dir true)); [by vm_compute|done| |done].
    vm_compute. intros Hin.
    repeat (apply elem_of_cons in Hin as [Heq|Hin]; [discriminate Heq|]).
    by apply elem_of_nil in Hin.
  - apply (@read_text_from_file_refused sample_platform
             (@sample_runtime sample_platform (Some echo_yaml))
             (py "secret.txt") sample_world (File (bytes_of "hidden") false));
      [by vm_compute|done| |done].
    vm_compute. intros Hin.
    repeat (apply elem_of_cons in Hin as [Heq|Hin]; [discriminate Heq|]).
    by apply elem_of_nil in Hin.
Defined.
(** ** More on delete and restore *)

Section delete_then_restore.
Context `{Platform}.

(** X7: restoring a path right after deleting it does not bring the file
    back: the path then holds an empty file, whatever the deleted file
    held. *)
Theorem restore_after_delete_is_empty
    (p : str) (permanent : bool) (w w1 : world) :
  pathlib.Path p = p →
  delete_file p permanent w = (inr true, w1) →
  restore_file_from_recycle_bin p w1
  = (inr true, World (<[p := File [] true]> (files w)) (stdout w)).
Proof.
  intros Hp Hdel.
  destruct (delete_file_success _ _ _ _ Hdel)
    as ((c & r & Hfile) & Hparent & Hchange & ->).
  assert (parent p ≠ p) as Hne by (intros Heq; congruence).
  rewrite restore_run, Path_touch_run, Hp, Hchange. simpl.
  rewrite lookup_delete_eq, lookup_delete_ne, Hparent by done.
  by rewrite insert_delete_eq.
Qed.

(** X8: when nothing existed at [p], a path spelled as [pathlib] spells it,
    deleting [p] right after a restore that succeeded undoes the restore:
    the world is as before. *)
Theorem delete_after_restore_undoes
    (p : str) (permanent : bool) (w w1 : world) :
  pathlib.Path p = p →
  files w !! p = None →
  restore_file_from_recycle_bin p w = (inr true, w1) →
  delete_file p permanent w1 = (inr true, w).
Proof.
  intros Hp Hnone. rewrite restore_run, Path_touch_run, Hp.
  destruct (change_refused p) eqn:Hchange;
    [by intros [[=] _]%failure_line_run|].
  rewrite Hnone.
  destruct (files w !! parent p) as [[c r|[]]|] eqn:Hparent;
    try (by intros [[=] _]%failure_line_run).
  intros [= <-].
  assert (parent p ≠ p) as Hne by (intros Heq; congruence).
  rewrite (delete_file_succeeds p permanent _ [] true); simpl.
  - rewrite delete_insert_eq, delete_id by done. by destruct w.
  - by rewrite lookup_insert_eq.
  - by rewrite lookup_insert_ne.
  - done.
Qed.

End delete_then_restore.

Lemma restore_after_delete_is_empty_witness :
  @delete_file sample_platform (py "notes.txt") false sample_world
  = (inr true, World (delete (py "notes.txt") sample_files) [])
  ∧ @restore_file_from_recycle_bin sample_platform (py "notes.txt")
      (World (delete (py "notes.txt") sample_files) [])
    = (inr true, World (<[py "notes.txt" := File [] true]> sample_files) [])
  ∧ sample_files !! py "notes.txt" = Some (File (bytes_of "hello") true).
Proof.
  assert (@delete_file sample_platform (py "notes.txt") false sample_world
          = (inr true, World (delete (py "notes.txt") sample_files) [])) as Hdel
    by (by vm_compute).
  split; [exact Hdel|]. split; [|by vm_compute].
  apply (@restore_after_delete_is_empty sample_platform (py "notes.txt") false
           sample_world); [by vm_compute|exact Hdel].
Defined.

Lemma delete_after_restore_undoes_witness :
  @delete_file sample_platform (py "new.txt") true
    (World (<[py "new.txt" := File [] true]> sample_files) [])
  = (inr true, sample_world).
Proof.
  apply (@delete_after_restore_undoes sample_platform (py "new.txt") true
           sample_world); by vm_compute.
Defined.

(** X9: [restore_file_from_recycle_bin] returns [True] exactly when the
    platform accepts the path, as [pathlib] spells it, and either something
    exists there or its parent is a directory that accepts new entries.  In
    every other case the file system is left as it is: the function returns
    [False] after one printed line, or raises what [print] raised. *)
Theorem restore_succeeds_exactly_when `{Platform} (file_path : str) (w : world) :
  let p := pathlib.Path file_path in
  let run := restore_file_from_recycle_bin file_path w in
  (run.1 = inr true
   ↔ change_refused p = None
     ∧ (is_Some (files w !! p) ∨ files w !! parent p = Some (Dir true)))
  ∧ (run.1 ≠ inr true → files run.2 = files w)
  ∧ (run.1 = inr false → ∃ line, run.2 = World (files w) (stdout w ++ [line]))
  ∧ (∀ e, run.1 = inl e → run.2 = w ∧ ∃ line, stdout_refuses line = Some e).
Proof.
  intros p run.
  assert (∀ e0 : exn,
            Path_touch file_path w = (inl e0, w) →
            ¬ (change_refused p = None
               ∧ (is_Some (files w !! p) ∨ files w !! parent p = Some (Dir true))) →
            (run.1 = inr true
             ↔ change_refused p = None
               ∧ (is_Some (files w !! p) ∨ files w !! parent p = Some (Dir true)))
            ∧ (run.1 ≠ inr true → files run.2 = files w)
            ∧ (run.1 = inr false
               → ∃ line, run.2 = World (files w) (stdout w ++ [line]))
            ∧ (∀ e, run.1 = inl e → run.2 = w ∧ ∃ line, stdout_refuses line = Some e))
    as Hfail.
  { intros e0 Htouch Hnot. unfold run. rewrite restore_run, Htouch, print_then_ret.
    destruct (stdout_refuses _) as [e'|] eqn:Hline; simpl.
    - split; [split; [done|by intros ?]|]. split; [done|]. split; [done|].
      intros e [= <-]. by eauto.
    - split; [split; [done|by intros ?]|]. split; [done|].
      split; [by eauto|done]. }
  pose proof (Path_touch_run file_path w) as Htouch. simpl in Htouch. fold p in Htouch.
  destruct (change_refused p) as [e0|] eqn:Hchange.
  { apply (Hfail e0 Htouch). by intros [[=] _]. }
  destruct (files w !! p) as [n|] eqn:Hp.
  { unfold run. rewrite restore_run, Htouch. simpl.
    split; [split; [by eauto|done]|]. by repeat split. }
  destruct (files w !! parent p) as [[c r|[]]|] eqn:Hparent.
  - apply (Hfail _ Htouch). by intros [_ [[? [=]]|[=]]].
  - unfold run. rewrite restore_run, Htouch. simpl.
    split; [split; [by eauto|done]|]. by repeat split.
  - apply (Hfail _ Htouch). by intros [_ [[? [=]]|[=]]].
  - apply (Hfail _ Htouch). by intros [_ [[? [=]]|[=]]].
Qed.

(** For a standard output that takes every line. *)
Section delete_again.
Context `{Platform}.
Hypothesis stdout_open : ∀ line, stdout_refuses line = None.

(** X10: a successful delete cannot be repeated: the second call finds nothing
    and returns [False], having printed one line, which standard output
    takes, and changed nothing. *)
Theorem delete_file_twice (p : str) (first second : bool) (w w1 : world) :
  delete_file p first w = (inr true, w1) →
  ∃ line,
    delete_file p second w1 = (inr false, World (files w1) (stdout w1 ++ [line])).
Proof.
  intros Hdel.
  destruct (delete_file_success _ _ _ _ Hdel) as (_ & _ & Hchange & ->).
  rewrite delete_file_run, os_unlink_run, Hchange. simpl.
  rewrite lookup_delete_eq, print_then_ret, stdout_open. by eexists.
Qed.

End delete_again.

Lemma delete_file_twice_witness :
  ∃ line,
    @delete_file sample_platform (py "notes.txt") true
      (World (delete (py "notes.txt") sample_files) [])
    = (inr false, World (delete (py "notes.txt") sample_files) ([] ++ [line])).
Proof.
  apply (@delete_file_twice sample_platform (λ _, eq_refl) (py "notes.txt") false
           true sample_world). by vm_compute.
Defined.
(** ** More on paths and batches *)

Lemma rfind_from_spec (c : char) (s : str) (i : Z) :
  0 ≤ i →
  ((c ∉ s) ∧ rfind_from i s c = -1)
  ∨ (∃ a b, s = a ++ c :: b ∧ (c ∉ b) ∧ rfind_from i s c = i + Z.of_nat (length a)).
Proof.
  revert i. induction s as [|x r IH]; intros i Hi.
  - left. split; [apply not_elem_of_nil|done].
  - simpl. destruct (IH (i + 1)) as [[Hnot ->]|(a & b & -> & Hb & ->)]; [lia|..].
    + simpl. destruct (N.eqb_spec x c) as [->|Hx].
      * right. exists [], r. simpl. split; [done|]. split; [done|lia].
      * left. split; [|done]. by apply not_elem_of_cons.
    + right. exists (x :: a), b. split; [done|]. split; [done|].
      destruct (Z.leb_spec 0 (i + 1 + Z.of_nat (length a))); simpl length; lia.
Qed.

Lemma basename_spec (p : str) :
  ∃ head, p = head ++ os_path.basename p
          ∧ (SLASH ∉ os_path.basename p)
          ∧ (head = [] ∨ last head = Some SLASH).
Proof.
  unfold os_path.basename, slice_from, rfind, os_path.sep.
  destruct (rfind_from_spec SLASH p 0) as [[Hnot ->]|(a & b & -> & Hb & ->)]; [lia|..].
  - exists []. simpl. by repeat split; [|left].
  - exists (a ++ [SLASH]).
    replace (Z.to_nat (0 + Z.of_nat (length a) + 1)) with (length (a ++ [SLASH]))
      by (rewrite length_app; simpl; lia).
    assert (drop (length (a ++ [SLASH])) (a ++ SLASH :: b) = b) as ->.
    { replace (a ++ SLASH :: b) with ((a ++ [SLASH]) ++ b)
        by (by rewrite <- app_assoc).
      apply drop_app_length. }
    split; [by rewrite <- app_assoc|]. split; [done|].
    right. by rewrite last_snoc.
Qed.

Lemma basename_after_sep (x b : str) :
  SLASH ∉ b → os_path.basename (x ++ SLASH :: b) = b.
Proof.
  intros Hb. unfold os_path.basename, slice_from, rfind, os_path.sep.
  destruct (rfind_from_spec SLASH (x ++ SLASH :: b) 0)
    as [[Hnot _]|(a & b' & Heq & Hb' & ->)]; [lia|..].
  { exfalso. apply Hnot, elem_of_app. right. by left. }
  assert (a = x ∧ b' = b) as [-> ->].
  { clear -Heq Hb Hb'. revert a Heq. induction x as [|y x IH]; intros a Heq.
    - destruct a as [|z a]; simpl in *; [by injection Heq|].
      injection Heq as <- ->. exfalso. apply Hb, elem_of_app. right. by left.
    - destruct a as [|z a]; simpl in *.
      + injection Heq as -> <-. exfalso. apply Hb', elem_of_app. right. by left.
      + injection Heq as -> Heq. by destruct (IH a Heq) as [-> ->]. }
  replace (Z.to_nat (0 + Z.of_nat (length x) + 1)) with (length (x ++ [SLASH]))
    by (rewrite length_app; simpl; lia).
  replace (x ++ SLASH :: b) with ((x ++ [SLASH]) ++ b)
    by (by rewrite <- app_assoc).
  apply drop_app_length.
Qed.

Lemma basename_no_sep (b : str) : SLASH ∉ b → os_path.basename b = b.
Proof.
  intros Hb. unfold os_path.basename, slice_from, rfind, os_path.sep.
  destruct (rfind_from_spec SLASH b 0) as [[_ ->]|(a & b' & -> & _ & _)]; [lia|done|].
  exfalso. apply Hb, elem_of_app. right. by left.
Qed.

(** X11: the destination that the batch tools compute for a source is the
    destination directory, one separator unless the directory is empty or
    already ends with one, and the base name of the source; that name holds
    no separator, and it is the base name of the destination. *)
Theorem batch_destination (dst_dir src : str) :
  let name := os_path.basename src in
  let dst := os_path.join dst_dir name in
  (SLASH ∉ name)
  ∧ dst = dst_dir
          ++ (if bool_decide (dst_dir = []) || endswith dst_dir SLASH
              then [] else [SLASH])
          ++ name
  ∧ os_path.basename dst = name.
Proof.
  intros name dst.
  destruct (basename_spec src) as (head & _ & Hname & _). fold name in Hname.
  assert (startswith name os_path.sep = false) as Hstart.
  { destruct name as [|c name']; [done|]. simpl.
    apply N.eqb_neq. intros ->. apply Hname. by left. }
  split; [done|]. subst dst. unfold os_path.join. rewrite Hstart.
  case_bool_decide as Hempty; simpl.
  - subst dst_dir. split; [done|]. by apply basename_no_sep.
  - unfold os_path.sep. destruct (endswith dst_dir SLASH) eqn:Hend.
    + split; [done|]. unfold endswith in Hend.
      destruct (last dst_dir) as [x|] eqn:Hlast; [|done].
      apply N.eqb_eq in Hend as ->.
      apply last_Some in Hlast as [d' ->]. rewrite <- app_assoc. simpl.
      by apply basename_after_sep.
    + split; [done|]. by apply basename_after_sep.
Qed.

Section batch_composition.
Context `{Platform} `{Libraries}.

Lemma for_in_app {A S} (xs ys : list A) (body : A → S → M S) (s : S) (w : world) :
  for_in (xs ++ ys) body s w
  = match for_in xs body s w with
    | (inr s1, w1) => for_in ys body s1 w1
    | (inl e, w1) => (inl e, w1)
    end.
Proof.
  revert s w. induction xs as [|x xs IH]; intros s w; [done|].
  simpl. unfold bind. destruct (body x s w) as [[e|s1] w1]; [done|].
  apply IH.
Qed.

Lemma batch_step_acc (op : str → str → M bool) (dst_dir : str)
    (xs : list str) (acc : list bool) (w : world) :
  for_in xs (batch_step op dst_dir) acc w
  = match for_in xs (batch_step op dst_dir) [] w with
    | (inr results, w1) => (inr (acc ++ results), w1)
    | (inl e, w1) => (inl e, w1)
    end.
Proof.
  revert acc w. induction xs as [|x xs IH]; intros acc w.
  - simpl. unfold ret. by rewrite app_nil_r.
  - simpl. unfold bind, batch_step. unfold bind.
    destruct (op x _ w) as [[e|b] w1]; [done|]. simpl.
    fold (batch_step op dst_dir).
    rewrite (IH (acc ++ [b])), (IH ([] ++ [b])).
    destruct (for_in xs _ [] w1) as [[e|rs] w2]; [done|].
    by rewrite <- app_assoc.
Qed.

End batch_composition.

(** For a standard output that takes every line, so that every batch
    returns. *)
Section split_batches.
Context `{Platform}.
Hypothesis stdout_open : ∀ line, stdout_refuses line = None.

(** X12: when standard output takes every line, a batch over [xs ++ ys] is
    the batch over [xs] followed by the batch over [ys] in the world the
    first one leaves: the flags are concatenated.  So splitting a batch into
    two calls changes nothing. *)
Theorem batch_splits `{Libraries}
    (xs ys : list str) (dst_dir : str) (w : world) :
  (∃ r1 w1 r2 w2,
      batch_copy_files xs dst_dir w = (inr r1, w1)
      ∧ batch_copy_files ys dst_dir w1 = (inr r2, w2)
      ∧ batch_copy_files (xs ++ ys) dst_dir w = (inr (r1 ++ r2), w2))
  ∧ (∃ r1 w1 r2 w2,
      batch_move_files xs dst_dir w = (inr r1, w1)
      ∧ batch_move_files ys dst_dir w1 = (inr r2, w2)
      ∧ batch_move_files (xs ++ ys) dst_dir w = (inr (r1 ++ r2), w2)).
Proof.
  split.
  - destruct (batch_loop_returns copy_file dst_dir
                (λ s d, copy_file_returns s d stdout_open) xs [] w)
      as (r1 & w1 & Hx).
    destruct (batch_loop_returns copy_file dst_dir
                (λ s d, copy_file_returns s d stdout_open) ys [] w1)
      as (r2 & w2 & Hy).
    exists r1, w1, r2, w2. split; [exact Hx|]. split; [exact Hy|].
    unfold batch_copy_files.
    change (for_in (xs ++ ys) (batch_step copy_file dst_dir) [] w = (inr (r1 ++ r2), w2)).
    rewrite for_in_app, Hx. simpl. by rewrite batch_step_acc, Hy.
  - destruct (batch_loop_returns move_file dst_dir
                (λ s d, move_file_returns s d stdout_open) xs [] w)
      as (r1 & w1 & Hx).
    destruct (batch_loop_returns move_file dst_dir
                (λ s d, move_file_returns s d stdout_open) ys [] w1)
      as (r2 & w2 & Hy).
    exists r1, w1, r2, w2. split; [exact Hx|]. split; [exact Hy|].
    unfold batch_move_files.
    change (for_in (xs ++ ys) (batch_step move_file dst_dir) [] w = (inr (r1 ++ r2), w2)).
    rewrite for_in_app, Hx. simpl. by rewrite batch_step_acc, Hy.
Qed.

End split_batches.

Lemma batch_splits_witness :
  (∃ r1 w1 r2 w2,
      @batch_copy_files sample_platform (@sample_runtime sample_platform None)
        [py "notes.txt"] (py "docs") sample_world
      = (inr r1, w1)
      ∧ @batch_copy_files sample_platform (@sample_runtime sample_platform None)
        [py "missing.txt"] (py "docs") w1
        = (inr r2, w2)
      ∧ @batch_copy_files sample_platform (@sample_runtime sample_platform None)
          ([py "notes.txt"] ++ [py "missing.txt"])
          (py "docs") sample_world
        = (inr (r1 ++ r2), w2))
  ∧ (∃ r1 w1 r2 w2,
      @batch_move_files sample_platform (@sample_runtime sample_platform None)
        [py "notes.txt"] (py "docs") sample_world
      = (inr r1, w1)
      ∧ @batch_move_files sample_platform (@sample_runtime sample_platform None)
        [py "missing.txt"] (py "docs") w1
        = (inr r2, w2)
      ∧ @batch_move_files sample_platform (@sample_runtime sample_platform None)
          ([py "notes.txt"] ++ [py "missing.txt"])
          (py "docs") sample_world
        = (inr (r1 ++ r2), w2)).
Proof.
  exact (@batch_splits sample_platform (λ _, eq_refl)
           (@sample_runtime sample_platform None)
           [py "notes.txt"] [py "missing.txt"] (py "docs") sample_world).
Defined.

Lemma drop_after {A} (a b : list A) (c : A) : drop (S (length a)) (a ++ c :: b) = b.
Proof. induction a as [|x a IH]; [done|]. apply IH. Qed.

Lemma splitext_loop_result (n : nat) (p : str) (f d : Z) (r : str * str) :
  os_path.splitext_loop n p f d = Some r → r = (slice_to p d, slice_from p d).
Proof.
  revert f. induction n as [|n IH]; intros f; simpl; [done|].
  destruct (f <? d); [|done]. case_bool_decide; [by intros [= <-]|apply IH].
Qed.

(** X13: the extension on which the reader dispatches, as [os.path.splitext]
    cuts it, is empty or is a dot followed by characters among which there
    is neither a dot nor a separator; and root and extension put together
    give the path back. *)
Theorem splitext_shape (p : str) :
  (os_path.splitext p).1 ++ (os_path.splitext p).2 = p
  ∧ ((os_path.splitext p).2 = []
     ∨ ∃ e, (os_path.splitext p).2 = DOT :: e ∧ (DOT ∉ e) ∧ (SLASH ∉ e)).
Proof.
  unfold os_path.splitext, rfind, os_path.sep, os_path.extsep.
  destruct (rfind_from 0 p SLASH <? rfind_from 0 p DOT) eqn:Hlt;
    [|simpl; split; [by rewrite app_nil_r|by left]].
  destruct (os_path.splitext_loop _ _ _ _) as [r|] eqn:Hloop;
    [|simpl; split; [by rewrite app_nil_r|by left]].
  apply splitext_loop_result in Hloop as ->. simpl.
  unfold slice_to, slice_from. split; [apply take_drop|]. right.
  apply Z.ltb_lt in Hlt.
  destruct (rfind_from_spec DOT p 0) as [[_ Hd]|(a & b & Hp & Hb & Hd)]; [lia|..].
  { destruct (rfind_from_spec SLASH p 0) as [[_ Hs]|(a' & b' & _ & _ & Hs)]; lia. }
  rewrite Hd.
  replace (Z.to_nat (0 + Z.of_nat (length a))) with (length a) by lia.
  exists b. split; [by rewrite Hp, drop_app_length|]. split; [done|].
  destruct (rfind_from_spec SLASH p 0) as [[Hs _]|(a' & b' & Hp' & Hb' & Hs)]; [lia|..].
  { intros Hin. apply Hs. rewrite Hp. apply elem_of_app. right. by right. }
  rewrite Hs, Hd in Hlt.
  assert (b = drop (length a - length a') b') as ->.
  { assert (drop (S (length a)) p = b) as <- by (rewrite Hp; apply drop_after).
    assert (drop (S (length a')) p = b') as <- by (rewrite Hp'; apply drop_after).
    rewrite drop_drop. f_equal. lia. }
  intros Hin. apply Hb'.
  rewrite <- (take_drop (length a - length a') b'). apply elem_of_app. by right.
Qed.

Lemma split_at_last_unique {A} (c : A) (a a' b b' : list A) :
  a ++ c :: b = a' ++ c :: b' → c ∉ b → c ∉ b' → a = a' ∧ b = b'.
Proof.
  intros Heq Hb Hb'. revert a' Heq. induction a as [|y a IH]; intros a' Heq.
  - destruct a' as [|z a']; simpl in *; [by injection Heq|].
    injection Heq as <- ->. exfalso. apply Hb, elem_of_app. right. by left.
  - destruct a' as [|z a']; simpl in *.
    + injection Heq as -> <-. exfalso. apply Hb', elem_of_app. right. by left.
    + injection Heq as -> Heq. by destruct (IH a' Heq) as [-> ->].
Qed.

Lemma rfind_last (c : char) (a b : str) :
  c ∉ b → rfind (a ++ c :: b) c = Z.of_nat (length a).
Proof.
  intros Hb. unfold rfind.
  destruct (rfind_from_spec c (a ++ c :: b) 0)
    as [[Hnot _]|(a' & b' & Heq & Hb' & ->)]; [lia|..].
  { exfalso. apply Hnot, elem_of_app. right. by left. }
  destruct (split_at_last_unique _ _ _ _ _ Heq Hb Hb') as [-> _]. lia.
Qed.

Lemma rfind_none (c : char) (s : str) : c ∉ s → rfind s c = -1.
Proof.
  intros Hs. unfold rfind.
  destruct (rfind_from_spec c s 0) as [[_ ->]|(a & b & -> & _ & _)]; [lia|done|].
  exfalso. apply Hs, elem_of_app. right. by left.
Qed.

Lemma splitext_loop_found (n : nat) (p : str) (f d k : Z) (c : char) :
  0 ≤ f → f ≤ k < d → p !! Z.to_nat k = Some c → c ≠ DOT →
  (Z.to_nat (d - f) ≤ n)%nat →
  os_path.splitext_loop n p f d = Some (slice_to p d, slice_from p d).
Proof.
  revert f. induction n as [|n IH]; intros f Hf Hk Hc Hdot Hn; [lia|].
  simpl. destruct (Z.ltb_spec f d); [|lia].
  case_bool_decide as Hhead; [done|].
  apply IH; try done; try lia.
  destruct (decide (k = f)) as [->|]; [|lia].
  exfalso. apply Hdot. rename Hhead into Heq.
  unfold slice, slice_to, slice_from, os_path.extsep in Heq.
  apply (f_equal (λ l, l !! 0%nat)) in Heq. simpl in Heq.
  rewrite lookup_take_lt, lookup_drop, Nat.add_0_r, Hc in Heq by lia.
  by injection Heq.
Qed.

Lemma splitext_loop_dots (n : nat) (p : str) (f d : Z) :
  0 ≤ f →
  (∀ k, (Z.to_nat f ≤ k < Z.to_nat d)%nat → p !! k = Some DOT) →
  os_path.splitext_loop n p f d = None.
Proof.
  revert f. induction n as [|n IH]; intros f Hf Hdots; [done|].
  simpl. destruct (Z.ltb_spec f d); [|done].
  assert (slice p f (f + 1) = [os_path.extsep]) as ->.
  { unfold slice, slice_to, slice_from, os_path.extsep.
    replace (Z.to_nat (f + 1 - f)) with 1%nat by lia.
    assert (p !! Z.to_nat f = Some DOT) as Hhere by (apply Hdots; lia).
    apply list_elem_of_split_length in Hhere as (a & b & -> & Hlen).
    rewrite Hlen, drop_app_length. done. }
  rewrite bool_decide_eq_false_2 by (by intros []).
  apply IH; [lia|]. intros k Hk. apply Hdots. lia.
Qed.

Lemma splitext_last_dot (stem e : str) :
  DOT ∉ e → SLASH ∉ e →
  os_path.splitext (stem ++ DOT :: e)
  = if bool_decide (Forall (λ c, c = DOT) (os_path.basename stem))
    then (stem ++ DOT :: e, [])
    else (stem, DOT :: e).
Proof.
  intros Hdot Hsep.
  destruct (basename_spec stem) as (head & Hstem & Hbn & Hhead).
  set (bn := os_path.basename stem) in *. clearbody bn. subst stem.
  assert (rfind ((head ++ bn) ++ DOT :: e) SLASH = Z.of_nat (length head) - 1) as Hs.
  { destruct Hhead as [->|Hlast].
    - simpl. rewrite rfind_none; [done|].
      rewrite elem_of_app, elem_of_cons. by intros [?|[?|?]].
    - destruct head as [|x head _] using rev_ind; [done|].
      rewrite last_snoc in Hlast. injection Hlast as ->.
      rewrite <- !app_assoc. simpl. rewrite rfind_last.
      + rewrite length_app. simpl. lia.
      + rewrite elem_of_app, elem_of_cons. by intros [?|[?|?]]. }
  unfold os_path.splitext. fold os_path.sep os_path.extsep.
  unfold os_path.sep, os_path.extsep.
  rewrite Hs, (rfind_last DOT _ _ Hdot).
  destruct (Z.ltb_spec (Z.of_nat (length head) - 1) (Z.of_nat (length (head ++ bn))))
    as [_|Hle]; [|rewrite length_app in Hle; lia].
  replace (Z.of_nat (length head) - 1 + 1) with (Z.of_nat (length head)) by lia.
  case_bool_decide as Hall.
  - rewrite splitext_loop_dots; [done|lia|].
    intros k Hk. rewrite length_app in Hk.
    rewrite <- app_assoc, lookup_app_r by lia.
    rewrite lookup_app_l by lia.
    destruct (bn !! (k - length head)%nat) as [c|] eqn:Hc.
    + by rewrite (proj1 (Forall_lookup _ _) Hall _ _ Hc).
    + apply lookup_ge_None in Hc. lia.
  - apply not_Forall_Exists in Hall; [|apply _].
    apply Exists_exists in Hall as (c & Hin & Hc).
    apply list_elem_of_lookup in Hin as [i Hi].
    pose proof (lookup_lt_Some _ _ _ Hi) as Hlt.
    rewrite (splitext_loop_found _ _ _ _ (Z.of_nat (length head + i)) c); try done.
    + simpl. unfold slice_to, slice_from. rewrite Nat2Z.id.
      by rewrite take_app_length, drop_app_length.
    + lia.
    + rewrite length_app. lia.
    + rewrite Nat2Z.id, <- app_assoc, lookup_app_r by lia.
      rewrite lookup_app_l by lia. rewrite <- Hi. f_equal. lia.
    + rewrite !length_app. simpl. lia.
Qed.

(** X14: where [os.path.splitext] cuts.  A path that ends with a dot and
    characters among which there is neither a dot nor a separator has that
    ending as its extension, provided that something other than dots stands
    between the last separator and that dot; when only dots stand there, or
    nothing, the extension is empty. *)
Theorem splitext_cuts_last_dot (stem e : str) :
  DOT ∉ e → SLASH ∉ e →
  os_path.splitext (stem ++ DOT :: e)
  = if bool_decide (Forall (λ c, c = DOT) (os_path.basename stem))
    then (stem ++ DOT :: e, [])
    else (stem, DOT :: e).
Proof. apply splitext_last_dot. Qed.

Lemma splitext_cuts_last_dot_witness :
  os_path.splitext (py "docs/.hidden.tar" ++ DOT :: py "gz")
  = (py "docs/.hidden.tar", DOT :: py "gz").
Proof.
  assert (DOT ∉ py "gz") as Hdot.
  { vm_compute. intros Hin.
    repeat (apply elem_of_cons in Hin as [Heq|Hin]; [discriminate Heq|]).
    by apply elem_of_nil in Hin. }
  assert (SLASH ∉ py "gz") as Hsep.
  { vm_compute. intros Hin.
    repeat (apply elem_of_cons in Hin as [Heq|Hin]; [discriminate Heq|]).
    by apply elem_of_nil in Hin. }
  exact (splitext_cuts_last_dot (py "docs/.hidden.tar") (py "gz") Hdot Hsep).
Defined.

(** ** The UTF-8 codec *)

Lemma is_cont_spec (b : N) : Utf8.is_cont b = true ↔ (128 ≤ b < 192)%N.
Proof.
  unfold Utf8.is_cont. rewrite andb_true_iff, N.leb_le, N.ltb_lt. done.
Qed.

Ltac decide_bounds :=
  repeat match goal with
         | |- context [(?a <? ?b)%N] => destruct (N.ltb_spec a b); try lia
         | |- context [(?a <=? ?b)%N] => destruct (N.leb_spec a b); try lia
         end.

Lemma decode_1 (b0 : N) (rest : list N) :
  (b0 < 128)%N → Utf8.decode (b0 :: rest) = cons b0 <$> Utf8.decode rest.
Proof. intros. simpl. by decide_bounds. Qed.

Lemma decode_2 (b0 b1 : N) (rest : list N) :
  (194 ≤ b0 < 224)%N → (128 ≤ b1 < 192)%N →
  Utf8.decode (b0 :: b1 :: rest)
  = cons ((b0 - 192) * 64 + (b1 - 128))%N <$> Utf8.decode rest.
Proof.
  intros H0 H1. apply is_cont_spec in H1. simpl. rewrite H1. by decide_bounds.
Qed.

Lemma decode_3 (b0 b1 b2 : N) (rest : list N) :
  let c := ((b0 - 224) * 4096 + (b1 - 128) * 64 + (b2 - 128))%N in
  (224 ≤ b0 < 240)%N → (128 ≤ b1 < 192)%N → (128 ≤ b2 < 192)%N →
  (2048 ≤ c)%N → Utf8.is_surrogate c = false →
  Utf8.decode (b0 :: b1 :: b2 :: rest) = cons c <$> Utf8.decode rest.
Proof.
  intros c H0 H1 H2 Hc Hs. apply is_cont_spec in H1, H2.
  cbn [Utf8.decode]. fold c. rewrite H1, H2, Hs.
  destruct (N.leb_spec 2048 c); [|lia]. simpl. by decide_bounds.
Qed.

Lemma decode_4 (b0 b1 b2 b3 : N) (rest : list N) :
  let c := ((b0 - 240) * 262144 + (b1 - 128) * 4096
            + (b2 - 128) * 64 + (b3 - 128))%N in
  (240 ≤ b0 < 245)%N → (128 ≤ b1 < 192)%N → (128 ≤ b2 < 192)%N →
  (128 ≤ b3 < 192)%N → (65536 ≤ c < 1114112)%N →
  Utf8.decode (b0 :: b1 :: b2 :: b3 :: rest) = cons c <$> Utf8.decode rest.
Proof.
  intros c H0 H1 H2 H3 Hc. apply is_cont_spec in H1, H2, H3.
  cbn [Utf8.decode]. fold c. rewrite H1, H2, H3.
  destruct (N.leb_spec 65536 c); [|lia]. destruct (N.ltb_spec c 1114112); [|lia].
  simpl. by decide_bounds.
Qed.

#[local] Ltac Zify.zify_post_hook ::= Z.to_euclidean_division_equations.

Lemma utf8_decode_encoded_char (c : N) (l rest : list N) :
  utf8_encode_char c = Some l →
  Utf8.decode (l ++ rest) = cons c <$> Utf8.decode rest.
Proof.
  unfold utf8_encode_char.
  destruct (N.ltb_spec c 128) as [H1|H1]; [intros [= <-]; by apply decode_1|].
  destruct (N.ltb_spec c 2048) as [H2|H2].
  { intros [= <-]. cbn [app].
    rewrite (decode_2 (192 + c / 64) (128 + c mod 64)); [f_equal; f_equal|..]; lia. }
  destruct (Utf8.is_surrogate c) eqn:Hs; [done|].
  destruct (N.ltb_spec c 65536) as [H3|H3].
  { intros [= <-]. cbn [app].
    assert ((224 + c / 4096 - 224) * 4096 + (128 + c / 64 mod 64 - 128) * 64
            + (128 + c mod 64 - 128) = c)%N as Hc by lia.
    rewrite (decode_3 (224 + c / 4096) (128 + c / 64 mod 64) (128 + c mod 64));
      rewrite ?Hc; try done; lia. }
  destruct (N.ltb_spec c 1114112) as [H4|H4]; [|done].
  intros [= <-]. cbn [app].
  assert ((240 + c / 262144 - 240) * 262144 + (128 + c / 4096 mod 64 - 128) * 4096
          + (128 + c / 64 mod 64 - 128) * 64 + (128 + c mod 64 - 128) = c)%N
    as Hc by lia.
  rewrite (decode_4 (240 + c / 262144) (128 + c / 4096 mod 64)
             (128 + c / 64 mod 64) (128 + c mod 64));
    rewrite ?Hc; try done; lia.
Qed.

#[local] Ltac Zify.zify_post_hook ::= idtac.

Lemma utf8_decode_encoded (s : str) (bs : list N) :
  utf8_encode s = Some bs → Utf8.decode bs = Some s.
Proof.
  unfold utf8_encode. revert bs. induction s as [|c s IH]; intros bs.
  - by intros [= <-].
  - cbn [mapM].
    destruct (utf8_encode_char c) as [l|] eqn:Hc; [|done]. simpl.
    destruct (mapM utf8_encode_char s) as [ls|]; [|done]. simpl.
    intros [= <-]. rewrite (utf8_decode_encoded_char _ _ _ Hc).
    by rewrite (IH (mjoin ls)).
Qed.

Lemma mapM_byte_of_N (bs : list N) (data : list byte) :
  mapM Byte.of_N bs = Some data → Byte.to_N <$> data = bs.
Proof.
  revert data. induction bs as [|b bs IH]; intros data.
  - by intros [= <-].
  - cbn [mapM]. destruct (Byte.of_N b) as [x|] eqn:Hb; [|done]. simpl.
    destruct (mapM Byte.of_N bs) as [xs|]; [|done]. simpl.
    intros [= <-]. rewrite fmap_cons. f_equal; [by apply Byte.to_of_N|by apply IH].
Qed.

Lemma utf8_round_trip (s : str) (data : list byte) :
  utf8_encode_bytes s = Some data → Utf8.decode_bytes data = Some s.
Proof.
  unfold utf8_encode_bytes, Utf8.decode_bytes.
  destruct (utf8_encode s) as [bs|] eqn:Hbs; [|done]. simpl.
  intros Hdata. rewrite (mapM_byte_of_N _ _ Hdata). by apply utf8_decode_encoded.
Qed.

(** ** Writing files *)

Section writing.
Context `{Platform}.

Lemma open_w_effect (p : str) (w : world) :
  (∃ e, open_w p w = (inl e, w))
  ∨ (∃ r, open_w p w = (inr (TextIOw p r), World (<[p := File [] r]> (files w)) (stdout w))
          ∧ (files w !! p = None ∨ ∃ c, files w !! p = Some (File c r))
          ∧ (files w !! p = None → r = true)).
Proof.
  unfold open_w, check_change, check_parent, bind, get_files, put_files, ret, raise.
  destruct (change_refused p); [left; by eexists|]. simpl.
  destruct (files w !! p) as [[c r|d]|] eqn:Hp; simpl.
  - destruct (write_denied p); [left; by eexists|].
    right. exists r. split; [done|]. split; [|done]. right. by exists c.
  - left. by eexists.
  - destruct (files w !! parent p) as [[c r|[]]|]; simpl; try (left; by eexists).
    right. exists true. split; [done|]. split; [by left|done].
Qed.

(** An existing file that may be written is emptied as soon as it is
    opened. *)
Lemma open_w_existing (p : str) (w : world) (old : list byte) (r : bool) :
  files w !! p = Some (File old r) →
  change_refused p = None →
  write_denied p = false →
  open_w p w = (inr (TextIOw p r), World (<[p := File [] r]> (files w)) (stdout w)).
Proof.
  intros Hfile Hchange Hwrite.
  unfold open_w, check_change, bind, get_files, put_files, ret.
  rewrite Hchange. simpl. by rewrite Hfile, Hwrite.
Qed.

(** The [try] block that [create_file] and [save_file] share. *)
Lemma write_text_run (p content : str) (w : world) :
  (∃ e, open_w p w = (inl e, w)
        ∧ (f <- open_w p ;; TextIO_write f content ;; ret true) w = (inl e, w))
  ∨ (∃ r, (files w !! p = None ∨ ∃ c, files w !! p = Some (File c r))
          ∧ (files w !! p = None → r = true)
          ∧ (f <- open_w p ;; TextIO_write f content ;; ret true) w
            = match locale_encode content with
              | inr data => (inr true, World (<[p := File data r]> (files w)) (stdout w))
              | inl e => (inl e, World (<[p := File [] r]> (files w)) (stdout w))
              end).
Proof.
  destruct (open_w_effect p w) as [[e He]|(r & Hopen & Hwas & Hnew)].
  - left. exists e. split; [done|]. unfold bind. by rewrite He.
  - right. exists r. split; [done|]. split; [done|].
    unfold TextIO_write, bind. rewrite Hopen.
    destruct (locale_encode content) as [e|data]; simpl; [done|].
    unfold put_files, get_files, ret. simpl. by rewrite insert_insert_eq.
Qed.

(** A tool whose handler prints and returns [False] returns [True] only
    when its [try] block did. *)
Lemma reported_true (body : M bool) (line : exn → str) (w w1 : world) :
  try_except body (λ e, print (line e) ;; ret false) w = (inr true, w1) →
  body w = (inr true, w1).
Proof.
  unfold try_except. destruct (body w) as [[e|b] w']; [|done].
  by intros [[=] _]%failure_line_run.
Qed.

(** What the two writing tools come to, [prefix] being what the failure
    line starts with. *)
Lemma written_or_reported (prefix p content : str) (w : world) :
  match try_except (f <- open_w p ;; TextIO_write f content ;; ret true)
          (λ e, print (prefix ++ exn_str e) ;; ret false) w with
  | (inr true, w1) =>
      ∃ data r, locale_encode content = inr data
                ∧ files w1 = <[p := File data r]> (files w)
                ∧ stdout w1 = stdout w
  | (inr false, w1) =>
      (files w1 = files w ∨ ∃ r, files w1 = <[p := File [] r]> (files w))
      ∧ ∃ line, stdout w1 = stdout w ++ [line]
  | (inl e, w1) =>
      (files w1 = files w ∨ ∃ r, files w1 = <[p := File [] r]> (files w))
      ∧ stdout w1 = stdout w
      ∧ ∃ line, stdout_refuses line = Some e
  end.
Proof.
  unfold try_except.
  destruct (write_text_run p content w) as [(e & _ & ->)|(r & _ & _ & ->)].
  - rewrite print_then_ret. destruct (stdout_refuses _) eqn:Hline; simpl.
    + split; [by left|]. split; [done|by eauto].
    + split; [by left|by eexists].
  - destruct (locale_encode content) as [e|data] eqn:Henc.
    + rewrite print_then_ret. destruct (stdout_refuses _) eqn:Hline; simpl.
      * split; [right; by eexists|]. split; [done|by eauto].
      * split; [right; by eexists|by eexists].
    + by exists data, r.
Qed.

End writing.

(** X15: [create_file] touches no path but its own.  When it returns [True]
    the path holds exactly the encoding of the content and nothing was
    printed; when it returns [False] it has printed one line, and the file
    system is as before or the file is left empty.  It raises only what
    [print] raised for that line: nothing is printed then, and the file
    system is as before or the file is left empty. *)
Theorem create_file_effect `{Platform} (file_path content : str) (w : world) :
  match create_file file_path content w with
  | (inr true, w1) =>
      ∃ data r, locale_encode content = inr data
                ∧ files w1 = <[file_path := File data r]> (files w)
                ∧ stdout w1 = stdout w
  | (inr false, w1) =>
      (files w1 = files w ∨ ∃ r, files w1 = <[file_path := File [] r]> (files w))
      ∧ ∃ line, stdout w1 = stdout w ++ [line]
  | (inl e, w1) =>
      (files w1 = files w ∨ ∃ r, files w1 = <[file_path := File [] r]> (files w))
      ∧ stdout w1 = stdout w
      ∧ ∃ line, stdout_refuses line = Some e
  end.
Proof. apply (written_or_reported (py "创建文件失败: ")). Qed.

(** X16: a content that the locale cannot encode costs a file that the
    process may write its old content: when the platform lets the file at
    the path be opened for writing and standard output takes the failure
    line, [create_file] returns [False] and leaves the file empty. *)
Theorem create_file_unencodable_empties `{Platform}
    (file_path content : str) (w : world) (old : list byte) (r : bool) (e : exn) :
  files w !! file_path = Some (File old r) →
  change_refused file_path = None →
  write_denied file_path = false →
  locale_encode content = inl e →
  stdout_refuses (py "创建文件失败: " ++ exn_str e) = None →
  create_file file_path content w
  = (inr false,
     World (<[file_path := File [] r]> (files w))
       (stdout w ++ [py "创建文件失败: " ++ exn_str e])).
Proof.
  intros Hfile Hchange Hwrite Henc Hline.
  assert ((f <- open_w file_path ;; TextIO_write f content ;; ret true) w
          = (inl e, World (<[file_path := File [] r]> (files w)) (stdout w)))
    as Hbody.
  { unfold TextIO_write, bind.
    rewrite (open_w_existing _ _ _ _ Hfile Hchange Hwrite). by rewrite Henc. }
  unfold create_file, try_except. by rewrite Hbody, print_then_ret, Hline.
Qed.

Lemma create_file_unencodable_empties_witness :
  @create_file sample_platform (py "notes.txt") [55296%N] sample_world
  = (inr false,
     World (<[py "notes.txt" := File [] true]> sample_files)
       ([] ++ [py "创建文件失败: " ++ py "'utf-8' codec can't encode character"])).
Proof.
  apply (@create_file_unencodable_empties sample_platform (py "notes.txt") [55296%N]
           sample_world (bytes_of "hello") true
           (Exn UnicodeEncodeError (py "'utf-8' codec can't encode character")));
    by vm_compute.
Defined.

(** A file that the process may not write keeps its content: [open] raises
    before anything is truncated. *)
Example locked_file_keeps_content :
  let w := World (<[py "locked.txt" := File (bytes_of "hello") true]> sample_files) [] in
  (@create_file with_locked_file (py "locked.txt") (py "bye") w).1 = inr false
  ∧ files (@create_file with_locked_file (py "locked.txt") (py "bye") w).2
    = files w.
Proof. by vm_compute. Qed.

Section written_then_read.
Context `{Platform} `{Libraries}.

Lemma written_then_read (target content : str) (w : world) (data : list byte)
    (r : bool) :
  (os_path.splitext target).2 ∈ TEXT_EXTS ++ [py ".html"; py ".htm"] →
  files w !! target = None ∨ (∃ c, files w !! target = Some (File c true)) →
  files w !! target = None ∨ (∃ c, files w !! target = Some (File c r)) →
  (files w !! target = None → r = true) →
  utf8_encode_bytes content = Some data →
  let w1 := World (<[target := File data r]> (files w)) (stdout w) in
  read_text_from_file target w1 = (inr (Some (universal_newlines content)), w1).
Proof.
  intros Hext Hwas Hwas' Hnew Henc w1.
  assert (r = true) as ->.
  { destruct Hwas as [Hnone|[c Hc]]; [by apply Hnew|].
    destruct Hwas' as [?|[c' Hc']]; congruence. }
  apply (read_verbatim_text _ _ data); [done|by simpl; rewrite lookup_insert_eq|].
  by apply utf8_round_trip.
Qed.

(** What a write under a UTF-8 locale leaves when its [try] block came to
    its end. *)
Lemma utf8_written (target content : str) (w w1 : world) :
  (f <- @open_w utf8_locale target ;; @TextIO_write utf8_locale f content ;; ret true) w
  = (inr true, w1) →
  ∃ data r,
    (files w !! target = None ∨ (∃ c, files w !! target = Some (File c r)))
    ∧ (files w !! target = None → r = true)
    ∧ utf8_encode_bytes content = Some data
    ∧ w1 = World (<[target := File data r]> (files w)) (stdout w).
Proof.
  destruct (@write_text_run utf8_locale target content w)
    as [(e & _ & ->)|(r & Hwas & Hnew & ->)]; [done|].
  simpl. unfold utf8_codec.
  destruct (utf8_encode_bytes content) as [data|] eqn:Henc; [|done].
  intros [= <-]. by exists data, r.
Qed.

(** X17: under a UTF-8 locale, what [create_file] has written under a
    plain-text or markup extension, [read_text_from_file] reads back, line
    ends apart: when the path was free or held a readable file, and
    [create_file] returned [True], the reader returns the content with
    [\r\n] and [\r] read as [\n], and prints nothing. *)
Theorem create_then_read (file_path content : str) (w w1 : world) :
  (os_path.splitext file_path).2 ∈ TEXT_EXTS ++ [py ".html"; py ".htm"] →
  files w !! file_path = None ∨ (∃ c, files w !! file_path = Some (File c true)) →
  @create_file utf8_locale file_path content w = (inr true, w1) →
  read_text_from_file file_path w1 = (inr (Some (universal_newlines content)), w1).
Proof.
  intros Hext Hwas Hrun.
  apply (@reported_true utf8_locale) in Hrun.
  destruct (utf8_written _ _ _ _ Hrun) as (data & r & Hwas' & Hnew & Henc & ->).
  by apply written_then_read.
Qed.

End written_then_read.

Lemma create_then_read_witness :
  let w1 := World (<[py "new.txt" := File (bytes_of "hello") true]> sample_files) [] in
  @read_text_from_file sample_platform (@sample_runtime sample_platform None)
    (py "new.txt") w1
  = (inr (Some (universal_newlines (py "hello"))), w1).
Proof.
  intros w1.
  apply (@create_then_read sample_platform (@sample_runtime sample_platform None)
           (py "new.txt") (py "hello") sample_world w1).
  - vm_compute. constructor.
  - left. by vm_compute.
  - by vm_compute.
Defined.

(** ** Saving under a format *)

(** X18: [save_file] writes to the path completed by the format: the path
    itself when it ends with a dot and the format, the path followed by a
    dot and the format otherwise.  [True] means that the completed path
    holds exactly the encoding of the content, [False] that one line was
    printed and the file system is as before or the completed path is left
    empty.  It raises only what [print] raised for that line, with the file
    system as before or the completed path left empty. *)
Theorem save_file_effect `{Platform} (file_path content file_format : str) (w : world) :
  ∃ target : str,
    (py "." ++ file_format) `suffix_of` target
    ∧ ((py "." ++ file_format) `suffix_of` file_path → target = file_path)
    ∧ (¬ (py "." ++ file_format) `suffix_of` file_path →
       target = file_path ++ py "." ++ file_format)
    ∧ match save_file file_path content file_format w with
      | (inr true, w1) =>
          ∃ data r, locale_encode content = inr data
                    ∧ files w1 = <[target := File data r]> (files w)
                    ∧ stdout w1 = stdout w
      | (inr false, w1) =>
          (files w1 = files w ∨ ∃ r, files w1 = <[target := File [] r]> (files w))
          ∧ ∃ line, stdout w1 = stdout w ++ [line]
      | (inl e, w1) =>
          (files w1 = files w ∨ ∃ r, files w1 = <[target := File [] r]> (files w))
          ∧ stdout w1 = stdout w
          ∧ ∃ line, stdout_refuses line = Some e
      end.
Proof.
  unfold save_file.
  set (target := if negb _ then _ else _).
  exists target.
  assert ((py "." ++ file_format) `suffix_of` target
          ∧ ((py "." ++ file_format) `suffix_of` file_path → target = file_path)
          ∧ (¬ (py "." ++ file_format) `suffix_of` file_path →
             target = file_path ++ py "." ++ file_format)) as (Hs & Hy & Hn).
  { subst target. case_bool_decide as Hsuf; simpl.
    - done.
    - split; [|done]. by apply suffix_app_r. }
  do 3 (split; [done|]).
  apply (written_or_reported (py "保存文件失败: ")).
Qed.

Ltac no_such_char :=
  let Hin := fresh "Hin" in
  vm_compute; intros Hin;
  repeat (apply elem_of_cons in Hin as [Hin|Hin]; [discriminate Hin|]);
  by apply elem_of_nil in Hin.

Lemma verbatim_format_plain (file_format : str) :
  py "." ++ file_format ∈ TEXT_EXTS ++ [py ".html"; py ".htm"] →
  (DOT ∉ file_format) ∧ (SLASH ∉ file_format).
Proof.
  intros Hfmt. unfold TEXT_EXTS in Hfmt.
  repeat (apply elem_of_cons in Hfmt as [Heq|Hfmt];
          [vm_compute in Heq; injection Heq as ->; split; no_such_char|]).
  by apply elem_of_nil in Hfmt.
Qed.

Section saved_then_read.
Context `{Platform}.

(** X19: under a UTF-8 locale, what [save_file] has written under a
    plain-text or markup format, [read_text_from_file] reads back from the
    completed path, line ends apart, provided that the name before the
    format's dot is not made of dots only (such a name has no extension for
    the reader) and that the completed path was free or held a readable
    file. *)
Theorem save_then_read `{Libraries}
    (file_path content file_format stem : str) (w w1 : world) :
  let ext := py "." ++ file_format in
  let target := stem ++ ext in
  ext ∈ TEXT_EXTS ++ [py ".html"; py ".htm"] →
  target = (if bool_decide (ext `suffix_of` file_path)
            then file_path else file_path ++ ext) →
  ¬ Forall (λ c, c = DOT) (os_path.basename stem) →
  files w !! target = None ∨ (∃ c, files w !! target = Some (File c true)) →
  @save_file utf8_locale file_path content file_format w = (inr true, w1) →
  read_text_from_file target w1 = (inr (Some (universal_newlines content)), w1).
Proof.
  intros ext target Hfmt Hpath Hname Hwas Hrun.
  assert ((os_path.splitext target).2 = ext) as Hext.
  { destruct (verbatim_format_plain _ Hfmt) as [Hdot Hsep].
    subst target ext. change (py "." ++ file_format) with (DOT :: file_format).
    rewrite splitext_last_dot by done.
    by rewrite bool_decide_eq_false_2. }
  apply (@reported_true utf8_locale) in Hrun. revert Hrun. fold ext.
  assert ((if negb (bool_decide (ext `suffix_of` file_path))
           then file_path ++ ext else file_path) = target) as ->.
  { rewrite Hpath. by case_bool_decide. }
  intros Hrun.
  destruct (utf8_written _ _ _ _ Hrun) as (data & r & Hwas' & Hnew & Henc & ->).
  apply written_then_read; try done. by rewrite Hext.
Qed.

End saved_then_read.

Lemma save_then_read_witness :
  let w1 := World (<[py "report.md" := File (bytes_of "hello") true]> sample_files) [] in
  @read_text_from_file sample_platform (@sample_runtime sample_platform None)
    (py "report.md") w1
  = (inr (Some (universal_newlines (py "hello"))), w1).
Proof.
  intros w1.
  apply (@save_then_read sample_platform (@sample_runtime sample_platform None)
           (py "report") (py "hello") (py "md") (py "report") sample_world w1).
  - vm_compute. do 3 constructor.
  - by vm_compute.
  - vm_compute. intros Hall. apply Forall_cons_1 in Hall as [Hall _]. discriminate Hall.
  - left. by vm_compute.
  - by vm_compute.
Defined.
(** ** Walking a directory *)

Lemma str_contains_spec (keyword file : str) :
  str_contains keyword file = true ↔ ∃ a b, file = a ++ keyword ++ b.
Proof.
  induction file as [|c file IH]; simpl.
  - rewrite orb_false_r, bool_decide_eq_true. split.
    + intros [b Hb]. by exists [], b.
    + intros (a & b & Hab). symmetry in Hab.
      apply app_eq_nil in Hab as [-> Hkb]. apply app_eq_nil in Hkb as [-> ->].
      by exists [].
  - rewrite orb_true_iff, bool_decide_eq_true, IH. split.
    + intros [[b Hb]|(a & b & ->)]; [by exists [], b|by exists (c :: a), b].
    + intros ([|x a] & b & Hab); simpl in Hab.
      * left. by exists b.
      * right. injection Hab as -> ->. by exists a, b.
Qed.

Lemma str_contains_nil (file : str) : str_contains [] file = true.
Proof. apply str_contains_spec. by exists [], file. Qed.

Section walking.
Context `{Platform} `{Walker}.

Lemma for_in_files (root : str) (files all_files : list str) (w : world) :
  for_in files
    (λ file all_files, ret (all_files ++ [os_path.join root file])) all_files w
  = (inr (all_files ++ map (os_path.join root) files), w).
Proof.
  revert all_files. induction files as [|file files IH]; intros all_files; simpl.
  - by rewrite app_nil_r.
  - unfold bind, ret. simpl. rewrite IH. by rewrite <- app_assoc.
Qed.

Lemma for_in_walk (walk : list (str * list str * list str))
    (all_files : list str) (w : world) :
  for_in walk
    (λ '(root, _, files) all_files,
       for_in files
         (λ file all_files, ret (all_files ++ [os_path.join root file]))
         all_files)
    all_files w
  = (inr (all_files ++ flat_map (λ '(root, _, files), map (os_path.join root) files) walk), w).
Proof.
  revert all_files. induction walk as [|[[root dirs] files] walk IH];
    intros all_files; simpl.
  - by rewrite app_nil_r.
  - unfold bind. rewrite for_in_files, IH. by rewrite <- app_assoc.
Qed.

Lemma get_all_files_run (folder_path : str) (w w1 : world)
    (walk : list (str * list str * list str)) :
  os_walk folder_path w = (inr walk, w1) →
  get_all_files folder_path w = (inr (flat_map (λ '(root, _, files), map (os_path.join root) files) walk), w1).
Proof.
  intros Hwalk. unfold get_all_files, try_except, bind. rewrite Hwalk.
  by rewrite for_in_walk.
Qed.

Lemma search_files_run (directory keyword : str) (w w1 : world)
    (walk : list (str * list str * list str)) :
  os_walk directory w = (inr walk, w1) →
  search_files directory keyword w
  = (inr (flat_map
            (λ '(root, _, files),
               map (os_path.join root)
                 (filter (λ file, str_contains keyword file = true) files))
            walk), w1).
Proof.
  intros Hwalk. unfold search_files, try_except, bind. by rewrite Hwalk.
Qed.

End walking.

Section searching.
Context `{Platform}.

(** X20: [search_files] returns a selection of what [get_all_files] returns
    for the same directory, in the same order; with the empty keyword it
    returns all of it. *)
Theorem search_files_selects `{Walker} (directory keyword : str) (w w1 : world)
    (walk : list (str * list str * list str)) :
  os_walk directory w = (inr walk, w1) →
  ∃ found all_files,
    search_files directory keyword w = (inr found, w1)
    ∧ get_all_files directory w = (inr all_files, w1)
    ∧ found `sublist_of` all_files
    ∧ (keyword = [] → found = all_files).
Proof.
  intros Hwalk.
  rewrite (search_files_run _ keyword _ _ _ Hwalk), (get_all_files_run _ _ _ _ Hwalk).
  eexists _, _. split; [done|]. split; [done|]. split.
  - clear Hwalk. induction walk as [|[[root dirs] files] walk IH]; [done|]. simpl.
    apply sublist_app; [|done]. apply fmap_sublist, sublist_filter.
  - intros ->. clear Hwalk. induction walk as [|[[root dirs] files] walk IH]; [done|].
    simpl. rewrite IH. f_equal. f_equal.
    induction files as [|file files IHf]; [done|].
    rewrite filter_cons_True by apply str_contains_nil. by rewrite IHf.
Qed.

End searching.

Lemma search_files_selects_witness :
  ∃ found all_files,
    @search_files sample_platform sample_walker (py ".") (py "csv") sample_world
    = (inr found, sample_world)
    ∧ @get_all_files sample_platform sample_walker (py ".") sample_world
      = (inr all_files, sample_world)
    ∧ found `sublist_of` all_files
    ∧ (py "csv" = [] → found = all_files).
Proof.
  apply (@search_files_selects sample_platform sample_walker (py ".") (py "csv") sample_world
           sample_world (sample_walk 8 sample_files (py "."))).
  by vm_compute.
Defined.

Section searching_names.
Context `{Platform}.

(** X21: the keyword is looked for in the file name, not in the directory
    part: [search_files] returns exactly the joined paths [root/file] of the
    walk whose file name contains the keyword as a contiguous part. *)
Theorem search_files_matches_names `{Walker} (directory keyword : str) (w w1 : world)
    (walk : list (str * list str * list str)) :
  os_walk directory w = (inr walk, w1) →
  ∃ found,
    search_files directory keyword w = (inr found, w1)
    ∧ ∀ x, x ∈ found ↔
           ∃ root dirs files file a b,
             (root, dirs, files) ∈ walk ∧ file ∈ files
             ∧ file = a ++ keyword ++ b ∧ x = os_path.join root file.
Proof.
  intros Hwalk. rewrite (search_files_run _ keyword _ _ _ Hwalk).
  eexists. split; [done|]. intros x.
  rewrite list_elem_of_In, in_flat_map. split.
  - intros ([[root dirs] files] & Hin & Hx).
    apply list_elem_of_In, list_elem_of_fmap in Hx as (file & -> & Hfile).
    apply list_elem_of_filter in Hfile as [Hk Hfile].
    apply str_contains_spec in Hk as (a & b & ->).
    exists root, dirs, files, (a ++ keyword ++ b), a, b.
    by rewrite list_elem_of_In.
  - intros (root & dirs & files & file & a & b & Hin & Hfile & Hk & ->).
    exists (root, dirs, files). split; [by apply list_elem_of_In|].
    apply list_elem_of_In, list_elem_of_fmap. exists file. split; [done|].
    apply list_elem_of_filter. split; [|done].
    apply str_contains_spec. by exists a, b.
Qed.

End searching_names.

Lemma search_files_matches_names_witness :
  ∃ found,
    @search_files sample_platform sample_walker (py ".") (py "csv") sample_world
    = (inr found, sample_world)
    ∧ ∀ x, x ∈ found ↔
           ∃ root dirs files file a b,
             (root, dirs, files) ∈ sample_walk 8 sample_files (py ".")
             ∧ file ∈ files
             ∧ file = a ++ py "csv" ++ b ∧ x = os_path.join root file.
Proof.
  apply (@search_files_matches_names sample_platform sample_walker (py ".") (py "csv") sample_world
           sample_world (sample_walk 8 sample_files (py "."))).
  by vm_compute.
Defined.
